(** * covidm: the SEI3HR engine of corona.cpp

    A shallow embedding of [Reporter], [Population], [Metapopulation] and
    [RunSimulation] from corona.cpp, and the properties of the per-step
    state-transition engine proved on it.

    Numbers.  The C++ [double] quantities (counts, rates, times) are
    embedded as rationals [Q], and their arithmetic is exact, with one
    exception: the quotient [1. / P.report_every] that the constructor of the
    reporter compares with [P.time_step] is rounded to the nearest double
    ([round_double]), and is an infinity when [P.report_every] is zero.  The
    parameters themselves are finite.  [double_step_time] and
    [double_time_steps] are the time of a step and the number of steps with
    the rounding of the program; they are the exact [step_time] and
    [time_steps] of the model on the grids that [report_grid] and
    [time_grid_exact] describe: a power of two of steps per unit of time, a
    whole [time0] and times of at most 53 bits.  Off these grids the
    statements about the run are statements about the exact times.
    [unsigned int] values that are computed by arithmetic are embedded in
    [N] with the 32-bit wrap-around written out ([wrap32]); loop counters
    and vector indices, which are bounded by a vector's size, are [nat].

    Vectors.  A [std::vector] is a [list]; [v[i]] is the total lookup
    [v !!! i] and [v[i] = x] is [<[i:=x]> v].  An access out of range is
    undefined behaviour in the source; the model reads the default element
    and ignores the write. *)

From Stdlib Require Import QArith Qround Qabs Qpower ZArith NArith Lia Lqa String Ascii.
From stdpp Require Import base list.

Local Open Scope string_scope.
Local Open Scope list_scope.

(** ** Numeric conversions *)

(** Reduction of an [unsigned int] result modulo 2^32. *)
Definition wrap32 (x : N) : N := (x mod 4294967296)%N.

(** [(int)x]: the conversion of a [double] to an integer truncates toward
    zero. *)
Definition Qtrunc (x : Q) : Z := Z.quot (Qnum x) (Z.pos (Qden x)).

(** [(unsigned int)x] for a [double] [x]. *)
Definition uint_of_Q (x : Q) : N := wrap32 (Z.to_N (Qtrunc x)).

(** [(double)k] for an [unsigned int] [k]. *)
Definition Q_of_uint (k : N) : Q := inject_Z (Z.of_N k).

(** The test [t == (int)t] of [Population::Tick]. *)
Definition is_integer (t : Q) : bool := Qeq_bool t (inject_Z (Qtrunc t)).

(** *** Rounding to [double]

    IEEE 754 binary64, rounding to nearest, ties to even: 53 significant
    bits, and below [2^-1022] the fixed spacing [2^-1074] of the subnormal
    numbers. *)

(** The exponent [e] of a positive rational [x]: [2^e <= x < 2^(e+1)]. *)
Definition binade (x : Q) : Z :=
  let e := (Z.log2 (Qnum x) - Z.log2 (Z.pos (Qden x)))%Z in
  if Qle_bool (2 ^ e) x then e else (e - 1)%Z.

(** The integer nearest to [x]; of two that are equally near, the even
    one. *)
Definition round_half_even (x : Q) : Z :=
  let f := Qfloor x in
  match (x - inject_Z f ?= 1 # 2)%Q with
  | Lt => f
  | Eq => if Z.even f then f else (f + 1)%Z
  | Gt => (f + 1)%Z
  end.

(** The spacing of the doubles around [x]. *)
Definition quantum (x : Q) : Q := (2 ^ (Z.max (binade (Qabs x)) (-1022) - 52))%Q.

(** The double nearest to [x].  The exponent is not bounded above here: a
    result beyond [max_double] stands for an infinity. *)
Definition round_double (x : Q) : Q :=
  if Qeq_bool x 0 then 0%Q
  else (inject_Z (round_half_even (x / quantum x)) * quantum x)%Q.

(** The largest finite double, [(2^53 - 1) * 2^971]. *)
Definition max_double : Q := (inject_Z (2 ^ 53 - 1) * 2 ^ 971)%Q.

(** [x / y] for finite doubles [x] and [y]: the quotient rounded; [None] is
    an infinity or NaN (a zero divisor, or a quotient that rounds beyond the
    largest double). *)
Definition double_div (x y : Q) : option Q :=
  if Qeq_bool y 0 then None
  else
    let r := round_double (x / y) in
    if Qle_bool (Qabs r) max_double then Some r else None.

#[global] Instance Q_inhabited : Inhabited Q := populate 0%Q.
#[global] Instance N_inhabited' : Inhabited N := populate 0%N.
#[global] Instance string_inhabited' : Inhabited string := populate EmptyString.

(** ** Exceptions *)

Inductive exception : Type :=
| logic_error (what : string)
| runtime_error (what : string).

Inductive result (A : Type) : Type :=
| Ok (a : A)
| Throw (e : exception).

Arguments Ok {A} a.
Arguments Throw {A} e.

#[global] Instance result_ret : MRet result := fun A a => Ok a.

#[global] Instance result_bind : MBind result := fun A B k m =>
  match m with
  | Ok a => k a
  | Throw e => Throw e
  end.

(** A loop whose body may throw. *)
Fixpoint for_each {A B : Type} (body : A -> B -> result A) (xs : list B) (st : A)
  : result A :=
  match xs with
  | [] => Ok st
  | x :: rest => st' ← body st x; for_each body rest st'
  end.

(** ** Configuration (parameters.h, process.h, distribution.h, helper.h)

    These headers are not part of the sources; the records below have the
    members that corona.cpp reads and writes, with the types of their uses. *)

(** A discrete distribution: [weights] and the scratch vector [storage] that
    a multinomial draw fills.  The scratch vector is overwritten by each draw
    before it is read, so the model passes the drawn vector on and does not
    store it back. *)
Record Discrete : Type := {
  weights : list Q;
  storage : list N
}.

(** A matrix is used through its accessor [m(i, j)] only. *)
Definition Matrix : Type := nat -> nat -> Q.

Record ScheduleEntry : Type := {
  sched_t : Q;
  variable : string;
  value : list Q
}.

Record PopulationParameters : Type := {
  size : list Q;
  dE : Discrete;
  dIp : Discrete;
  dIa : Discrete;
  dIs : Discrete;
  dH : Discrete;
  dC : Discrete;
  seed_times : list Q;
  dist_seed_ages : Discrete;
  schedule : list ScheduleEntry;
  u : list Q;
  cm : Matrix;
  y : list Q;
  rho : list Q;
  fIp : list Q;
  fIa : list Q;
  fIs : list Q;
  tau : list Q
}.

Record ProcessSpec : Type := {
  source_id : nat;
  names : list string;
  ids : list nat;
  report : list string;
  prob : list (list Q);
  delays : list Discrete;
  p_cols : list nat;
  p_ids : list nat;
  i_cols : list nat;
  i_ids : list nat;
  o_cols : list nat;
  o_ids : list nat
}.

Record Parameters : Type := {
  time0 : Q;
  time1 : Q;
  time_step : Q;
  report_every : Q;
  deterministic : bool;
  pop : list PopulationParameters;
  processes : list ProcessSpec;
  travel : Matrix
}.

Definition Discrete_default : Discrete := {| weights := []; storage := [] |}.

#[global] Instance Discrete_inhabited : Inhabited Discrete := populate Discrete_default.

#[global] Instance PopulationParameters_inhabited : Inhabited PopulationParameters :=
  populate {| size := []; dE := Discrete_default; dIp := Discrete_default;
              dIa := Discrete_default; dIs := Discrete_default;
              dH := Discrete_default; dC := Discrete_default;
              seed_times := []; dist_seed_ages := Discrete_default;
              schedule := []; u := []; cm := fun _ _ => 0%Q; y := []; rho := [];
              fIp := []; fIa := []; fIs := []; tau := [] |}.

Definition set_processes (P : Parameters) (prs : list ProcessSpec) : Parameters :=
  {| time0 := time0 P; time1 := time1 P; time_step := time_step P;
     report_every := report_every P; deterministic := deterministic P;
     pop := pop P; processes := prs; travel := travel P |}.

(** ** Collaborators

    The random-number engine (randomizer.h), the delay compartment
    (compartment.h), the exponential of the C library, the source hookpoint
    constants of process.h and the parameter-update methods and observer of
    parameters.h are used by corona.cpp through their interfaces only. *)
Class Externals : Type := {
  Randomizer : Type;
  (** [Rand.Binomial(n, p)] *)
  Rand_Binomial : Randomizer -> Q -> Q -> N * Randomizer;
  (** [Rand.Multinomial(n, p, out)]: fills [out] *)
  Rand_Multinomial : Randomizer -> Q -> list Q -> list N -> list N * Randomizer;
  Compartment : Type;
  (** the default-constructed compartment *)
  Compartment_new : Compartment;
  (** [c.Add(P, Rand, n, mat)] *)
  Compartment_Add :
    Parameters -> Randomizer -> Q -> Discrete -> Compartment -> Compartment * Randomizer;
  (** [c.Mature()]: the count that leaves, and the compartment after it *)
  Compartment_Mature : Compartment -> Q * Compartment;
  (** [c.Size()] *)
  Compartment_Size : Compartment -> Q;
  (** [exp] of <cmath> *)
  exp : Q -> Q;
  (** the named values of [source_id] *)
  srcS : nat;
  srcE : nat;
  srcEp : nat;
  srcEa : nat;
  srcIp : nat;
  srcIs : nat;
  srcH : nat;
  srcIa : nat;
  srcI : nat;
  (** [P.pop[p].Set(&P, variable, value)] *)
  Pop_Set : Parameters -> nat -> string -> list Q -> Parameters;
  (** [P.pop[p].Recalculate()] *)
  Pop_Recalculate : Parameters -> nat -> Parameters;
  (** [pp.observer(pp, -1, -1, t, -1)] *)
  observer : PopulationParameters -> Q -> bool
}.

#[global] Instance Compartment_inhabited `{Externals} : Inhabited Compartment :=
  populate Compartment_new.

(** Modelled from the spec: the contract of the delay compartment, whose
    implementation (compartment.h) is not part of the sources.  A new
    compartment is empty, [Add] raises the occupancy by the enrolled count,
    and [Mature] lowers it by the count it returns (total entered minus total
    matured equals the current [Size()]). *)
Class CompartmentContract `{Externals} : Prop := {
  Size_new : (Compartment_Size Compartment_new == 0)%Q;
  Size_Add : forall P r n d c,
    (Compartment_Size (Compartment_Add P r n d c).1 == Compartment_Size c + n)%Q;
  Size_Mature : forall c,
    (Compartment_Size (Compartment_Mature c).2
     == Compartment_Size c - (Compartment_Mature c).1)%Q
}.

(** ** Reporter *)

Record Reporter : Type := {
  active : bool;
  t0 : Q;
  n_times : N;
  n_populations : N;
  n_age_groups : N;
  col_names : list string;
  data : list (list Q)
}.

Definition set_data (rep : Reporter) (d : list (list Q)) : Reporter :=
  {| active := active rep; t0 := t0 rep; n_times := n_times rep;
     n_populations := n_populations rep; n_age_groups := n_age_groups rep;
     col_names := col_names rep; data := d |}.

(** The row of [operator()(t, p, a, c)]. *)
Definition rep_row (rep : Reporter) (t : Q) (p a : nat) : nat :=
  N.to_nat (wrap32 (uint_of_Q (t - t0 rep) * n_populations rep * n_age_groups rep
                    + N.of_nat p * n_age_groups rep + N.of_nat a)).

(** [rep(t, p, a, c)] read. *)
Definition rep_get (rep : Reporter) (t : Q) (p a c : nat) : Q :=
  (data rep !!! c) !!! rep_row rep t p a.

(** [rep(t, p, a, c) = v]. *)
Definition rep_set (rep : Reporter) (t : Q) (p a c : nat) (v : Q) : Reporter :=
  set_data rep (alter (fun col => <[rep_row rep t p a := v]> col) c (data rep)).

(** [rep(t, p, a, c) += v]. *)
Definition rep_add (rep : Reporter) (t : Q) (p a c : nat) (v : Q) : Reporter :=
  set_data rep
    (alter (fun col => alter (fun x => (x + v)%Q) (rep_row rep t p a) col) c (data rep)).

(** ** Population

    The member [S] of the source is [S_] here ([S] is the successor of
    [nat]). *)
Record Population `{Externals} : Type := {
  lambda : list Q;
  S_ : list Q;
  R : list Q;
  E : list Compartment;
  Ip : list Compartment;
  Ia : list Compartment;
  Is : list Compartment;
  H : list Compartment;
  C : list Compartment;
  seed_row : nat;
  schedule_row : nat;
  p : nat;
  pc : list (list Compartment);
  ni_out : list N;
  nd_out : list Q;
  pci : list Q;
  pco : list Q
}.

Section Model.
Context `{Ext : Externals}.

(** Assignments to the members of a population. *)

Definition set_lambda (pp : Population) (x : list Q) : Population :=
  {| lambda := x; S_ := S_ pp; R := R pp; E := E pp; Ip := Ip pp;
     Ia := Ia pp; Is := Is pp; H := H pp; C := C pp; seed_row := seed_row pp;
     schedule_row := schedule_row pp; p := p pp; pc := pc pp;
     ni_out := ni_out pp; nd_out := nd_out pp; pci := pci pp;
     pco := pco pp |}.

Definition set_S_ (pp : Population) (x : list Q) : Population :=
  {| lambda := lambda pp; S_ := x; R := R pp; E := E pp; Ip := Ip pp;
     Ia := Ia pp; Is := Is pp; H := H pp; C := C pp; seed_row := seed_row pp;
     schedule_row := schedule_row pp; p := p pp; pc := pc pp;
     ni_out := ni_out pp; nd_out := nd_out pp; pci := pci pp;
     pco := pco pp |}.

Definition set_R (pp : Population) (x : list Q) : Population :=
  {| lambda := lambda pp; S_ := S_ pp; R := x; E := E pp; Ip := Ip pp;
     Ia := Ia pp; Is := Is pp; H := H pp; C := C pp; seed_row := seed_row pp;
     schedule_row := schedule_row pp; p := p pp; pc := pc pp;
     ni_out := ni_out pp; nd_out := nd_out pp; pci := pci pp;
     pco := pco pp |}.

Definition set_E (pp : Population) (x : list Compartment) : Population :=
  {| lambda := lambda pp; S_ := S_ pp; R := R pp; E := x; Ip := Ip pp;
     Ia := Ia pp; Is := Is pp; H := H pp; C := C pp; seed_row := seed_row pp;
     schedule_row := schedule_row pp; p := p pp; pc := pc pp;
     ni_out := ni_out pp; nd_out := nd_out pp; pci := pci pp;
     pco := pco pp |}.

Definition set_Ip (pp : Population) (x : list Compartment) : Population :=
  {| lambda := lambda pp; S_ := S_ pp; R := R pp; E := E pp; Ip := x;
     Ia := Ia pp; Is := Is pp; H := H pp; C := C pp; seed_row := seed_row pp;
     schedule_row := schedule_row pp; p := p pp; pc := pc pp;
     ni_out := ni_out pp; nd_out := nd_out pp; pci := pci pp;
     pco := pco pp |}.

Definition set_Ia (pp : Population) (x : list Compartment) : Population :=
  {| lambda := lambda pp; S_ := S_ pp; R := R pp; E := E pp; Ip := Ip pp;
     Ia := x; Is := Is pp; H := H pp; C := C pp; seed_row := seed_row pp;
     schedule_row := schedule_row pp; p := p pp; pc := pc pp;
     ni_out := ni_out pp; nd_out := nd_out pp; pci := pci pp;
     pco := pco pp |}.

Definition set_Is (pp : Population) (x : list Compartment) : Population :=
  {| lambda := lambda pp; S_ := S_ pp; R := R pp; E := E pp; Ip := Ip pp;
     Ia := Ia pp; Is := x; H := H pp; C := C pp; seed_row := seed_row pp;
     schedule_row := schedule_row pp; p := p pp; pc := pc pp;
     ni_out := ni_out pp; nd_out := nd_out pp; pci := pci pp;
     pco := pco pp |}.

Definition set_H (pp : Population) (x : list Compartment) : Population :=
  {| lambda := lambda pp; S_ := S_ pp; R := R pp; E := E pp; Ip := Ip pp;
     Ia := Ia pp; Is := Is pp; H := x; C := C pp; seed_row := seed_row pp;
     schedule_row := schedule_row pp; p := p pp; pc := pc pp;
     ni_out := ni_out pp; nd_out := nd_out pp; pci := pci pp;
     pco := pco pp |}.

Definition set_C (pp : Population) (x : list Compartment) : Population :=
  {| lambda := lambda pp; S_ := S_ pp; R := R pp; E := E pp; Ip := Ip pp;
     Ia := Ia pp; Is := Is pp; H := H pp; C := x; seed_row := seed_row pp;
     schedule_row := schedule_row pp; p := p pp; pc := pc pp;
     ni_out := ni_out pp; nd_out := nd_out pp; pci := pci pp;
     pco := pco pp |}.

Definition set_seed_row (pp : Population) (x : nat) : Population :=
  {| lambda := lambda pp; S_ := S_ pp; R := R pp; E := E pp; Ip := Ip pp;
     Ia := Ia pp; Is := Is pp; H := H pp; C := C pp; seed_row := x;
     schedule_row := schedule_row pp; p := p pp; pc := pc pp;
     ni_out := ni_out pp; nd_out := nd_out pp; pci := pci pp;
     pco := pco pp |}.

Definition set_schedule_row (pp : Population) (x : nat) : Population :=
  {| lambda := lambda pp; S_ := S_ pp; R := R pp; E := E pp; Ip := Ip pp;
     Ia := Ia pp; Is := Is pp; H := H pp; C := C pp; seed_row := seed_row pp;
     schedule_row := x; p := p pp; pc := pc pp; ni_out := ni_out pp;
     nd_out := nd_out pp; pci := pci pp; pco := pco pp |}.

Definition set_pc (pp : Population) (x : list (list Compartment)) : Population :=
  {| lambda := lambda pp; S_ := S_ pp; R := R pp; E := E pp; Ip := Ip pp;
     Ia := Ia pp; Is := Is pp; H := H pp; C := C pp; seed_row := seed_row pp;
     schedule_row := schedule_row pp; p := p pp; pc := x;
     ni_out := ni_out pp; nd_out := nd_out pp; pci := pci pp;
     pco := pco pp |}.

Definition set_ni_out (pp : Population) (x : list N) : Population :=
  {| lambda := lambda pp; S_ := S_ pp; R := R pp; E := E pp; Ip := Ip pp;
     Ia := Ia pp; Is := Is pp; H := H pp; C := C pp; seed_row := seed_row pp;
     schedule_row := schedule_row pp; p := p pp; pc := pc pp; ni_out := x;
     nd_out := nd_out pp; pci := pci pp; pco := pco pp |}.

Definition set_nd_out (pp : Population) (x : list Q) : Population :=
  {| lambda := lambda pp; S_ := S_ pp; R := R pp; E := E pp; Ip := Ip pp;
     Ia := Ia pp; Is := Is pp; H := H pp; C := C pp; seed_row := seed_row pp;
     schedule_row := schedule_row pp; p := p pp; pc := pc pp;
     ni_out := ni_out pp; nd_out := x; pci := pci pp; pco := pco pp |}.

Definition set_pci (pp : Population) (x : list Q) : Population :=
  {| lambda := lambda pp; S_ := S_ pp; R := R pp; E := E pp; Ip := Ip pp;
     Ia := Ia pp; Is := Is pp; H := H pp; C := C pp; seed_row := seed_row pp;
     schedule_row := schedule_row pp; p := p pp; pc := pc pp;
     ni_out := ni_out pp; nd_out := nd_out pp; pci := x; pco := pco pp |}.

Definition set_pco (pp : Population) (x : list Q) : Population :=
  {| lambda := lambda pp; S_ := S_ pp; R := R pp; E := E pp; Ip := Ip pp;
     Ia := Ia pp; Is := Is pp; H := H pp; C := C pp; seed_row := seed_row pp;
     schedule_row := schedule_row pp; p := p pp; pc := pc pp;
     ni_out := ni_out pp; nd_out := nd_out pp; pci := pci pp; pco := x |}.

(** ** The constructor of the reporter *)

(** One [(process, sub-process, report-kind)] column of the constructor:
    the state is the column names, the data and the process being updated. *)
Definition Reporter_add_column (n_cells : nat) (j : nat)
    (st : list string * list (list Q) * ProcessSpec) (k : nat)
  : result (list string * list (list Q) * ProcessSpec) :=
  let '(cols, dat, pr) := st in
  let kind := default "000"%char (String.get k (report pr !!! j)) in
  let cols' :=
    cols ++ [String.append (names pr !!! j) (String "_" (String kind EmptyString))] in
  let dat' := dat ++ [replicate n_cells 0%Q] in
  let c := length dat' - 1 in
  let id := ids pr !!! j in
  if Ascii.eqb kind "p" then
    Ok (cols', dat',
        {| source_id := source_id pr; names := names pr; ids := ids pr;
           report := report pr; prob := prob pr; delays := delays pr;
           p_cols := p_cols pr ++ [c]; p_ids := p_ids pr ++ [id];
           i_cols := i_cols pr; i_ids := i_ids pr;
           o_cols := o_cols pr; o_ids := o_ids pr |})
  else if Ascii.eqb kind "i" then
    Ok (cols', dat',
        {| source_id := source_id pr; names := names pr; ids := ids pr;
           report := report pr; prob := prob pr; delays := delays pr;
           p_cols := p_cols pr; p_ids := p_ids pr;
           i_cols := i_cols pr ++ [c]; i_ids := i_ids pr ++ [id];
           o_cols := o_cols pr; o_ids := o_ids pr |})
  else if Ascii.eqb kind "o" then
    Ok (cols', dat',
        {| source_id := source_id pr; names := names pr; ids := ids pr;
           report := report pr; prob := prob pr; delays := delays pr;
           p_cols := p_cols pr; p_ids := p_ids pr;
           i_cols := i_cols pr; i_ids := i_ids pr;
           o_cols := o_cols pr ++ [c]; o_ids := o_ids pr ++ [id] |})
  else
    Throw (runtime_error
             (String.append "Unrecognized process report type "
                            (String kind "."))).

(** The loop over the sub-processes [j] of one process, and inside it over
    the characters [k] of [pr.report[j]]. *)
Definition Reporter_add_process (n_cells : nat)
    (st : list string * list (list Q) * list ProcessSpec) (pr : ProcessSpec)
  : result (list string * list (list Q) * list ProcessSpec) :=
  let '(cols, dat, done) := st in
  '(cols', dat', pr') ←
    for_each
      (fun st1 j =>
         for_each (Reporter_add_column n_cells j)
                  (seq 0 (String.length (report (st1.2) !!! j))) st1)
      (seq 0 (length (names pr))) (cols, dat, pr);
  Ok (cols', dat', done ++ [pr']).

(** The test [P.time_step != 1. / P.report_every] on doubles: the quotient
    is rounded, and an infinite quotient differs from every time step. *)
Definition time_step_differs (P : Parameters) : bool :=
  match double_div 1 (report_every P) with
  | Some r => negb (Qeq_bool (time_step P) r)
  | None => true
  end.

(** [Reporter::Reporter(P, full_dynamics)].  The constructor appends to the
    column lists of the processes of [P], so it returns the parameters too. *)
Definition Reporter_new (P : Parameters) (full_dynamics : bool)
  : result (Reporter * Parameters) :=
  let nt := wrap32 (uint_of_Q (time1 P - time0 P) + 1) in
  let np := N.of_nat (length (pop P)) in
  let na := N.of_nat (length (size (pop P !!! 0))) in
  if time_step_differs P then
    Throw (logic_error
             "TODO: PopulationReporter requires P.time_step = 1 / P.report_every.")
  else
    let n_cells := N.to_nat (wrap32 (nt * np * na)) in
    let names0 := ["S"; "E"; "Ip"; "Is"; "Ia"; "R"; "cases"; "cases_reported";
                   "subclinical"] in
    let data0 := replicate 9 (replicate n_cells 0%Q) in
    '(cols, dat, prs) ←
      for_each (Reporter_add_process n_cells) (processes P) (names0, data0, []);
    Ok ({| active := full_dynamics; t0 := time0 P; n_times := nt;
           n_populations := np; n_age_groups := na;
           col_names := cols; data := dat |},
        set_processes P prs).

(** ** Population: construction, seeding and contagiousness *)

(** [Population::Population(P, pindex)]. *)
Definition Population_new (P : Parameters) (pindex : nat) : Population :=
  let S0 := size (pop P !!! pindex) in
  let n := length S0 in
  let n_pc := foldl (fun acc pr => acc + length (ids pr)) 0 (processes P) in
  {| lambda := []; S_ := S0; R := replicate n 0%Q;
     E := replicate n Compartment_new; Ip := replicate n Compartment_new;
     Ia := replicate n Compartment_new; Is := replicate n Compartment_new;
     H := replicate n Compartment_new; C := replicate n Compartment_new;
     seed_row := 0; schedule_row := 0; p := pindex;
     pc := replicate n_pc (replicate n Compartment_new);
     ni_out := []; nd_out := [];
     pci := replicate n_pc 0%Q; pco := replicate n_pc 0%Q |}.

#[global] Instance Population_inhabited : Inhabited Population :=
  populate {| lambda := []; S_ := []; R := []; E := []; Ip := []; Ia := [];
              Is := []; H := []; C := []; seed_row := 0; schedule_row := 0;
              p := 0; pc := []; ni_out := []; nd_out := []; pci := []; pco := [] |}.

(** The closure [add] of [Contagiousness]: the seeding guard, then the move
    of [n] individuals of [age] from S to E. *)
Definition add (P : Parameters) (st : Population * Randomizer) (age : nat) (n : Q)
  : result (Population * Randomizer) :=
  let '(pp, Rand) := st in
  if Qlt_le_dec (S_ pp !!! age) n then
    Throw (logic_error "Not enough unexposed individuals to seed new infections.")
  else
    let S1 := <[age := (S_ pp !!! age - n)%Q]> (S_ pp) in
    let '(e, Rand1) :=
      Compartment_Add P Rand n (dE (pop P !!! p pp)) (E pp !!! age) in
    Ok (set_E (set_S_ pp S1) (<[age := e]> (E pp)), Rand1).

(** The body of the seeding loop, without the advance of [seed_row]. *)
Definition seed_event (P : Parameters) (st : Population * Randomizer)
  : result (Population * Randomizer) :=
  let '(pp, Rand) := st in
  let d := dist_seed_ages (pop P !!! p pp) in
  if deterministic P then
    for_each (fun st1 a => add P st1 a (weights d !!! a)) (seq 0 (length (S_ pp))) st
  else
    let '(drawn, Rand1) := Rand_Multinomial Rand 1 (weights d) (storage d) in
    match find (fun a => N.eqb (drawn !!! a) 1) (seq 0 (length (S_ pp))) with
    | Some a => add P (pp, Rand1) a 1
    | None => Ok (pp, Rand1)
    end.

(** The seeding loop, over the seed times from [seed_row] on: it runs while
    the next seed time is at most [t]. *)
Fixpoint seed_loop (P : Parameters) (t : Q) (next : list Q)
    (st : Population * Randomizer) : result (Population * Randomizer) :=
  match next with
  | [] => Ok st
  | ts :: rest =>
      if Qle_bool ts t then
        '(pp, Rand) ← seed_event P st;
        seed_loop P t rest (set_seed_row pp (seed_row pp + 1), Rand)
      else Ok st
  end.

(** The loop of scheduled changes, over the entries from [schedule_row] on.
    The entries are read when the loop starts: [Set] assigns a model variable
    and is taken not to edit the schedule it is called from. *)
Fixpoint schedule_loop (pindex : nat) (t : Q) (next : list ScheduleEntry)
    (st : Parameters * nat) : Parameters * nat :=
  match next with
  | [] => st
  | e :: rest =>
      if Qle_bool (sched_t e) t then
        schedule_loop pindex t rest
          (Pop_Set st.1 pindex (variable e) (value e), st.2 + 1)
      else st
  end.

(** The value assigned to [contag[a]]. *)
Definition contag_age (P : Parameters) (pp : Population) (a : nat) : Q :=
  let q := pop P !!! p pp in
  if Qeq_bool (size q !!! a) 0 then 0%Q
  else ((fIp q !!! a * Compartment_Size (Ip pp !!! a)
         + fIa q !!! a * Compartment_Size (Ia pp !!! a)
         + fIs q !!! a * Compartment_Size (Is pp !!! a)) / (size q !!! a))%Q.

(** [Population::Contagiousness(P, Rand, t, contag)]. *)
Definition Contagiousness (P : Parameters) (Rand : Randomizer) (t : Q)
    (contag : list Q) (pp : Population)
  : result (Population * Randomizer * Parameters * list Q) :=
  '(pp1, Rand1) ←
    seed_loop P t (drop (seed_row pp) (seed_times (pop P !!! p pp))) (pp, Rand);
  let '(P1, row) :=
    schedule_loop (p pp) t (drop (schedule_row pp1) (schedule (pop P !!! p pp)))
                  (P, schedule_row pp1) in
  let P2 := Pop_Recalculate P1 (p pp) in
  let pp2 := set_schedule_row pp1 row in
  let contag1 :=
    foldl (fun cg a => <[a := contag_age P2 pp2 a]> cg) contag
          (seq 0 (length contag)) in
  Ok (pp2, Rand1, P2, contag1).

(** ** Population: one time step *)

(** The force of infection: [lambda] is assigned [infec.size()] zeros, then
    the double loop accumulates into [lambda[a]]. *)
Definition force_of_infection (P : Parameters) (pindex : nat) (infec : list Q)
  : list Q :=
  let q := pop P !!! pindex in
  let lam0 := replicate (length infec) 0%Q in
  foldl (fun lam a =>
           foldl (fun lam1 b =>
                    alter (fun x => (x + u q !!! a * cm q a b * (infec !!! b))%Q) a lam1)
                 lam (seq 0 (length lam0)))
        lam0 (seq 0 (length lam0)).

(** The helper closure [binomial]. *)
Definition binomial (P : Parameters) (Rand : Randomizer) (n pr : Q) : Q * Randomizer :=
  if deterministic P then ((n * pr)%Q, Rand)
  else let '(k, Rand1) := Rand_Binomial Rand n pr in (Q_of_uint k, Rand1).

(** The helper closure [multinomial]: the new [nd_out] and [ni_out]. *)
Definition multinomial (P : Parameters) (Rand : Randomizer) (n : Q) (pr : list Q)
    (nd : list Q) (ni : list N) : list Q * list N * Randomizer :=
  let nd0 := resize (length pr) 0%Q nd in
  if deterministic P then
    (foldl (fun out i => <[i := (n * (pr !!! i))%Q]> out) nd0 (seq 0 (length pr)),
     ni, Rand)
  else
    let ni0 := resize (length pr) 0%N ni in
    let '(ni1, Rand1) := Rand_Multinomial Rand n pr ni0 in
    (foldl (fun out i => <[i := Q_of_uint (ni1 !!! i)]> out) nd0 (seq 0 (length pr)),
     ni1, Rand1).

(** 0. Report prevalences (the body of [if (t == (int)t)]). *)
Definition report_prevalence (P : Parameters) (t : Q) (a : nat) (pp : Population)
    (rep : Reporter) : Reporter :=
  let rep0 := rep_set rep t (p pp) a 0 (S_ pp !!! a) in
  let rep1 := rep_set rep0 t (p pp) a 1 (Compartment_Size (E pp !!! a)) in
  let rep2 := rep_set rep1 t (p pp) a 2 (Compartment_Size (Ip pp !!! a)) in
  let rep3 := rep_set rep2 t (p pp) a 3 (Compartment_Size (Is pp !!! a)) in
  let rep4 := rep_set rep3 t (p pp) a 4 (Compartment_Size (Ia pp !!! a)) in
  let rep5 := rep_set rep4 t (p pp) a 5 (R pp !!! a) in
  foldl (fun r process =>
           foldl (fun r1 i =>
                    rep_set r1 t (p pp) a (p_cols process !!! i)
                      (Compartment_Size ((pc pp !!! (p_ids process !!! i)) !!! a)))
                 r (seq 0 (length (p_cols process))))
        rep5 (processes P).

(** The flows of the built-in chain in one age group. *)
Record Flows : Type := {
  nS_E : Q;
  nE_Ipa : Q;
  nE_Ip : Q;
  nE_Ia : Q;
  nIp_Is : Q;
  n_to_report : Q;
  n_reported : Q;
  nIs_H : Q;
  nH_R : Q;
  nIa_R : Q
}.

(** 1. Built-in states. *)
Definition builtin_states (P : Parameters) (a : nat) (st : Population * Randomizer)
  : Flows * Population * Randomizer :=
  let '(pp, Rand) := st in
  let q := pop P !!! p pp in
  (* S -> E *)
  let '(nS_E, r1) :=
    binomial P Rand (S_ pp !!! a) (1 - exp (- (lambda pp !!! a) * time_step P))%Q in
  let S1 := <[a := (S_ pp !!! a - nS_E)%Q]> (S_ pp) in
  let '(e1, r2) := Compartment_Add P r1 nS_E (dE q) (E pp !!! a) in
  (* E -> Ip/Ia *)
  let '(nE_Ipa, e2) := Compartment_Mature e1 in
  let '(nE_Ip, r3) := binomial P r2 nE_Ipa (y q !!! a) in
  let nE_Ia := (nE_Ipa - nE_Ip)%Q in
  let '(ip1, r4) := Compartment_Add P r3 nE_Ip (dIp q) (Ip pp !!! a) in
  let '(ia1, r5) := Compartment_Add P r4 nE_Ia (dIa q) (Ia pp !!! a) in
  (* Ip -> Is *)
  let '(nIp_Is, ip2) := Compartment_Mature ip1 in
  let '(is1, r6) := Compartment_Add P r5 nIp_Is (dIs q) (Is pp !!! a) in
  (* Reported cases *)
  let '(n_to_report, r7) := binomial P r6 nIp_Is (rho q !!! a) in
  let '(c1, r8) := Compartment_Add P r7 n_to_report (dC q) (C pp !!! a) in
  let '(n_reported, c2) := Compartment_Mature c1 in
  (* Is -> H *)
  let '(nIs_H, is2) := Compartment_Mature is1 in
  let '(h1, r9) := Compartment_Add P r8 nIs_H (dH q) (H pp !!! a) in
  (* H -> R *)
  let '(nH_R, h2) := Compartment_Mature h1 in
  let R1 := <[a := (R pp !!! a + nH_R)%Q]> (R pp) in
  (* Ia -> R *)
  let '(nIa_R, ia2) := Compartment_Mature ia1 in
  let R2 := <[a := (R1 !!! a + nIa_R)%Q]> R1 in
  ({| nS_E := nS_E; nE_Ipa := nE_Ipa; nE_Ip := nE_Ip; nE_Ia := nE_Ia;
      nIp_Is := nIp_Is; n_to_report := n_to_report; n_reported := n_reported;
      nIs_H := nIs_H; nH_R := nH_R; nIa_R := nIa_R |},
   set_R
     (set_C
        (set_H
           (set_Is
              (set_Ia
                 (set_Ip (set_E (set_S_ pp S1) (<[a := e2]> (E pp)))
                         (<[a := ip2]> (Ip pp)))
                 (<[a := ia2]> (Ia pp)))
              (<[a := is2]> (Is pp)))
           (<[a := h2]> (H pp)))
        (<[a := c2]> (C pp)))
     R2,
   r9).

(** 2. Mature process compartments: [pco[id] = pc[id][a].Mature()]. *)
Definition mature_compartment (a : nat) (pp : Population) (id : nat) : Population :=
  let '(m, c1) := Compartment_Mature ((pc pp !!! id) !!! a) in
  set_pco (set_pc pp (alter (fun row => <[a := c1]> row) id (pc pp)))
          (<[id := m]> (pco pp)).

Definition mature_processes (P : Parameters) (a : nat) (pp : Population) : Population :=
  foldl (fun pp1 process => foldl (mature_compartment a) pp1 (ids process))
        pp (processes P).

(** The [switch] on [process.source_id]. *)
Definition n_entering (fl : Flows) (pco_ : list Q) (source : nat) : Q :=
  if Nat.eqb source srcS then nS_E fl
  else if Nat.eqb source srcE then nE_Ipa fl
  else if Nat.eqb source srcEp then nE_Ip fl
  else if Nat.eqb source srcEa then nE_Ia fl
  else if Nat.eqb source srcIp then nIp_Is fl
  else if Nat.eqb source srcIs then nIs_H fl
  else if Nat.eqb source srcH then nH_R fl
  else if Nat.eqb source srcIa then nIa_R fl
  else if Nat.eqb source srcI then (nH_R fl + nIa_R fl)%Q
  else pco_ !!! source.

(** Seed one compartment of a process: the state carries the counter [c]. *)
Definition seed_compartment (P : Parameters) (a : nat) (process : ProcessSpec)
    (st : Population * Randomizer * nat) (id : nat) : Population * Randomizer * nat :=
  let '(pp, Rand, c) := st in
  let '(c1, Rand1) :=
    Compartment_Add P Rand (nd_out pp !!! c) (delays process !!! c)
                    ((pc pp !!! id) !!! a) in
  (set_pci (set_pc pp (alter (fun row => <[a := c1]> row) id (pc pp)))
           (<[id := nd_out pp !!! c]> (pci pp)),
   Rand1, c + 1).

(** Seed one process. *)
Definition seed_process (P : Parameters) (a : nat) (fl : Flows)
    (st : Population * Randomizer) (process : ProcessSpec) : Population * Randomizer :=
  let '(pp, Rand) := st in
  let n := n_entering fl (pco pp) (source_id process) in
  let '(nd, ni, Rand1) :=
    multinomial P Rand n (prob process !!! a) (nd_out pp) (ni_out pp) in
  let pp1 := set_ni_out (set_nd_out pp nd) ni in
  (foldl (seed_compartment P a process) (pp1, Rand1, 0) (ids process)).1.

(** 3. Report incidence / outcidence. *)
Definition report_incidence (P : Parameters) (t : Q) (a : nat) (fl : Flows)
    (pp : Population) (rep : Reporter) : Reporter :=
  let rep6 := rep_add rep t (p pp) a 6 (nIp_Is fl) in
  let rep7 := rep_add rep6 t (p pp) a 7 (n_reported fl) in
  let rep8 := rep_add rep7 t (p pp) a 8 (nE_Ia fl) in
  foldl (fun r process =>
           let ri :=
             foldl (fun r1 i =>
                      rep_add r1 t (p pp) a (i_cols process !!! i)
                              (pci pp !!! (i_ids process !!! i)))
                   r (seq 0 (length (i_cols process))) in
           foldl (fun r1 i =>
                    rep_add r1 t (p pp) a (o_cols process !!! i)
                            (pco pp !!! (o_ids process !!! i)))
                 ri (seq 0 (length (o_cols process))))
        rep8 (processes P).

(** The body of the loop over the age groups. *)
Definition tick_age (P : Parameters) (t : Q)
    (st : Population * Randomizer * Reporter) (a : nat)
  : Population * Randomizer * Reporter :=
  let '(pp, Rand, rep) := st in
  let rep1 := if is_integer t then report_prevalence P t a pp rep else rep in
  let '(fl, pp1, Rand1) := builtin_states P a (pp, Rand) in
  let pp2 := mature_processes P a pp1 in
  let '(pp3, Rand3) := foldl (seed_process P a fl) (pp2, Rand1) (processes P) in
  (pp3, Rand3, report_incidence P t a fl pp3 rep1).

(** [Population::Tick(P, Rand, t, infec, rep)]. *)
Definition Population_Tick (P : Parameters) (Rand : Randomizer) (t : Q)
    (infec : list Q) (rep : Reporter) (pp : Population)
  : bool * Population * Randomizer * Reporter :=
  let pp0 := set_lambda pp (force_of_infection P (p pp) infec) in
  let '(pp1, Rand1, rep1) :=
    foldl (tick_age P t) (pp0, Rand, rep) (seq 0 (length (lambda pp0))) in
  (observer (pop P !!! p pp) t, pp1, Rand1, rep1).

(** ** Metapopulation *)

Record Metapopulation : Type := {
  contag : list (list Q);
  infec : list (list Q);
  pops : list Population
}.

(** [Metapopulation::Metapopulation(P)]. *)
Definition Metapopulation_new (P : Parameters) : Metapopulation :=
  {| contag := []; infec := [];
     pops := foldl (fun ps i => ps ++ [Population_new P i]) [] (seq 0 (length (pop P))) |}.

(** The loop that calls [pops[j].Contagiousness(P, Rand, t, contag[j])]. *)
Definition contagiousness_step (t : Q)
    (st : list Population * Randomizer * Parameters * list (list Q)) (j : nat)
  : result (list Population * Randomizer * Parameters * list (list Q)) :=
  let '(ps, Rand, P, cg) := st in
  '(pj, Rand1, P1, cj) ← Contagiousness P Rand t (cg !!! j) (ps !!! j);
  Ok (<[j := pj]> ps, Rand1, P1, <[j := cj]> cg).

(** The term that the mixing loop adds to [infec[i][a]] for the source [j]. *)
Definition mixing_term (P : Parameters) (cg : list (list Q)) (i j a : nat) : Q :=
  (travel P j i * ((cg !!! j) !!! a)
   * (if negb (Nat.eqb j i) then tau (pop P !!! j) !!! a else 1))%Q.

(** The triple loop over [i], [j] and [a] that fills [infec]. *)
Definition mixing (P : Parameters) (cg : list (list Q)) (n_pops n_ages : nat)
  : list (list Q) :=
  foldl (fun inf i =>
           foldl (fun inf1 j =>
                    foldl (fun inf2 a =>
                             alter (alter (fun x => (x + mixing_term P cg i j a)%Q) a)
                                   i inf2)
                          inf1 (seq 0 n_ages))
                 inf (seq 0 n_pops))
        (replicate n_pops (replicate n_ages 0%Q)) (seq 0 n_pops).

(** The body of the loop [keep_going = keep_going && pops[i].Tick(...)]:
    the right operand of [&&] is evaluated only when the left one is true. *)
Definition update_population (P : Parameters) (t : Q) (inf : list (list Q))
    (st : bool * list Population * Randomizer * Reporter) (i : nat)
  : bool * list Population * Randomizer * Reporter :=
  let '(keep_going, ps, Rand, rep) := st in
  if keep_going then
    let '(b, pi, Rand1, rep1) := Population_Tick P Rand t (inf !!! i) rep (ps !!! i) in
    (b, <[i := pi]> ps, Rand1, rep1)
  else (false, ps, Rand, rep).

(** [Metapopulation::Tick(P, Rand, t, ts, rep)]. *)
Definition Metapopulation_Tick (P : Parameters) (Rand : Randomizer) (t : Q) (ts : nat)
    (rep : Reporter) (mp : Metapopulation)
  : result (bool * Metapopulation * Randomizer * Reporter * Parameters) :=
  let n_ages := length (size (pop P !!! 0)) in
  let n_pops := length (pops mp) in
  let contag0 := replicate n_pops (replicate n_ages 0%Q) in
  '(ps1, Rand1, P1, contag1) ←
    for_each (contagiousness_step t) (seq 0 n_pops) (pops mp, Rand, P, contag0);
  let infec1 := mixing P1 contag1 n_pops n_ages in
  let '(keep_going, ps2, Rand2, rep2) :=
    foldl (update_population P1 t infec1) (true, ps1, Rand1, rep) (seq 0 n_pops) in
  Ok (keep_going, {| contag := contag1; infec := infec1; pops := ps2 |},
      Rand2, rep2, P1).

(** ** The simulation driver *)

(** What the time loop carries from one step to the next. *)
Record Run : Type := {
  run_mp : Metapopulation;
  run_rand : Randomizer;
  run_rep : Reporter;
  run_P : Parameters;
  ended_early : bool
}.

(** [unsigned int time_steps = (1 + P.time1 - P.time0) / P.time_step]. *)
Definition time_steps (P : Parameters) : N :=
  uint_of_Q ((1 + time1 P - time0 P) / time_step P).

(** The time of step [ts]: [P.time0 + ts * P.time_step], taken exactly. *)
Definition step_time (P : Parameters) (ts : nat) : Q :=
  (time0 P + inject_Z (Z.of_nat ts) * time_step P)%Q.

(** [P.time0 + ts * P.time_step] as the program computes it: the product and
    the sum are rounded to double. *)
Definition double_step_time (P : Parameters) (ts : nat) : Q :=
  round_double (time0 P + round_double (inject_Z (Z.of_nat ts) * time_step P)).

(** [(1 + P.time1 - P.time0) / P.time_step] as the program computes it: the
    sum, the difference and the quotient are rounded to double.  The
    constructor of the reporter has refused a time step of zero before this
    line is reached. *)
Definition double_time_steps (P : Parameters) : N :=
  uint_of_Q (round_double (round_double (round_double (1 + time1 P) - time0 P)
                           / time_step P)).

(** One step of the driver. *)
Definition run_step (ts : nat) (st : Run) : result (bool * Run) :=
  '(b, mp1, Rand1, rep1, P1) ←
    Metapopulation_Tick (run_P st) (run_rand st) (step_time (run_P st) ts) ts
                        (run_rep st) (run_mp st);
  Ok (b, {| run_mp := mp1; run_rand := Rand1; run_rep := rep1; run_P := P1;
            ended_early := negb b |}).

(** The loop [for (ts = ...; ts < time_steps; ++ts)] with [n] steps left;
    a false return of the tick leaves the loop ([break]). *)
Fixpoint run_loop (n : nat) (ts : nat) (st : Run) : result Run :=
  match n with
  | 0 => Ok st
  | S n' =>
      '(b, st1) ← run_step ts st;
      if (b : bool) then run_loop n' (ts + 1) st1 else Ok st1
  end.

(** The state of the driver when the loop starts. *)
Definition run_init (P : Parameters) (Rand : Randomizer) : result Run :=
  let mp := Metapopulation_new P in
  '(rep, P1) ← Reporter_new P true;
  Ok {| run_mp := mp; run_rand := Rand; run_rep := rep; run_P := P1;
        ended_early := false |}.

(** [RunSimulation(P, Rand)], with the final state of the loop; the source
    returns its reporter, [run_rep]. *)
Definition RunSimulation_state (P : Parameters) (Rand : Randomizer) : result Run :=
  st ← run_init P Rand;
  run_loop (N.to_nat (time_steps (run_P st))) 0 st.

Definition RunSimulation (P : Parameters) (Rand : Randomizer) : result Reporter :=
  st ← RunSimulation_state P Rand; Ok (run_rep st).

End Model.

(** The proofs unfold the operations of the model by name. *)
#[global] Arguments add : simpl never.
#[global] Arguments seed_event : simpl never.
#[global] Arguments contag_age : simpl never.
#[global] Arguments Contagiousness : simpl never.
#[global] Arguments force_of_infection : simpl never.
#[global] Arguments binomial : simpl never.
#[global] Arguments multinomial : simpl never.
#[global] Arguments report_prevalence : simpl never.
#[global] Arguments builtin_states : simpl never.
#[global] Arguments mature_compartment : simpl never.
#[global] Arguments mature_processes : simpl never.
#[global] Arguments n_entering : simpl never.
#[global] Arguments seed_compartment : simpl never.
#[global] Arguments seed_process : simpl never.
#[global] Arguments report_incidence : simpl never.
#[global] Arguments tick_age : simpl never.
#[global] Arguments Population_Tick : simpl never.
#[global] Arguments contagiousness_step : simpl never.
#[global] Arguments mixing_term : simpl never.
#[global] Arguments mixing : simpl never.
#[global] Arguments update_population : simpl never.
#[global] Arguments Metapopulation_Tick : simpl never.
#[global] Arguments run_step : simpl never.
#[global] Arguments run_init : simpl never.
#[global] Arguments rep_set : simpl never.
#[global] Arguments rep_add : simpl never.
#[global] Arguments rep_row : simpl never.
#[global] Arguments Reporter_new : simpl never.
#[global] Arguments Reporter_add_process : simpl never.
#[global] Arguments Reporter_add_column : simpl never.
#[global] Arguments Population_new : simpl never.

(** ** A reference instance of the collaborators

    Delay-line compartments, a generator that counts its draws and returns
    rounded expectations, and the exponential series cut at degree 2.  The
    theorems below hold for every instance; this one runs the engine on
    concrete configurations. *)
Module Reference.

(** A compartment as a delay line: [contents[d]] individuals leave after [d]
    more steps, [total] is the occupancy. *)
Record DelayLine : Type := {
  contents : list Q;
  total : Q
}.

Definition DelayLine_new : DelayLine := {| contents := []; total := 0%Q |}.

(** The first category of positive weight receives every individual. *)
Definition draw_multinomial (r : N) (n : Q) (pr : list Q) (out : list N)
  : list N * N :=
  let k := Z.to_N (Qfloor n) in
  let zeros := replicate (length pr) 0%N in
  (match find (fun i => negb (Qle_bool (pr !!! i) 0)) (seq 0 (length pr)) with
   | Some i => <[i := k]> zeros
   | None => zeros
   end, (r + 1)%N).

Definition draw_binomial (r : N) (n pr : Q) : N * N :=
  (Z.to_N (Qfloor (n * pr)), (r + 1)%N).

Definition DelayLine_Add (P : Parameters) (r : N) (n : Q) (mat : Discrete)
    (c : DelayLine) : DelayLine * N :=
  let cont0 := contents c ++ replicate (length (weights mat) - length (contents c)) 0%Q in
  if deterministic P then
    ({| contents :=
          foldl (fun ct j => alter (fun x => (x + weights mat !!! j * n)%Q) j ct)
                cont0 (seq 0 (length (weights mat)));
        total := (total c + n)%Q |}, r)
  else
    let '(drawn, r1) := draw_multinomial r n (weights mat) (storage mat) in
    ({| contents :=
          foldl (fun ct j => alter (fun x => (x + Q_of_uint (drawn !!! j))%Q) j ct)
                cont0 (seq 0 (length (weights mat)));
        total := (total c + n)%Q |}, r1).

Definition DelayLine_Mature (c : DelayLine) : Q * DelayLine :=
  let m := contents c !!! 0 in
  (m, {| contents := tail (contents c); total := (total c - m)%Q |}).

(** [1 + x + x^2/2], the exponential series cut at degree 2. *)
Definition exp_series (x : Q) : Q := (1 + x * (1 + x / 2))%Q.

(** An observer that asks to stop for a population without seed events. *)
Definition stop_unseeded (pp : PopulationParameters) (t : Q) : bool :=
  match seed_times pp with
  | [] => false
  | _ :: _ => true
  end.

#[local] Instance ext (obs : PopulationParameters -> Q -> bool) : Externals := {|
  Randomizer := N;
  Rand_Binomial := draw_binomial;
  Rand_Multinomial := draw_multinomial;
  Compartment := DelayLine;
  Compartment_new := DelayLine_new;
  Compartment_Add := DelayLine_Add;
  Compartment_Mature := DelayLine_Mature;
  Compartment_Size := total;
  exp := exp_series;
  srcS := 1000; srcE := 1001; srcEp := 1002; srcEa := 1003; srcIp := 1004;
  srcIs := 1005; srcH := 1006; srcIa := 1007; srcI := 1008;
  Pop_Set := fun P _ _ _ => P;
  Pop_Recalculate := fun P _ => P;
  observer := obs
|}.

(** An observer that never asks to stop. *)
Definition always (pp : PopulationParameters) (t : Q) : bool := true.

(** The parameters of a population of one age group with [n] susceptible
    individuals, no transmission ([cm] is zero), the given seed times and the
    age weight [w] of seeding; every delay is one step. *)
Definition group (n : Q) (seeds : list Q) (w : Q) : PopulationParameters :=
  let d1 := {| weights := [0; 1]%Q; storage := [] |} in
  {| size := [n]; dE := d1; dIp := d1; dIa := d1; dIs := d1; dH := d1; dC := d1;
     seed_times := seeds;
     dist_seed_ages := {| weights := [w]; storage := [] |};
     schedule := [];
     u := [1%Q]; cm := fun _ _ => 0%Q; y := [1 # 2]; rho := [1%Q];
     fIp := [1%Q]; fIa := [1 # 2]; fIs := [1%Q]; tau := [1%Q] |}.

Definition one_group (n : Q) (seeds : list Q) : PopulationParameters :=
  group n seeds 1.

(** Days 0 to 3 in steps of one day, populations that do not travel. *)
Definition config (det : bool) (pops_ : list PopulationParameters)
    (prs : list ProcessSpec) : Parameters :=
  {| time0 := 0; time1 := 3; time_step := 1; report_every := 1;
     deterministic := det; pop := pops_; processes := prs;
     travel := fun j i => if Nat.eqb j i then 1%Q else 0%Q |}.

(** One population, ten seed events at [t = 0]. *)
Definition ten_seeds (det : bool) : Parameters :=
  config det [one_group 100 (replicate 10 0%Q)] [].

(** One population, a single seed event at [t = 0], age weight 10. *)
Definition single_seed : Parameters := config false [group 100 [0%Q] 10] [].

(** Two populations; the first has no seed event, the second has one at
    [t = 5]. *)
Definition two_pops : Parameters :=
  config false [one_group 100 []; one_group 50 [5%Q]] [].

(** A process that takes the onsets of symptoms ([srcIp]) into one
    compartment, reported as incidence and outcidence. *)
Definition onset_process : ProcessSpec :=
  {| source_id := 1004; names := ["onset"]; ids := [0]; report := ["io"];
     prob := [[1%Q]]; delays := [{| weights := [0; 1]%Q; storage := [] |}];
     p_cols := []; p_ids := []; i_cols := []; i_ids := [];
     o_cols := []; o_ids := [] |}.

Definition with_process (det : bool) : Parameters :=
  config det [one_group 100 [0%Q]] [onset_process].

(** A reporter of the nine built-in columns with [n] rows. *)
Definition blank_reporter (np na : N) (n : nat) : Reporter :=
  {| active := true; t0 := 0; n_times := 4; n_populations := np;
     n_age_groups := na; col_names := [];
     data := replicate 9 (replicate n 0%Q) |}.

(** The collaborators with the observer that never stops, and with the one
    that stops for an unseeded population. *)
Definition always_ext : Externals := ext always.
Definition stopping_ext : Externals := ext stop_unseeded.

End Reference.

(** ** Notions used to state the properties *)

(** [sum_upto n f] is the sum of [f 0], ..., [f (n-1)], added in this order
    to zero. *)
Definition sum_upto (n : nat) (f : nat -> Q) : Q :=
  foldl (fun acc j => (acc + f j)%Q) 0%Q (seq 0 n).

(** The entry [m[i][a]] of a vector of vectors. *)
Definition get2 (m : list (list Q)) (i a : nat) : Q := (m !!! i) !!! a.

(** A vector of [n] vectors of [k] entries each. *)
Definition rect (n k : nat) (m : list (list Q)) : Prop :=
  length m = n /\ forall i, i < n -> length (m !!! i) = k.

(** The members of a population that the process steps of a tick never
    assign. *)
Definition core `{Externals} (pp : Population) :=
  (lambda pp, S_ pp, R pp, E pp, Ip pp, Ia pp, Is pp, H pp, C pp,
   seed_row pp, schedule_row pp, p pp).

(** The members that the built-in chain never assigns. *)
Definition aux `{Externals} (pp : Population) :=
  (lambda pp, p pp, seed_row pp, schedule_row pp,
   pc pp, pci pp, pco pp, nd_out pp, ni_out pp).

(** The individuals of age group [a] in the core chain:
    [S + E.Size + Ip.Size + Ia.Size + Is.Size + H.Size + R]. *)
Definition core_sum `{Externals} (pp : Population) (a : nat) : Q :=
  (S_ pp !!! a + Compartment_Size (E pp !!! a) + Compartment_Size (Ip pp !!! a)
   + Compartment_Size (Ia pp !!! a) + Compartment_Size (Is pp !!! a)
   + Compartment_Size (H pp !!! a) + R pp !!! a)%Q.

(** The vectors of the core chain have one entry per age group. *)
Definition aligned `{Externals} (pp : Population) : Prop :=
  length (E pp) = length (S_ pp) /\ length (Ip pp) = length (S_ pp) /\
  length (Ia pp) = length (S_ pp) /\ length (Is pp) = length (S_ pp) /\
  length (H pp) = length (S_ pp) /\ length (R pp) = length (S_ pp).

(** Every age group of [pp] holds as many individuals as [sz] says. *)
Definition conserved `{Externals} (pp : Population) (sz : list Q) : Prop :=
  aligned pp /\ forall a, (core_sum pp a == sz !!! a)%Q.



(** The update of one population as the specification words it: the
    population is ticked whatever the earlier signals were, and the signal is
    the conjunction of the results. *)
Definition update_population_every `{Externals} (P : Parameters) (t : Q)
    (inf : list (list Q)) (st : bool * list Population * Randomizer * Reporter)
    (i : nat) : bool * list Population * Randomizer * Reporter :=
  let '(keep_going, ps, Rand, rep) := st in
  let '(b, pi, Rand1, rep1) := Population_Tick P Rand t (inf !!! i) rep (ps !!! i) in
  (keep_going && b, <[i := pi]> ps, Rand1, rep1).

(** A seed event of population [i] puts one individual into the first age
    group: in deterministic mode the weight of that age group is 1, in
    stochastic mode the draw of one individual counts it there. *)
Definition seeds_one_into_first `{Externals} (P : Parameters) (i : nat) : Prop :=
  let d := dist_seed_ages (pop P !!! i) in
  if deterministic P then weights d !!! 0 = 1%Q
  else forall r, (Rand_Multinomial r 1 (weights d) (storage d)).1 !!! 0 = 1%N.

(** No seed time of [next] is due at [t] yet. *)
Definition none_due (t : Q) (next : list Q) : Prop :=
  match next with
  | [] => True
  | t1 :: _ => Qle_bool t1 t = false
  end.

(** *** Writes to the reporter *)

(** One use of [operator()]: [rep(t, p, a, c) = v] assigns the cell of
    column [c] and row [row], [rep(t, p, a, c) += v] accumulates into it. *)
Inductive write : Type :=
| Assign (c row : nat) (v : Q)
| Accumulate (c row : nat) (v : Q).

Definition apply_write (d : list (list Q)) (w : write) : list (list Q) :=
  match w with
  | Assign c row v => alter (fun col => <[row := v]> col) c d
  | Accumulate c row v => alter (fun col => alter (fun x => (x + v)%Q) row col) c d
  end.

(** The prevalence channels: S, E, Ip, Is, Ia, R and the columns that the
    processes report with kind [p]. *)
Definition prevalence_channel (P : Parameters) (c : nat) : Prop :=
  c < 6 \/ exists pr, pr ∈ processes P /\ c ∈ p_cols pr.

(** The incidence and outcidence channels: cases, cases_reported,
    subclinical and the columns that the processes report with kind [i] or
    [o]. *)
Definition incidence_channel (P : Parameters) (c : nat) : Prop :=
  c = 6 \/ c = 7 \/ c = 8 \/
  exists pr, pr ∈ processes P /\ (c ∈ i_cols pr \/ c ∈ o_cols pr).

(** The writes of [report_prevalence] to the row [row], in order. *)
Definition prevalence_writes `{Externals} (P : Parameters) (row a : nat)
    (pp : Population) : list write :=
  [Assign 0 row (S_ pp !!! a);
   Assign 1 row (Compartment_Size (E pp !!! a));
   Assign 2 row (Compartment_Size (Ip pp !!! a));
   Assign 3 row (Compartment_Size (Is pp !!! a));
   Assign 4 row (Compartment_Size (Ia pp !!! a));
   Assign 5 row (R pp !!! a)]
  ++ flat_map (fun process =>
                 map (fun i => Assign (p_cols process !!! i) row
                                 (Compartment_Size
                                    ((pc pp !!! (p_ids process !!! i)) !!! a)))
                     (seq 0 (length (p_cols process))))
              (processes P).

(** The writes of [report_incidence] to the row [row], in order. *)
Definition incidence_writes `{Externals} (P : Parameters) (row : nat) (fl : Flows)
    (pp : Population) : list write :=
  [Accumulate 6 row (nIp_Is fl);
   Accumulate 7 row (n_reported fl);
   Accumulate 8 row (nE_Ia fl)]
  ++ flat_map (fun process =>
                 map (fun i => Accumulate (i_cols process !!! i) row
                                 (pci pp !!! (i_ids process !!! i)))
                     (seq 0 (length (i_cols process)))
                 ++ map (fun i => Accumulate (o_cols process !!! i) row
                                    (pco pp !!! (o_ids process !!! i)))
                        (seq 0 (length (o_cols process))))
              (processes P).

(** The writes of the iteration of age [a], from the state [st] in which it
    starts; the rows are those of the reporter [rep]. *)
Definition age_writes `{Externals} (P : Parameters) (t : Q) (rep : Reporter)
    (st : Population * Randomizer) (a : nat) : list write :=
  let row := rep_row rep t (p st.1) a in
  let after := (tick_age P t (st, rep) a).1 in
  (if is_integer t then prevalence_writes P row a st.1 else [])
  ++ incidence_writes P row (builtin_states P a st).1.1 after.1.

(** The writes of the iterations of the ages [js], in order. *)
Fixpoint tick_writes `{Externals} (P : Parameters) (t : Q) (rep : Reporter)
    (st : Population * Randomizer) (js : list nat) : list write :=
  match js with
  | [] => []
  | a :: rest =>
      age_writes P t rep st a ++ tick_writes P t rep (tick_age P t (st, rep) a).1 rest
  end.

(** The writes of [Population::Tick], in order; the rows are those of the
    reporter [rep]. *)
Definition population_writes `{Externals} (P : Parameters) (Rand : Randomizer) (t : Q)
    (inf : list Q) (rep : Reporter) (pp : Population) : list write :=
  let lam := force_of_infection P (p pp) inf in
  tick_writes P t rep (set_lambda pp lam, Rand) (seq 0 (length lam)).

(** What the claim about the reporting channels says of one write at time
    [t] by population [i], whose tick runs over [n] age groups: an assignment
    happens at a whole time only and goes to a prevalence channel, an
    accumulation goes to an incidence or outcidence channel, and both go to
    the row of [(t, i, a)] for one of the age groups [a] of the tick. *)
Definition aligned_write (P : Parameters) (t : Q) (rep : Reporter) (i n : nat)
    (w : write) : Prop :=
  match w with
  | Assign c row v =>
      is_integer t = true /\ prevalence_channel P c /\
      exists a, a < n /\ row = rep_row rep t i a
  | Accumulate c row v =>
      incidence_channel P c /\ exists a, a < n /\ row = rep_row rep t i a
  end.

(** The sum of the values that the writes [ws] accumulate into the cell of
    column [c] and row [row]. *)
Fixpoint accumulated (ws : list write) (c row : nat) : Q :=
  match ws with
  | [] => 0%Q
  | Accumulate c' row' v :: rest =>
      if Nat.eqb c' c && Nat.eqb row' row then (v + accumulated rest c row)%Q
      else accumulated rest c row
  | Assign _ _ _ :: rest => accumulated rest c row
  end.

(** The columns of the channels are distinct: the prevalence columns (S to R
    and the [p_cols] of the processes) and the incidence and outcidence
    columns (cases to subclinical and the [i_cols] and [o_cols] of the
    processes), as the constructor of the reporter hands them out. *)
Definition distinct_columns (P : Parameters) : Prop :=
  NoDup ((seq 0 6 ++ flat_map p_cols (processes P))
         ++ seq 6 3 ++ flat_map (fun pr => i_cols pr ++ o_cols pr) (processes P)).

(** The processes of [P] have no report columns yet, as before the first
    reporter is built from [P]. *)
Definition fresh_columns (P : Parameters) : Prop :=
  Forall (fun pr => p_cols pr = [] /\ i_cols pr = [] /\ o_cols pr = []) (processes P).

(** The report columns of the processes [L] lie after the nine built-in
    columns and before column [n], and no prevalence column is an incidence or
    outcidence column. *)
Definition columns_ok (n : nat) (L : list ProcessSpec) : Prop :=
  (forall pr c, pr ∈ L -> c ∈ p_cols pr \/ c ∈ i_cols pr \/ c ∈ o_cols pr ->
                9 <= c < n) /\
  (forall pr pr' c, pr ∈ L -> pr' ∈ L -> c ∈ p_cols pr ->
                    c ∈ i_cols pr' \/ c ∈ o_cols pr' -> False).

(** Every cell is zero. *)
Definition zeros (dat : list (list Q)) : Prop :=
  forall c r, (dat !!! c) !!! r = 0%Q.

(** The call [r] returns, and what it returns satisfies [post]. *)
Definition returns {A : Type} (r : result A) (post : A -> Prop) : Prop :=
  match r with
  | Ok a => post a
  | Throw _ => False
  end.

(** *** The columns of the user-defined processes *)

(** The character [s[k]] of a report string. *)
Definition char_at (s : string) (k : nat) : ascii :=
  default "000"%char (String.get k s).

(** The report characters of a process in the order in which the constructor
    of the reporter visits them, each with the index [j] of its
    sub-process. *)
Definition report_entries (pr : ProcessSpec) : list (nat * ascii) :=
  flat_map (fun j => map (pair j) (list_ascii_of_string (report pr !!! j)))
           (seq 0 (length (names pr))).

(** The report kinds that the constructor recognises. *)
Definition known_kind (ch : ascii) : bool :=
  Ascii.eqb ch "p" || Ascii.eqb ch "i" || Ascii.eqb ch "o".

Definition unknown_entry (e : nat * ascii) : bool := negb (known_kind e.2).

(** The exception for a report character that is not recognised. *)
Definition unrecognized (e : nat * ascii) : exception :=
  runtime_error (String.append "Unrecognized process report type " (String e.2 ".")).

(** The exception of the constructor of the reporter for a time step that
    is not [1 / report_every], and the exception of the seeding guard. *)
Definition time_step_error : exception :=
  logic_error "TODO: PopulationReporter requires P.time_step = 1 / P.report_every.".

Definition seeding_error : exception :=
  logic_error "Not enough unexposed individuals to seed new infections.".

(** The name of the column of an entry: [names[j] + "_" + ch]. *)
Definition entry_name (pr : ProcessSpec) (e : nat * ascii) : string :=
  String.append (names pr !!! e.1) (String "_" (String e.2 EmptyString)).

(** The columns [start], [start + 1], ... of the entries [es] whose
    character is [kind], and the compartment ids [ids[j]] of these entries. *)
Fixpoint kind_cols (kind : ascii) (start : nat) (es : list (nat * ascii)) : list nat :=
  match es with
  | [] => []
  | e :: rest =>
      if Ascii.eqb e.2 kind then start :: kind_cols kind (S start) rest
      else kind_cols kind (S start) rest
  end.

Fixpoint kind_ids (kind : ascii) (ids_ : list nat) (es : list (nat * ascii)) : list nat :=
  match es with
  | [] => []
  | e :: rest =>
      if Ascii.eqb e.2 kind then (ids_ !!! e.1) :: kind_ids kind ids_ rest
      else kind_ids kind ids_ rest
  end.

(** The process [pr] with the columns of the entries [es], which start at
    column [start], appended to its column lists. *)
Definition with_columns (pr : ProcessSpec) (start : nat) (es : list (nat * ascii))
  : ProcessSpec :=
  {| source_id := source_id pr; names := names pr; ids := ids pr;
     report := report pr; prob := prob pr; delays := delays pr;
     p_cols := p_cols pr ++ kind_cols "p" start es;
     p_ids := p_ids pr ++ kind_ids "p" (ids pr) es;
     i_cols := i_cols pr ++ kind_cols "i" start es;
     i_ids := i_ids pr ++ kind_ids "i" (ids pr) es;
     o_cols := o_cols pr ++ kind_cols "o" start es;
     o_ids := o_ids pr ++ kind_ids "o" (ids pr) es |}.

(** The processes [prs], each with the columns of its own entries; the
    columns of the first process start at [start]. *)
Fixpoint place_columns (start : nat) (prs : list ProcessSpec) : list ProcessSpec :=
  match prs with
  | [] => []
  | pr :: rest =>
      with_columns pr start (report_entries pr)
      :: place_columns (start + length (report_entries pr)) rest
  end.

(** The state of the constructor of the reporter after the column of one
    entry. *)
Definition entry_update (n : nat) (st : list string * list (list Q) * ProcessSpec)
    (e : nat * ascii) : list string * list (list Q) * ProcessSpec :=
  (st.1.1 ++ [entry_name st.2 e], st.1.2 ++ [replicate n 0%Q],
   with_columns st.2 (length st.1.2) [e]).

(** The names of the nine built-in columns. *)
Definition builtin_names : list string :=
  ["S"; "E"; "Ip"; "Is"; "Ia"; "R"; "cases"; "cases_reported"; "subclinical"].

(** The number of cells of a column: one per time, population and age
    group. *)
Definition column_cells (P : Parameters) : nat :=
  N.to_nat (wrap32 (wrap32 (uint_of_Q (time1 P - time0 P) + 1)
                    * N.of_nat (length (pop P))
                    * N.of_nat (length (size (pop P !!! 0))))).

(** The columns of one kind that a process holds name one sub-process each:
    [ids_[i]] is the compartment id of a sub-process [j] of [pr], and the
    column [cols[i]] has the name of [j] with the suffix of [kind]. *)
Definition named_columns (names_ : list string) (pr : ProcessSpec) (kind : ascii)
    (cols ids_ : list nat) : Prop :=
  length ids_ = length cols /\
  forall i, i < length cols ->
    exists j, j < length (names pr) /\
      ids_ !!! i = ids pr !!! j /\
      names_ !! (cols !!! i)
      = Some (String.append (names pr !!! j) (String "_" (String kind EmptyString))).

(** The column lists of [pr2] are those of [pr1] twice over. *)
Definition columns_doubled (pr1 pr2 : ProcessSpec) : Prop :=
  p_cols pr2 = p_cols pr1 ++ p_cols pr1 /\ p_ids pr2 = p_ids pr1 ++ p_ids pr1 /\
  i_cols pr2 = i_cols pr1 ++ i_cols pr1 /\ i_ids pr2 = i_ids pr1 ++ i_ids pr1 /\
  o_cols pr2 = o_cols pr1 ++ o_cols pr1 /\ o_ids pr2 = o_ids pr1 ++ o_ids pr1.

(** No process of [P] has a report column or a reported id yet, as before
    the first reporter is built from [P]. *)
Definition fresh_reports (P : Parameters) : Prop :=
  Forall (fun pr => p_cols pr = [] /\ p_ids pr = [] /\ i_cols pr = [] /\
                    i_ids pr = [] /\ o_cols pr = [] /\ o_ids pr = [])
         (processes P).

(** The report columns of the processes of [P] lie after the nine built-in
    columns. *)
Definition user_columns (P : Parameters) : Prop :=
  forall pr c, pr ∈ processes P -> c ∈ p_cols pr \/ c ∈ i_cols pr \/ c ∈ o_cols pr ->
               9 <= c.

(** *** Shapes, cells and cursors *)

(** The sizes of the vectors of a population. *)
Definition shape `{Externals} (pp : Population) :=
  (length (S_ pp), length (R pp), length (E pp), length (Ip pp), length (Ia pp),
   length (Is pp), length (H pp), length (C pp), map length (pc pp),
   length (pci pp), length (pco pp)).

(** The state of age group [a]: what the members of a population hold at
    index [a]. *)
Definition age_state `{Externals} (pp : Population) (a : nat) :=
  (S_ pp !!! a, R pp !!! a, E pp !!! a, Ip pp !!! a, Ia pp !!! a, Is pp !!! a,
   H pp !!! a, C pp !!! a, map (fun row => row !!! a) (pc pp)).

(** Population [i] of [ps] has the index [i] and vectors of the sizes that
    the constructor gives them from [P]. *)
Definition populations_of `{Externals} (P : Parameters) (ps : list Population) : Prop :=
  length ps = length (pop P) /\
  forall i, i < length ps ->
    p (ps !!! i) = i /\ shape (ps !!! i) = shape (Population_new P i).

(** The members of a reporter other than the values of its cells. *)
Definition header (rep : Reporter) :=
  (active rep, t0 rep, n_times rep, n_populations rep, n_age_groups rep, col_names rep,
   map length (data rep)).

(** The column and the row of the cell that a write goes to. *)
Definition write_cell (w : write) : nat * nat :=
  match w with
  | Assign c row _ => (c, row)
  | Accumulate c row _ => (c, row)
  end.

(** The ticks of one population at one time write to a different row for
    every age group below [n]. *)
Definition rows_distinct (rep : Reporter) (t : Q) (i n : nat) : Prop :=
  forall a1 a2, a1 < n -> a2 < n -> rep_row rep t i a1 = rep_row rep t i a2 -> a1 = a2.

(** The state of age group [a] that the built-in prevalence column [c]
    shows: S, E, Ip, Is, Ia and R for the columns 0 to 5. *)
Definition prevalence_value `{Externals} (pp : Population) (a c : nat) : Q :=
  match c with
  | 0 => S_ pp !!! a
  | 1 => Compartment_Size (E pp !!! a)
  | 2 => Compartment_Size (Ip pp !!! a)
  | 3 => Compartment_Size (Is pp !!! a)
  | 4 => Compartment_Size (Ia pp !!! a)
  | _ => R pp !!! a
  end.

(** The flow that the built-in incidence column [c] accumulates: onsets of
    symptoms, reported cases and subclinical infections for the columns 6 to
    8. *)
Definition incidence_value (fl : Flows) (c : nat) : Q :=
  match c with
  | 6 => nIp_Is fl
  | 7 => n_reported fl
  | _ => nE_Ia fl
  end.

(** The number of leading times of [times] that are due at [t]. *)
Fixpoint due_count (t : Q) (times : list Q) : nat :=
  match times with
  | [] => 0
  | ts :: rest => if Qle_bool ts t then S (due_count t rest) else 0
  end.

(** *** Configurations on which the further properties are run *)

Module Examples.

(** Half-day steps, as the reporter demands for two reports per day. *)
Definition half_steps : Parameters :=
  {| time0 := 0; time1 := 3; time_step := 1 # 2; report_every := 2;
     deterministic := false; pop := [Reference.one_group 100 []]; processes := [];
     travel := fun j i => if Nat.eqb j i then 1%Q else 0%Q |}.

(** Half-day steps with one report per day: the time step that the
    constructor of the reporter refuses. *)
Definition bad_step : Parameters :=
  {| time0 := 0; time1 := 3; time_step := 1 # 2; report_every := 1;
     deterministic := false; pop := [Reference.one_group 100 []]; processes := [];
     travel := fun j i => if Nat.eqb j i then 1%Q else 0%Q |}.

(** A process whose report string holds a character that is no report
    kind. *)
Definition bad_report : Parameters :=
  Reference.config false [Reference.one_group 100 [0%Q]]
    [{| source_id := 1004; names := ["onset"]; ids := [0]; report := ["ix"];
        prob := [[1%Q]]; delays := [{| weights := [0; 1]%Q; storage := [] |}];
        p_cols := []; p_ids := []; i_cols := []; i_ids := [];
        o_cols := []; o_ids := [] |}].

(** One population of two age groups. *)
Definition two_ages : Parameters :=
  let d1 := {| weights := [0; 1]%Q; storage := [] |} in
  Reference.config false
    [{| size := [60; 40]%Q; dE := d1; dIp := d1; dIa := d1; dIs := d1; dH := d1;
        dC := d1; seed_times := [];
        dist_seed_ages := {| weights := [1; 0]%Q; storage := [] |};
        schedule := [];
        u := [1; 1]%Q; cm := fun _ _ => 0%Q; y := [1 # 2; 1 # 2]; rho := [1; 1]%Q;
        fIp := [1; 1]%Q; fIa := [1 # 2; 1 # 2]; fIs := [1; 1]%Q; tau := [1; 1]%Q |}]
    [].

(** The onset process as the constructor of the reporter leaves it, with its
    incidence in column 9 and its outcidence in column 10. *)
Definition onset_columns : ProcessSpec :=
  {| source_id := 1004; names := ["onset"]; ids := [0]; report := ["io"];
     prob := [[1%Q]]; delays := [{| weights := [0; 1]%Q; storage := [] |}];
     p_cols := []; p_ids := []; i_cols := [9]; i_ids := [0];
     o_cols := [10]; o_ids := [0] |}.

Definition onset_reported : Parameters :=
  Reference.config true [Reference.one_group 100 [0%Q]] [onset_columns].

(** A reporter of eleven columns and four rows. *)
Definition blank11 : Reporter :=
  {| active := true; t0 := 0; n_times := 4; n_populations := 1; n_age_groups := 1;
     col_names := []; data := replicate 11 (replicate 4 0%Q) |}.

(** Steps of a tenth of a day, ten reports per day: the time step is the
    double nearest to 1/10. *)
Definition tenth_steps : Parameters :=
  {| time0 := 0; time1 := 3; time_step := 3602879701896397 # 36028797018963968;
     report_every := 10;
     deterministic := false; pop := [Reference.one_group 100 []]; processes := [];
     travel := fun j i => if Nat.eqb j i then 1%Q else 0%Q |}.

(** A time step and a number of reports per day that are both zero. *)
Definition zero_step : Parameters :=
  {| time0 := 0; time1 := 3; time_step := 0; report_every := 0;
     deterministic := false; pop := [Reference.one_group 100 []]; processes := [];
     travel := fun j i => if Nat.eqb j i then 1%Q else 0%Q |}.

(** Half-day steps over two days and a half: a duration that is not a whole
    number. *)
Definition odd_end : Parameters :=
  {| time0 := 0; time1 := 5 # 2; time_step := 1 # 2; report_every := 2;
     deterministic := false; pop := [Reference.one_group 100 []]; processes := [];
     travel := fun j i => if Nat.eqb j i then 1%Q else 0%Q |}.

End Examples.

(** * Properties *)

(** ** Loops over [0 .. n-1] and vectors updated by index *)

Lemma foldl_seq_S {A : Type} (f : A -> nat -> A) (x : A) (n : nat) :
  foldl f x (seq 0 (S n)) = f (foldl f x (seq 0 n)) n.
Proof. rewrite seq_S, foldl_app. reflexivity. Qed.

(** Loop invariant rule: [Inv k s] holds of the state [s] before iteration
    [k]. *)
Lemma foldl_seq_inv {A : Type} (Inv : nat -> A -> Prop) (f : A -> nat -> A)
    (x : A) (n : nat) :
  Inv 0 x ->
  (forall k s, k < n -> Inv k s -> Inv (S k) (f s k)) ->
  Inv n (foldl f x (seq 0 n)).
Proof.
  intros H0 Hstep.
  assert (Hm : forall m, m <= n -> Inv m (foldl f x (seq 0 m))).
  { induction m as [|m IH]; intros Hle; [exact H0|].
    rewrite foldl_seq_S. apply Hstep; [lia|]. apply IH. lia. }
  apply Hm. lia.
Qed.

(** Loop invariant rule for a loop over the elements of a vector. *)
Lemma foldl_inv {A B : Type} (Inv : A -> Prop) (f : A -> B -> A) (xs : list B) (x : A) :
  Inv x -> (forall s b, b ∈ xs -> Inv s -> Inv (f s b)) -> Inv (foldl f x xs).
Proof.
  revert x. induction xs as [|b xs IH]; intros x H0 Hstep; [exact H0|].
  simpl. apply IH.
  - apply Hstep; [left|exact H0].
  - intros s b' Hin. apply Hstep. right. exact Hin.
Qed.

Lemma foldl_insert_seq {A : Type} `{!Inhabited A} (g : nat -> A) (l : list A) (n a : nat) :
  n <= length l ->
  foldl (fun s i => <[i := g i]> s) l (seq 0 n) !!! a
  = if decide (a < n) then g a else l !!! a.
Proof.
  intros Hn.
  pose (Inv := fun (k : nat) (s : list A) =>
                 length s = length l /\
                 forall b, s !!! b = if decide (b < k) then g b else l !!! b).
  assert (HI : Inv n (foldl (fun s i => <[i := g i]> s) l (seq 0 n))).
  { apply foldl_seq_inv.
    - split; [reflexivity|]. intros b. destruct (decide (b < 0)); [lia|reflexivity].
    - intros k s Hk [Hlen Hs]. split; [rewrite length_insert; exact Hlen|].
      intros b. destruct (decide (b = k)) as [->|Hne].
      + rewrite list_lookup_total_insert_eq by lia.
        destruct (decide (k < S k)); [reflexivity|lia].
      + rewrite list_lookup_total_insert_ne by congruence.
        rewrite Hs. destruct (decide (b < k)), (decide (b < S k)); try lia; reflexivity. }
  apply HI.
Qed.

Lemma list_alter_out_of_range {A : Type} (f : A -> A) (l : list A) (i : nat) :
  length l <= i -> alter f i l = l.
Proof.
  revert i. induction l as [|x l IH]; intros [|i] Hi; simpl in *; try lia;
    try reflexivity.
  f_equal. apply IH. lia.
Qed.

Lemma sum_upto_ext (n : nat) (f g : nat -> Q) :
  (forall j, j < n -> f j = g j) -> sum_upto n f = sum_upto n g.
Proof.
  intros Hfg. unfold sum_upto.
  apply (foldl_seq_inv
           (fun k s => s = foldl (fun acc j => (acc + g j)%Q) 0%Q (seq 0 k))).
  - reflexivity.
  - intros k s Hk ->. rewrite foldl_seq_S, Hfg by exact Hk. reflexivity.
Qed.

Lemma lookup_total_replicate_inhabitant {A : Type} `{!Inhabited A} (n i : nat) :
  replicate n (inhabitant : A) !!! i = inhabitant.
Proof.
  destruct (decide (i < n)) as [Hlt|Hge].
  - apply lookup_total_replicate_2. exact Hlt.
  - rewrite list_lookup_total_alt.
    rewrite (proj1 (lookup_replicate_None n inhabitant i)) by lia. reflexivity.
Qed.

Lemma lookup_total_out_of_range {A : Type} `{!Inhabited A} (l : list A) (i : nat) :
  length l <= i -> l !!! i = inhabitant.
Proof.
  intros Hi. rewrite list_lookup_total_alt.
  rewrite lookup_ge_None_2 by exact Hi. reflexivity.
Qed.

Lemma rect_replicate (n k : nat) : rect n k (replicate n (replicate k 0%Q)).
Proof.
  split; [apply length_replicate|]. intros i Hi.
  rewrite lookup_total_replicate_2 by exact Hi. apply length_replicate.
Qed.

Lemma get2_replicate (n k i a : nat) :
  i < n -> a < k -> get2 (replicate n (replicate k 0%Q)) i a = 0%Q.
Proof.
  intros Hi Ha. unfold get2.
  rewrite lookup_total_replicate_2 by exact Hi.
  apply lookup_total_replicate_2. exact Ha.
Qed.

(** [m[i][a] = g (m[i][a])] on a rectangular [m]. *)
Lemma rect_alter (n k : nat) (m : list (list Q)) (g : Q -> Q) (i a : nat) :
  rect n k m -> rect n k (alter (alter g a) i m).
Proof.
  intros [Hn Hk]. split; [rewrite length_alter; exact Hn|].
  intros i' Hi'. destruct (decide (i' = i)) as [->|Hne].
  - rewrite list_lookup_total_alter_eq by lia. rewrite length_alter. apply Hk, Hi'.
  - rewrite list_lookup_total_alter_ne by congruence. apply Hk, Hi'.
Qed.

Lemma get2_alter_eq (n k : nat) (m : list (list Q)) (g : Q -> Q) (i a : nat) :
  rect n k m -> i < n -> a < k ->
  get2 (alter (alter g a) i m) i a = g (get2 m i a).
Proof.
  intros [Hn Hk] Hi Ha. unfold get2.
  rewrite list_lookup_total_alter_eq by lia.
  rewrite list_lookup_total_alter_eq by (rewrite Hk; lia). reflexivity.
Qed.

Lemma get2_alter_ne (m : list (list Q)) (g : Q -> Q) (i a i' a' : nat) :
  i' <> i \/ a' <> a ->
  get2 (alter (alter g a) i m) i' a' = get2 m i' a'.
Proof.
  intros Hne. unfold get2.
  destruct (decide (i' = i)) as [->|Hi].
  - destruct (decide (i < length m)) as [Hlt|Hge].
    + rewrite list_lookup_total_alter_eq by exact Hlt.
      rewrite list_lookup_total_alter_ne; [reflexivity|]. destruct Hne; congruence.
    + rewrite list_alter_out_of_range by lia. reflexivity.
  - rewrite list_lookup_total_alter_ne by congruence. reflexivity.
Qed.

(** Reduce the binds of the exception monad in a hypothesis. *)
Ltac rsimpl H := unfold mbind, result_bind in H; cbn beta iota in H.

Section Properties.
Context `{Ext : Externals}.

(** ** Seeding and scheduled changes leave the rest of a population alone *)

Lemma add_Ok P pp Rand age n pp1 Rand1 :
  add P (pp, Rand) age n = Ok (pp1, Rand1) ->
  ~ (S_ pp !!! age < n)%Q /\
  pp1 = set_E (set_S_ pp (<[age := (S_ pp !!! age - n)%Q]> (S_ pp)))
              (<[age := (Compartment_Add P Rand n (dE (pop P !!! p pp)) (E pp !!! age)).1]>
                 (E pp)) /\
  Rand1 = (Compartment_Add P Rand n (dE (pop P !!! p pp)) (E pp !!! age)).2.
Proof.
  unfold add. destruct (Qlt_le_dec (S_ pp !!! age) n) as [Hlt|Hle]; [discriminate|].
  destruct (Compartment_Add P Rand n (dE (pop P !!! p pp)) (E pp !!! age)) as [e r] eqn:HA.
  intros Heq. injection Heq as <- <-. split; [lra|]. split; reflexivity.
Qed.


Lemma add_passes P pp Rand age n :
  ~ (S_ pp !!! age < n)%Q ->
  add P (pp, Rand) age n
  = Ok (set_E (set_S_ pp (<[age := (S_ pp !!! age - n)%Q]> (S_ pp)))
              (<[age := (Compartment_Add P Rand n (dE (pop P !!! p pp))
                                         (E pp !!! age)).1]> (E pp)),
        (Compartment_Add P Rand n (dE (pop P !!! p pp)) (E pp !!! age)).2).
Proof.
  intros Hge. unfold add.
  destruct (Qlt_le_dec (S_ pp !!! age) n) as [Hlt|_]; [contradiction|].
  destruct (Compartment_Add P Rand n (dE (pop P !!! p pp)) (E pp !!! age)).
  reflexivity.
Qed.

(** What seeding never changes. *)
Definition seeding_frame (pp pp1 : Population) : Prop :=
  p pp1 = p pp /\ Ip pp1 = Ip pp /\ Ia pp1 = Ia pp /\ Is pp1 = Is pp /\
  H pp1 = H pp /\ C pp1 = C pp /\ R pp1 = R pp /\ pc pp1 = pc pp /\
  length (S_ pp1) = length (S_ pp) /\ length (E pp1) = length (E pp).

Lemma seeding_frame_refl pp : seeding_frame pp pp.
Proof. repeat split. Qed.

Lemma seeding_frame_trans pp1 pp2 pp3 :
  seeding_frame pp1 pp2 -> seeding_frame pp2 pp3 -> seeding_frame pp1 pp3.
Proof.
  unfold seeding_frame. intros (?&?&?&?&?&?&?&?&?&?) (?&?&?&?&?&?&?&?&?&?).
  repeat split; congruence.
Qed.

Lemma add_frame P pp Rand age n pp1 Rand1 :
  add P (pp, Rand) age n = Ok (pp1, Rand1) -> seeding_frame pp pp1.
Proof.
  intros Hadd. apply add_Ok in Hadd as (_ & -> & _).
  repeat split; simpl; try reflexivity; apply length_insert.
Qed.

Lemma for_each_inv {A B : Type} (Inv : A -> Prop) (body : A -> B -> result A)
    (xs : list B) (st st1 : A) :
  Inv st ->
  (forall s b s1, Inv s -> body s b = Ok s1 -> Inv s1) ->
  for_each body xs st = Ok st1 -> Inv st1.
Proof.
  intros H0 Hstep. revert st H0.
  induction xs as [|b xs IH]; simpl; intros st H0 Hrun.
  - injection Hrun as <-. exact H0.
  - destruct (body st b) as [s1|e] eqn:Hb; simpl in Hrun; [|discriminate].
    apply (IH s1); [|exact Hrun]. eapply Hstep; eauto.
Qed.

Lemma seed_event_frame P pp Rand pp1 Rand1 :
  seed_event P (pp, Rand) = Ok (pp1, Rand1) -> seeding_frame pp pp1.
Proof.
  unfold seed_event. destruct (deterministic P).
  - intros Hrun.
    apply (for_each_inv (fun st => seeding_frame pp st.1)) in Hrun;
      [exact Hrun|apply seeding_frame_refl|].
    intros [s r] a [s1 r1] Hs Hadd. simpl in *.
    eapply seeding_frame_trans; [exact Hs|]. eapply add_frame; eauto.
  - destruct (Rand_Multinomial Rand 1 _ _) as [drawn r1].
    destruct (find _ _) as [a|].
    + apply add_frame.
    + intros Heq. injection Heq as <- <-. apply seeding_frame_refl.
Qed.

Lemma seed_loop_frame P t next pp Rand pp1 Rand1 :
  seed_loop P t next (pp, Rand) = Ok (pp1, Rand1) -> seeding_frame pp pp1.
Proof.
  revert pp Rand. induction next as [|ts rest IH]; simpl; intros pp Rand Hrun.
  - injection Hrun as <- <-. apply seeding_frame_refl.
  - destruct (Qle_bool ts t).
    + destruct (seed_event P (pp, Rand)) as [[pp' r']|e] eqn:Hev; rsimpl Hrun;
        [|discriminate].
      apply seed_event_frame in Hev. apply IH in Hrun.
      eapply seeding_frame_trans; [exact Hev|]. exact Hrun.
    + injection Hrun as <- <-. apply seeding_frame_refl.
Qed.

Lemma Contagiousness_Ok P Rand t cg pp pp2 Rand1 P2 cg1 :
  Contagiousness P Rand t cg pp = Ok (pp2, Rand1, P2, cg1) ->
  exists pp1,
    seed_loop P t (drop (seed_row pp) (seed_times (pop P !!! p pp))) (pp, Rand)
    = Ok (pp1, Rand1) /\
    pp2 = set_schedule_row pp1
            (schedule_loop (p pp) t
               (drop (schedule_row pp1) (schedule (pop P !!! p pp)))
               (P, schedule_row pp1)).2 /\
    P2 = Pop_Recalculate
           (schedule_loop (p pp) t
              (drop (schedule_row pp1) (schedule (pop P !!! p pp)))
              (P, schedule_row pp1)).1 (p pp) /\
    cg1 = foldl (fun s a => <[a := contag_age P2 pp2 a]> s) cg (seq 0 (length cg)).
Proof.
  unfold Contagiousness.
  destruct (seed_loop P t _ (pp, Rand)) as [[pp1 r1]|e] eqn:Hseed; simpl; [|discriminate].
  destruct (schedule_loop _ _ _ _) as [P1 row] eqn:Hsch. simpl.
  intros Heq. injection Heq as <- <- <- <-. exists pp1. rewrite Hsch.
  repeat split; reflexivity.
Qed.

Lemma Contagiousness_frame P Rand t cg pp pp2 Rand1 P2 cg1 :
  Contagiousness P Rand t cg pp = Ok (pp2, Rand1, P2, cg1) -> seeding_frame pp pp2.
Proof.
  intros Hc. apply Contagiousness_Ok in Hc as (pp1 & Hseed & -> & _ & _).
  apply seed_loop_frame in Hseed.
  eapply seeding_frame_trans; [exact Hseed|]. repeat split.
Qed.

(** ** Contagiousness of a population *)

(** C7. [Contagiousness] assigns to every [contag[a]] the sum of the
    occupancies of Ip, Ia and Is weighted by [fIp], [fIa] and [fIs] and
    divided by [size[a]] when [size[a]] is not zero, and exactly 0 when it is
    zero; the occupancies are those the call started with, since seeding
    moves individuals between S and E only. *)
Theorem Contagiousness_per_age P Rand t cg pp pp2 Rand1 P2 cg1 a :
  Contagiousness P Rand t cg pp = Ok (pp2, Rand1, P2, cg1) ->
  a < length cg ->
  let q := pop P2 !!! p pp in
  ((size q !!! a == 0)%Q -> cg1 !!! a = 0%Q) /\
  (~ (size q !!! a == 0)%Q ->
   cg1 !!! a
   = ((fIp q !!! a * Compartment_Size (Ip pp !!! a)
       + fIa q !!! a * Compartment_Size (Ia pp !!! a)
       + fIs q !!! a * Compartment_Size (Is pp !!! a)) / (size q !!! a))%Q).
Proof.
  intros Hc Ha q.
  pose proof (Contagiousness_frame _ _ _ _ _ _ _ _ _ Hc) as (Hp & HIp & HIa & HIs & _).
  apply Contagiousness_Ok in Hc as (pp1 & _ & _ & _ & ->).
  rewrite foldl_insert_seq by lia.
  destruct (decide (a < length cg)); [|lia].
  unfold contag_age. rewrite Hp, HIp, HIa, HIs. fold q.
  destruct (Qeq_bool (size q !!! a) 0) eqn:Hz.
  - apply Qeq_bool_iff in Hz. split; [reflexivity|]. intros Hnz. contradiction.
  - split; [|reflexivity]. intros Hz'. apply Qeq_bool_iff in Hz'. congruence.
Qed.

(** ** Mixing between populations *)

(** The loop over the ages adds one term to every entry of row [i]. *)
Lemma mixing_ages (m : nat -> Q) (n k : nat) (inf : list (list Q)) (i : nat) :
  rect n k inf -> i < n ->
  let r := foldl (fun s a => alter (alter (fun x => (x + m a)%Q) a) i s) inf (seq 0 k) in
  rect n k r /\
  forall i' a', get2 r i' a'
                = if decide (i' = i /\ a' < k) then (get2 inf i' a' + m a')%Q
                  else get2 inf i' a'.
Proof.
  intros Hrect Hi r.
  pose (Inv := fun (j : nat) (s : list (list Q)) =>
                 rect n k s /\
                 forall i' a', get2 s i' a'
                               = if decide (i' = i /\ a' < j)
                                 then (get2 inf i' a' + m a')%Q else get2 inf i' a').
  assert (HI : forall j, j <= k ->
               Inv j (foldl (fun s a => alter (alter (fun x => (x + m a)%Q) a) i s)
                            inf (seq 0 j))).
  { intros j Hj. apply foldl_seq_inv.
    - split; [exact Hrect|]. intros i' a'.
      destruct (decide (i' = i /\ a' < 0)); [lia|reflexivity].
    - intros a s Ha [Hs Hget]. split; [apply rect_alter; exact Hs|].
      intros i' a'. destruct (decide (i' = i /\ a' = a)) as [[-> ->]|Hne].
      + rewrite (get2_alter_eq n k) by (try exact Hs; lia).
        rewrite Hget. destruct (decide (i = i /\ a < a)); [lia|].
        destruct (decide (i = i /\ a < S a)); [reflexivity|lia].
      + rewrite get2_alter_ne by (destruct (decide (i' = i)); [right|left]; tauto).
        rewrite Hget.
        destruct (decide (i' = i /\ a' < a)), (decide (i' = i /\ a' < S a));
          try reflexivity; exfalso; intuition lia. }
  apply (HI k). lia.
Qed.

(** The loop over the sources [j] adds, for each of them, one term to every
    entry of row [i]. *)
Lemma mixing_sources (m : nat -> nat -> Q) (n k : nat) (inf : list (list Q)) (i np : nat) :
  rect n k inf -> i < n ->
  let r := foldl (fun s j =>
                    foldl (fun s2 a => alter (alter (fun x => (x + m j a)%Q) a) i s2)
                          s (seq 0 k))
                 inf (seq 0 np) in
  rect n k r /\
  forall i' a', get2 r i' a'
                = if decide (i' = i /\ a' < k)
                  then foldl (fun acc j => (acc + m j a')%Q) (get2 inf i' a') (seq 0 np)
                  else get2 inf i' a'.
Proof.
  intros Hrect Hi r. subst r.
  apply (foldl_seq_inv
           (fun (j0 : nat) (s : list (list Q)) =>
              rect n k s /\
              forall i' a', get2 s i' a'
                            = if decide (i' = i /\ a' < k)
                              then foldl (fun acc j => (acc + m j a')%Q)
                                         (get2 inf i' a') (seq 0 j0)
                              else get2 inf i' a')).
  - split; [exact Hrect|]. intros i' a'.
    destruct (decide (i' = i /\ a' < k)); reflexivity.
  - intros j s Hj [Hs Hget].
    destruct (mixing_ages (m j) n k s i Hs Hi) as [Hr' Hget'].
    split; [exact Hr'|]. intros i' a'. rewrite Hget', Hget.
    destruct (decide (i' = i /\ a' < k)); [|reflexivity].
    rewrite foldl_seq_S. reflexivity.
Qed.

Lemma mixing_entries (P : Parameters) (cg : list (list Q)) (n k i a : nat) :
  i < n -> a < k ->
  get2 (mixing P cg n k) i a = sum_upto n (fun j => mixing_term P cg i j a).
Proof.
  intros Hi Ha. unfold mixing.
  pose (Inv := fun (i0 : nat) (s : list (list Q)) =>
                 rect n k s /\
                 forall i' a', i' < n -> a' < k ->
                   get2 s i' a'
                   = if decide (i' < i0)
                     then sum_upto n (fun j => mixing_term P cg i' j a') else 0%Q).
  assert (HI : Inv n (foldl
            (fun inf i0 =>
               foldl (fun inf1 j =>
                        foldl (fun inf2 a0 =>
                                 alter (alter (fun x => (x + mixing_term P cg i0 j a0)%Q) a0)
                                       i0 inf2)
                              inf1 (seq 0 k))
                     inf (seq 0 n))
            (replicate n (replicate k 0%Q)) (seq 0 n))).
  { apply foldl_seq_inv.
    - split; [apply rect_replicate|]. intros i' a' Hi' Ha'.
      destruct (decide (i' < 0)); [lia|]. apply get2_replicate; assumption.
    - intros i0 s Hi0 [Hs Hget].
      destruct (mixing_sources (fun j a0 => mixing_term P cg i0 j a0) n k s i0 n Hs Hi0)
        as [Hr' Hget'].
      split; [exact Hr'|]. intros i' a' Hi' Ha'. rewrite Hget'.
      destruct (decide (i' = i0 /\ a' < k)) as [[-> _]|Hne].
      + rewrite Hget by assumption.
        destruct (decide (i0 < i0)); [lia|].
        destruct (decide (i0 < S i0)); [reflexivity|lia].
      + rewrite Hget by assumption.
        destruct (decide (i' < i0)), (decide (i' < S i0)); try reflexivity;
          exfalso; intuition lia. }
  destruct HI as [_ Hget]. rewrite Hget by assumption.
  destruct (decide (i < n)); [reflexivity|lia].
Qed.

Lemma Metapopulation_Tick_Ok P Rand t ts rep mp b mp1 Rand2 rep2 P1 :
  Metapopulation_Tick P Rand t ts rep mp = Ok (b, mp1, Rand2, rep2, P1) ->
  let n_ages := length (size (pop P !!! 0)) in
  let n_pops := length (pops mp) in
  exists ps1 Rand1,
    for_each (contagiousness_step t) (seq 0 n_pops)
             (pops mp, Rand, P, replicate n_pops (replicate n_ages 0%Q))
    = Ok (ps1, Rand1, P1, contag mp1) /\
    infec mp1 = mixing P1 (contag mp1) n_pops n_ages /\
    foldl (update_population P1 t (infec mp1)) (true, ps1, Rand1, rep) (seq 0 n_pops)
    = (b, pops mp1, Rand2, rep2).
Proof.
  intros Hrun n_ages n_pops. unfold Metapopulation_Tick in Hrun.
  fold n_ages n_pops in Hrun.
  destruct (for_each (contagiousness_step t) _ _) as [[[[ps1 Rand1] P1'] cg1]|e] eqn:Hc;
    rsimpl Hrun; [|discriminate].
  destruct (foldl (update_population P1' t (mixing P1' cg1 n_pops n_ages)) _ _)
    as [[[b' ps2] r2] rep2'] eqn:Hupd.
  injection Hrun as <- <- <- <- <-. simpl.
  exists ps1, Rand1. repeat split. exact Hupd.
Qed.

(** C6. After [Metapopulation::Tick], the incoming force of every
    destination population [i] and age [a] is the sum over the source
    populations [j] of [travel(j, i) * contag[j][a] * m], where [m] is 1 for
    [j = i] and [tau[a]] of the source population [j] otherwise. *)
Theorem Metapopulation_Tick_incoming_force P Rand t ts rep mp b mp1 Rand2 rep2 P1 i a :
  Metapopulation_Tick P Rand t ts rep mp = Ok (b, mp1, Rand2, rep2, P1) ->
  i < length (pops mp) ->
  a < length (size (pop P !!! 0)) ->
  get2 (infec mp1) i a
  = sum_upto (length (pops mp))
      (fun j => (travel P1 j i * get2 (contag mp1) j a
                 * (if decide (j = i) then 1 else tau (pop P1 !!! j) !!! a))%Q).
Proof.
  intros Hrun Hi Ha.
  apply Metapopulation_Tick_Ok in Hrun as (ps1 & Rand1 & _ & -> & _).
  rewrite mixing_entries by assumption.
  apply sum_upto_ext. intros j _. unfold mixing_term, get2.
  destruct (Nat.eqb_spec j i), (decide (j = i)); try contradiction; reflexivity.
Qed.

(** ** The force of infection and the built-in chain *)

Lemma accumulate_at (f : nat -> Q) (a : nat) (l : list Q) (n : nat) :
  let r := foldl (fun s b => alter (fun x => (x + f b)%Q) a s) l (seq 0 n) in
  length r = length l /\
  (a < length l -> r !!! a = foldl (fun acc b => (acc + f b)%Q) (l !!! a) (seq 0 n)) /\
  (forall b, b <> a -> r !!! b = l !!! b).
Proof.
  intros r. subst r.
  apply (foldl_seq_inv
           (fun (k : nat) (s : list Q) =>
              length s = length l /\
              (a < length l ->
               s !!! a = foldl (fun acc b => (acc + f b)%Q) (l !!! a) (seq 0 k)) /\
              (forall b, b <> a -> s !!! b = l !!! b))).
  - repeat split; reflexivity.
  - intros k s _ (Hlen & Ha & Hb). split; [rewrite length_alter; exact Hlen|]. split.
    + intros Hlt. rewrite list_lookup_total_alter_eq by lia.
      rewrite foldl_seq_S, Ha by exact Hlt. reflexivity.
    + intros b Hne. rewrite list_lookup_total_alter_ne by congruence. apply Hb, Hne.
Qed.

Lemma force_of_infection_length P pindex inf :
  length (force_of_infection P pindex inf) = length inf.
Proof.
  unfold force_of_infection. rewrite length_replicate.
  apply (foldl_seq_inv (fun (k : nat) (s : list Q) => length s = length inf)).
  - apply length_replicate.
  - intros k s _ Hs.
    destruct (accumulate_at
                (fun b => (u (pop P !!! pindex) !!! k * cm (pop P !!! pindex) k b
                           * (inf !!! b))%Q) k s (length inf)) as [Hlen _].
    rewrite Hlen. exact Hs.
Qed.

Lemma force_of_infection_entries P pindex inf a :
  a < length inf ->
  force_of_infection P pindex inf !!! a
  = sum_upto (length inf)
      (fun b => (u (pop P !!! pindex) !!! a * cm (pop P !!! pindex) a b * (inf !!! b))%Q).
Proof.
  intros Ha. unfold force_of_infection. rewrite length_replicate.
  set (q := pop P !!! pindex). set (n := length inf).
  pose (Inv := fun (k : nat) (s : list Q) =>
                 length s = n /\
                 forall a0, a0 < n ->
                   s !!! a0
                   = if decide (a0 < k)
                     then sum_upto n (fun b => (u q !!! a0 * cm q a0 b * (inf !!! b))%Q)
                     else 0%Q).
  assert (HI : Inv n (foldl
            (fun lam a0 =>
               foldl (fun lam1 b =>
                        alter (fun x => (x + u q !!! a0 * cm q a0 b * (inf !!! b))%Q) a0 lam1)
                     lam (seq 0 n))
            (replicate n 0%Q) (seq 0 n))).
  { apply foldl_seq_inv.
    - split; [apply length_replicate|]. intros a0 Ha0.
      destruct (decide (a0 < 0)); [lia|]. apply lookup_total_replicate_2, Ha0.
    - intros k s Hk [Hlen Hs].
      destruct (accumulate_at (fun b => (u q !!! k * cm q k b * (inf !!! b))%Q) k s n)
        as (Hlen' & Hk' & Hother).
      split; [rewrite Hlen'; exact Hlen|]. intros a0 Ha0.
      destruct (decide (a0 = k)) as [->|Hne].
      + rewrite Hk' by lia. rewrite Hs by exact Ha0.
        destruct (decide (k < k)); [lia|]. destruct (decide (k < S k)); [reflexivity|lia].
      + rewrite Hother by exact Hne. rewrite Hs by exact Ha0.
        destruct (decide (a0 < k)), (decide (a0 < S k)); try reflexivity; lia. }
  destruct HI as [_ Hs]. rewrite Hs by exact Ha.
  destruct (decide (a < n)); [reflexivity|lia].
Qed.

(** The built-in chain with every intermediate result named. *)
Lemma builtin_states_eq P a pp Rand :
  let q := pop P !!! p pp in
  let d0 := binomial P Rand (S_ pp !!! a)
                     (1 - exp (- (lambda pp !!! a) * time_step P))%Q in
  let e1 := Compartment_Add P d0.2 d0.1 (dE q) (E pp !!! a) in
  let m1 := Compartment_Mature e1.1 in
  let d1 := binomial P e1.2 m1.1 (y q !!! a) in
  let ip1 := Compartment_Add P d1.2 d1.1 (dIp q) (Ip pp !!! a) in
  let ia1 := Compartment_Add P ip1.2 (m1.1 - d1.1)%Q (dIa q) (Ia pp !!! a) in
  let m2 := Compartment_Mature ip1.1 in
  let is1 := Compartment_Add P ia1.2 m2.1 (dIs q) (Is pp !!! a) in
  let d2 := binomial P is1.2 m2.1 (rho q !!! a) in
  let c1 := Compartment_Add P d2.2 d2.1 (dC q) (C pp !!! a) in
  let m3 := Compartment_Mature c1.1 in
  let m4 := Compartment_Mature is1.1 in
  let h1 := Compartment_Add P c1.2 m4.1 (dH q) (H pp !!! a) in
  let m5 := Compartment_Mature h1.1 in
  let m6 := Compartment_Mature ia1.1 in
  let R1 := <[a := (R pp !!! a + m5.1)%Q]> (R pp) in
  builtin_states P a (pp, Rand)
  = ({| nS_E := d0.1; nE_Ipa := m1.1; nE_Ip := d1.1; nE_Ia := (m1.1 - d1.1)%Q;
        nIp_Is := m2.1; n_to_report := d2.1; n_reported := m3.1;
        nIs_H := m4.1; nH_R := m5.1; nIa_R := m6.1 |},
     set_R
       (set_C
          (set_H
             (set_Is
                (set_Ia
                   (set_Ip
                      (set_E (set_S_ pp (<[a := (S_ pp !!! a - d0.1)%Q]> (S_ pp)))
                             (<[a := m1.2]> (E pp)))
                      (<[a := m2.2]> (Ip pp)))
                   (<[a := m6.2]> (Ia pp)))
                (<[a := m4.2]> (Is pp)))
             (<[a := m5.2]> (H pp)))
          (<[a := m3.2]> (C pp)))
       (<[a := (R1 !!! a + m6.1)%Q]> R1),
     h1.2).
Proof.
  intros q d0 e1 m1 d1 ip1 ia1 m2 is1 d2 c1 m3 m4 h1 m5 m6 R1.
  unfold builtin_states. fold q.
  subst R1 m6 m5 h1 m4 m3 c1 d2 is1 m2 ia1 ip1 d1 m1 e1 d0.
  repeat match goal with
         | |- context [let '(_, _) := ?e in _] => destruct e; cbn [fst snd]
         end.
  reflexivity.
Qed.

Lemma builtin_states_aux P a pp Rand :
  aux (builtin_states P a (pp, Rand)).1.2 = aux pp.
Proof. rewrite builtin_states_eq. reflexivity. Qed.

Lemma mature_compartment_core a pp id : core (mature_compartment a pp id) = core pp.
Proof.
  unfold mature_compartment. destruct (Compartment_Mature _). reflexivity.
Qed.

Lemma mature_processes_core P a pp : core (mature_processes P a pp) = core pp.
Proof.
  unfold mature_processes.
  apply (foldl_inv (fun s => core s = core pp)); [reflexivity|].
  intros s process _ Hs.
  apply (foldl_inv (fun s1 => core s1 = core pp)); [exact Hs|].
  intros s1 id _ Hs1. rewrite mature_compartment_core. exact Hs1.
Qed.

Lemma seed_compartment_core P a process pp Rand c id :
  core (seed_compartment P a process (pp, Rand, c) id).1.1 = core pp.
Proof.
  unfold seed_compartment. destruct (Compartment_Add _ _ _ _ _). reflexivity.
Qed.

Lemma seed_process_core P a fl pp Rand process :
  core (seed_process P a fl (pp, Rand) process).1 = core pp.
Proof.
  unfold seed_process. destruct (multinomial _ _ _ _ _ _) as [[nd ni] r1].
  apply (foldl_inv (fun st => core st.1.1 = core pp)); [reflexivity|].
  intros [[s r] c] id _ Hs. rewrite seed_compartment_core. exact Hs.
Qed.

Lemma seed_processes_core P a fl pp Rand prs :
  core (foldl (seed_process P a fl) (pp, Rand) prs).1 = core pp.
Proof.
  apply (foldl_inv (fun st => core st.1 = core pp)); [reflexivity|].
  intros [s r] process _ Hs. rewrite seed_process_core. exact Hs.
Qed.

(** An age iteration leaves [lambda] and the population index alone. *)
Lemma tick_age_lambda P t pp Rand rep a :
  lambda (tick_age P t (pp, Rand, rep) a).1.1 = lambda pp /\
  p (tick_age P t (pp, Rand, rep) a).1.1 = p pp.
Proof.
  unfold tick_age.
  pose proof (builtin_states_aux P a pp Rand) as Haux.
  destruct (builtin_states P a (pp, Rand)) as [[fl pp1] Rand1]. simpl in Haux.
  pose proof (seed_processes_core P a fl (mature_processes P a pp1) Rand1 (processes P))
    as Hcore.
  destruct (foldl (seed_process P a fl) _ _) as [pp3 Rand3]. simpl in *.
  rewrite mature_processes_core in Hcore.
  unfold core in Hcore. unfold aux in Haux.
  split; congruence.
Qed.



End Properties.

(** ** Conservation of the core chain *)


Section Conservation.
Context `{Ext : Externals} `{!CompartmentContract}.





Lemma inhabitant_conserved : conserved inhabitant [].
Proof.
  split; [repeat split|]. intros a. unfold core_sum. simpl.
  rewrite !lookup_total_nil. simpl. pose proof Size_new. lra.
Qed.









Lemma Metapopulation_new_pops P :
  length (pops (Metapopulation_new P)) = length (pop P) /\
  forall i, i < length (pop P) -> pops (Metapopulation_new P) !!! i = Population_new P i.
Proof.
  unfold Metapopulation_new. simpl.
  apply (foldl_seq_inv
           (fun (k : nat) (s : list Population) =>
              length s = k /\ forall i, i < k -> s !!! i = Population_new P i)).
  - split; [reflexivity|]. intros i Hi. lia.
  - intros k s _ [Hlen Hs]. split; [rewrite length_app; simpl; lia|].
    intros i Hi. destruct (decide (i = k)) as [->|Hne].
    + rewrite lookup_total_app_r by lia. rewrite Hlen, Nat.sub_diag. reflexivity.
    + rewrite lookup_total_app_l by lia. apply Hs. lia.
Qed.








Lemma run_init_Ok P Rand st0 :
  run_init P Rand = Ok st0 ->
  exists rep P1,
    Reporter_new P true = Ok (rep, P1) /\
    st0 = {| run_mp := Metapopulation_new P; run_rand := Rand; run_rep := rep;
             run_P := P1; ended_early := false |}.
Proof.
  unfold run_init. destruct (Reporter_new P true) as [[rep P1]|e]; intros Hrun;
    rsimpl Hrun; [|discriminate].
  injection Hrun as <-. exists rep, P1. split; reflexivity.
Qed.


End Conservation.

Section Control.
Context `{Ext : Externals}.

(** ** The loop over the populations in [Metapopulation::Tick] *)

Lemma update_every_untouched P t inf st0 k j :
  k <= j ->
  (foldl (update_population_every P t inf) st0 (seq 0 k)).1.1.2 !!! j = st0.1.1.2 !!! j.
Proof.
  intros Hj.
  apply (foldl_seq_inv
           (fun (m : nat) (st : bool * list Population * Randomizer * Reporter) =>
              m <= k -> st.1.1.2 !!! j = st0.1.1.2 !!! j)); [reflexivity| |lia].
  intros m [[[kg s] r] rp] Hm Hs Hle. unfold update_population_every.
  destruct (Population_Tick P r t (inf !!! m) rp (s !!! m)) as [[[b pi] r1] rp1].
  simpl in *. rewrite list_lookup_total_insert_ne by lia. apply Hs. lia.
Qed.

(** The loop ticks the populations up to and including the first one whose
    tick returns false, and no other. *)
Lemma update_populations_first_false P t inf ps Rand rep n :
  let st0 := (true, ps, Rand, rep) in
  exists k, k <= n /\
    foldl (update_population P t inf) st0 (seq 0 n)
    = foldl (update_population_every P t inf) st0 (seq 0 k) /\
    (k < n -> (foldl (update_population P t inf) st0 (seq 0 n)).1.1.1 = false) /\
    (forall j, j < k ->
       (foldl (update_population_every P t inf) st0 (seq 0 j)).1.1.1 = true).
Proof.
  intros st0. induction n as [|n (k & Hk & Heq & Hstop & Hbefore)].
  - exists 0. split; [lia|]. split; [reflexivity|]. split; intros; lia.
  - rewrite foldl_seq_S.
    destruct (foldl (update_population P t inf) st0 (seq 0 n))
      as [[[kg s] r] rp] eqn:Hloop.
    destruct kg.
    + (* no population has asked to stop: the next one is ticked *)
      assert (k = n) as -> by (destruct (decide (k < n)) as [Hlt|]; [|lia];
                               specialize (Hstop Hlt); discriminate).
      exists (S n). rewrite foldl_seq_S, <- Heq.
      split; [lia|]. split; [|split].
      * unfold update_population, update_population_every.
        destruct (Population_Tick P r t (inf !!! n) rp (s !!! n)) as [[[b pi] r1] rp1].
        reflexivity.
      * intros Hlt. lia.
      * intros j Hj. destruct (decide (j = n)) as [->|Hne]; [|apply Hbefore; lia].
        rewrite <- Heq. reflexivity.
    + (* a population has asked to stop: the others are skipped *)
      exists k. unfold update_population at 1.
      split; [lia|]. split; [exact Heq|]. split; [reflexivity|exact Hbefore].
Qed.

(** ** The time loop of the driver *)





(** C1 (as the code has it). [Metapopulation::Tick] ticks the populations in
    order up to and including the first one whose tick returns false: [k] is
    the number of populations ticked.  The signal returned is the conjunction
    of the results of these [k] ticks; it is false whenever a population was
    skipped ([k] below the number of populations), and the skipped
    populations are left as [Contagiousness] left them. *)
Theorem Metapopulation_Tick_signal P Rand t ts rep mp b mp1 Rand2 rep2 P1 :
  Metapopulation_Tick P Rand t ts rep mp = Ok (b, mp1, Rand2, rep2, P1) ->
  exists ps1 Rand1 k,
    for_each (contagiousness_step t) (seq 0 (length (pops mp)))
             (pops mp, Rand, P,
              replicate (length (pops mp))
                        (replicate (length (size (pop P !!! 0))) 0%Q))
    = Ok (ps1, Rand1, P1, contag mp1) /\
    k <= length (pops mp) /\
    (b, pops mp1, Rand2, rep2)
    = foldl (update_population_every P1 t (infec mp1)) (true, ps1, Rand1, rep) (seq 0 k) /\
    (k < length (pops mp) -> b = false) /\
    (forall j, j < k ->
       (foldl (update_population_every P1 t (infec mp1)) (true, ps1, Rand1, rep)
              (seq 0 j)).1.1.1 = true) /\
    (forall j, k <= j -> pops mp1 !!! j = ps1 !!! j).
Proof.
  intros Hrun.
  apply Metapopulation_Tick_Ok in Hrun as (ps1 & Rand1 & Hcg & _ & Hupd).
  destruct (update_populations_first_false P1 t (infec mp1) ps1 Rand1 rep
                                           (length (pops mp)))
    as (k & Hk & Heq & Hstop & Hbefore).
  cbv zeta in Heq, Hstop, Hbefore. rewrite Hupd in Heq, Hstop.
  exists ps1, Rand1, k.
  split; [exact Hcg|]. split; [exact Hk|]. split; [exact Heq|].
  split; [exact Hstop|]. split; [exact Hbefore|].
  intros j Hj.
  pose proof (update_every_untouched P1 t (infec mp1) (true, ps1, Rand1, rep) k j Hj)
    as Hsame.
  rewrite <- Heq in Hsame. exact Hsame.
Qed.


End Control.

Section Seeding.
Context `{Ext : Externals}.

(** ** The seeding guard *)




End Seeding.

(** ** What one seed event injects *)

Lemma for_each_app {A B : Type} (body : A -> B -> result A) (xs ys : list B) (st : A) :
  for_each body (xs ++ ys) st
  = match for_each body xs st with
    | Ok st1 => for_each body ys st1
    | Throw e => Throw e
    end.
Proof.
  revert st. induction xs as [|x xs IH]; intros st; simpl; [reflexivity|].
  destruct (body st x) as [s1|e]; unfold mbind, result_bind; [apply IH|reflexivity].
Qed.

(** Loop invariant rule for a loop over [0 .. n-1] whose body may throw. *)
Lemma for_each_seq_inv {A : Type} (Inv : nat -> A -> Prop) (body : A -> nat -> result A)
    (n : nat) (st st1 : A) :
  Inv 0 st ->
  (forall k s s1, k < n -> Inv k s -> body s k = Ok s1 -> Inv (S k) s1) ->
  for_each body (seq 0 n) st = Ok st1 -> Inv n st1.
Proof.
  intros H0 Hstep.
  assert (Hm : forall m s, m <= n -> for_each body (seq 0 m) st = Ok s -> Inv m s).
  { induction m as [|m IH]; intros s Hle Hrun.
    - simpl in Hrun. injection Hrun as <-. exact H0.
    - rewrite seq_S, for_each_app in Hrun.
      destruct (for_each body (seq 0 m) st) as [s0|e] eqn:Hpre; [|discriminate].
      simpl in Hrun. destruct (body s0 m) as [s2|e] eqn:Hb;
        unfold mbind, result_bind in Hrun; [|discriminate].
      injection Hrun as <-. eapply Hstep; [lia| |exact Hb]. apply IH; [lia|reflexivity]. }
  intros Hrun. apply (Hm n st1); [lia|exact Hrun].
Qed.

Section SeedEvents.
Context `{Ext : Externals} `{!CompartmentContract}.

(** In deterministic mode an event takes [weights[a]] individuals from every
    age group [a]. *)
Lemma seed_event_deterministic P pp Rand pp1 Rand1 :
  deterministic P = true ->
  length (E pp) = length (S_ pp) ->
  seed_event P (pp, Rand) = Ok (pp1, Rand1) ->
  forall a, a < length (S_ pp) ->
    let w := weights (dist_seed_ages (pop P !!! p pp)) !!! a in
    S_ pp1 !!! a = (S_ pp !!! a - w)%Q /\
    (Compartment_Size (E pp1 !!! a) == Compartment_Size (E pp !!! a) + w)%Q.
Proof.
  intros Hdet HlenE Hrun a Ha. unfold seed_event in Hrun. rewrite Hdet in Hrun.
  set (d := dist_seed_ages (pop P !!! p pp)) in *.
  pose (Inv := fun (k : nat) (st : Population * Randomizer) =>
                 length (S_ st.1) = length (S_ pp) /\
                 length (E st.1) = length (S_ pp) /\
                 forall b, b < length (S_ pp) ->
                   if decide (b < k)
                   then S_ st.1 !!! b = (S_ pp !!! b - weights d !!! b)%Q /\
                        (Compartment_Size (E st.1 !!! b)
                         == Compartment_Size (E pp !!! b) + weights d !!! b)%Q
                   else S_ st.1 !!! b = S_ pp !!! b /\ E st.1 !!! b = E pp !!! b).
  apply (for_each_seq_inv Inv) in Hrun.
  - destruct Hrun as (_ & _ & Hall). specialize (Hall a Ha).
    destruct (decide (a < length (S_ pp))); [exact Hall|lia].
  - split; [reflexivity|]. split; [exact HlenE|]. intros b Hb.
    destruct (decide (b < 0)); [lia|]. split; reflexivity.
  - intros k [s r] [s1 r1] Hk (HlS & HlE & Hall) Hadd. simpl in *.
    apply add_Ok in Hadd as (_ & -> & _). unfold Inv. simpl.
    rewrite !length_insert. split; [exact HlS|]. split; [exact HlE|].
    intros b Hb. specialize (Hall b Hb). rewrite !list_lookup_total_insert.
    rewrite HlS, HlE.
    destruct (decide (k = b /\ k < length (S_ pp))) as [[-> _]|Hne].
    + destruct (decide (b < b)); [lia|]. destruct (decide (b < S b)); [|lia].
      destruct Hall as [-> ->]. split; [reflexivity|]. apply Size_Add.
    + destruct (decide (b < k)), (decide (b < S k)); try exact Hall; lia.
Qed.

Lemma inject_nat_S (k : nat) :
  (inject_Z (Z.of_nat (S k)) == inject_Z (Z.of_nat k) + 1)%Q.
Proof. rewrite Nat2Z.inj_succ. unfold Z.succ. rewrite inject_Z_plus. reflexivity. Qed.

(** With one age group, an event that seeds one individual is one call of
    [add] for age 0. *)
Lemma seed_event_single P pp Rand :
  length (S_ pp) = 1 ->
  seeds_one_into_first P (p pp) ->
  exists r, seed_event P (pp, Rand) = add P (pp, r) 0 1.
Proof.
  intros Hlen Hone. unfold seeds_one_into_first in Hone. unfold seed_event.
  rewrite Hlen. destruct (deterministic P).
  - exists Rand. simpl. rewrite Hone.
    destruct (add P (pp, Rand) 0 1) as [s|e]; reflexivity.
  - specialize (Hone Rand).
    destruct (Rand_Multinomial Rand 1 _ _) as [drawn r1]. simpl in Hone.
    exists r1. simpl. rewrite Hone. reflexivity.
Qed.

(** [k] events due at [t] and none after them: [k] individuals move from S
    to E, and [seed_row] advances by [k]. *)
Lemma seed_loop_single P t t0 k rest pp Rand :
  length (S_ pp) = 1 -> length (E pp) = 1 ->
  seeds_one_into_first P (p pp) ->
  Qle_bool t0 t = true ->
  none_due t rest ->
  (inject_Z (Z.of_nat k) <= S_ pp !!! 0%nat)%Q ->
  exists pp1 Rand1,
    seed_loop P t (replicate k t0 ++ rest) (pp, Rand) = Ok (pp1, Rand1) /\
    (S_ pp1 !!! 0%nat == S_ pp !!! 0%nat - inject_Z (Z.of_nat k))%Q /\
    (Compartment_Size (E pp1 !!! 0%nat)
     == Compartment_Size (E pp !!! 0%nat) + inject_Z (Z.of_nat k))%Q /\
    seed_row pp1 = seed_row pp + k.
Proof.
  revert pp Rand. induction k as [|k IH]; intros pp Rand HlS HlE Hone Hdue Hrest Hk.
  - exists pp, Rand. simpl. split.
    + destruct rest as [|t1 rest']; [reflexivity|]. simpl in *. rewrite Hrest. reflexivity.
    + change (inject_Z (Z.of_nat 0)) with 0%Q. split; [|split]; [lra|lra|lia].
  - pose proof (inject_nat_S k) as HSk.
    destruct (seed_event_single P pp Rand HlS Hone) as [r Hev].
    assert (Hge : ~ (S_ pp !!! 0%nat < 1)%Q).
    { assert (0 <= inject_Z (Z.of_nat k))%Q
        by (rewrite <- (Zle_Qle 0); apply Nat2Z.is_nonneg). lra. }
    rewrite (add_passes P pp r 0 1%Q Hge) in Hev.
    set (pp' := set_E _ _) in Hev. set (r' := (Compartment_Add _ _ _ _ _).2) in Hev.
    destruct (IH (set_seed_row pp' (seed_row pp' + 1)) r')
      as (pp1 & Rand1 & Hloop & HS & HE & Hrow).
    + subst pp'. simpl. rewrite length_insert. exact HlS.
    + subst pp'. simpl. rewrite length_insert. exact HlE.
    + exact Hone.
    + exact Hdue.
    + exact Hrest.
    + subst pp'. simpl. rewrite list_lookup_total_insert_eq by lia. lra.
    + exists pp1, Rand1. split.
      * simpl. rewrite Hdue, Hev. unfold mbind, result_bind. exact Hloop.
      * subst pp'. simpl in HS, HE, Hrow.
        rewrite list_lookup_total_insert_eq in HS by lia.
        rewrite list_lookup_total_insert_eq in HE by lia.
        pose proof (Size_Add P r 1 (dE (pop P !!! p pp)) (E pp !!! 0)) as HA.
        split; [lra|]. split; [lra|lia].
Qed.

(** ** A tick without force of infection *)

Lemma sum_upto_zero (n : nat) (f : nat -> Q) :
  (forall j, (f j == 0)%Q) -> (sum_upto n f == 0)%Q.
Proof.
  intros Hf. unfold sum_upto.
  apply (foldl_seq_inv (fun (k : nat) (s : Q) => (s == 0)%Q)); [reflexivity|].
  intros k s _ Hs. rewrite Hs, (Hf k). reflexivity.
Qed.

Lemma force_of_infection_zero P pindex inf a :
  (forall a0 b, (cm (pop P !!! pindex) a0 b == 0)%Q) ->
  (force_of_infection P pindex inf !!! a == 0)%Q.
Proof.
  intros Hcm. destruct (decide (a < length inf)) as [Ha|Ha].
  - rewrite force_of_infection_entries by exact Ha.
    apply sum_upto_zero. intros b. rewrite Hcm. ring.
  - rewrite lookup_total_out_of_range; [reflexivity|].
    rewrite force_of_infection_length. lia.
Qed.

Lemma builtin_states_zero_force P a pp Rand :
  (forall x, (x == 0)%Q -> (exp x == 1)%Q) ->
  (forall r n pr, (pr == 0)%Q -> (Rand_Binomial r n pr).1 = 0%N) ->
  (lambda pp !!! a == 0)%Q ->
  (nS_E (builtin_states P a (pp, Rand)).1.1 == 0)%Q.
Proof.
  intros Hexp Hbin Hlam. rewrite builtin_states_eq. cbn [fst snd nS_E].
  assert (Hpr : (1 - exp (- (lambda pp !!! a) * time_step P) == 0)%Q).
  { rewrite Hexp; [ring|]. rewrite Hlam. ring. }
  unfold binomial. destruct (deterministic P); cbn [fst].
  - rewrite Hpr. ring.
  - specialize (Hbin Rand (S_ pp !!! a) _ Hpr).
    destruct (Rand_Binomial Rand _ _) as [k r]. simpl in *. rewrite Hbin. reflexivity.
Qed.

Lemma tick_age_S P t pp Rand rep a :
  S_ (tick_age P t (pp, Rand, rep) a).1.1
  = <[a := (S_ pp !!! a - nS_E (builtin_states P a (pp, Rand)).1.1)%Q]> (S_ pp).
Proof.
  unfold tick_age.
  assert (HS : S_ (builtin_states P a (pp, Rand)).1.2
               = <[a := (S_ pp !!! a - nS_E (builtin_states P a (pp, Rand)).1.1)%Q]>
                   (S_ pp))
    by (rewrite builtin_states_eq; reflexivity).
  destruct (builtin_states P a (pp, Rand)) as [[fl pp1] Rand1]. simpl in HS.
  pose proof (seed_processes_core P a fl (mature_processes P a pp1) Rand1 (processes P))
    as Hcore.
  destruct (foldl (seed_process P a fl) _ _) as [pp3 Rand3]. simpl in *.
  rewrite mature_processes_core in Hcore. unfold core in Hcore.
  injection Hcore as _ HS3 _ _ _ _ _ _ _ _ _ _. rewrite HS3. exact HS.
Qed.

Lemma Population_Tick_zero_force P Rand t inf rep pp a :
  (forall x, (x == 0)%Q -> (exp x == 1)%Q) ->
  (forall r n pr, (pr == 0)%Q -> (Rand_Binomial r n pr).1 = 0%N) ->
  (forall a0 b, (cm (pop P !!! p pp) a0 b == 0)%Q) ->
  (S_ (Population_Tick P Rand t inf rep pp).1.1.2 !!! a == S_ pp !!! a)%Q.
Proof.
  intros Hexp Hbin Hcm. unfold Population_Tick.
  set (lam := force_of_infection P (p pp) inf).
  assert (Hfold : forall js,
            let st := foldl (tick_age P t) (set_lambda pp lam, Rand, rep) js in
            lambda st.1.1 = lam /\ (S_ st.1.1 !!! a == S_ pp !!! a)%Q).
  { intros js.
    apply (foldl_inv (fun st => lambda st.1.1 = lam /\ (S_ st.1.1 !!! a == S_ pp !!! a)%Q)).
    - split; reflexivity.
    - intros [[s r] rp] a0 _ [Hl HS]. simpl in *.
      destruct (tick_age_lambda P t s r rp a0) as [Hl' _].
      split; [congruence|]. rewrite tick_age_S, list_lookup_total_insert.
      destruct (decide (a0 = a /\ a0 < length (S_ s))) as [[-> _]|_]; [|exact HS].
      rewrite builtin_states_zero_force; try assumption.
      + rewrite HS. ring.
      + rewrite Hl. apply force_of_infection_zero. exact Hcm. }
  specialize (Hfold (seq 0 (length (lambda (set_lambda pp lam))))).
  destruct (foldl (tick_age P t) _ _) as [[pp1 r1] rep1]. apply Hfold.
Qed.

(** C4 (as the code has it).  A seed event is one entry of [seed_times] and
    carries no count.  In stochastic mode it moves one individual from S to
    E in the first age group that the multinomial draw of one individual over
    the age weights counts; in deterministic mode it moves [weights[a]]
    individuals in every age group [a].  Ten individuals at [t] are ten seed
    events due at [t]: with one age group they leave S lower by [k = 10] and
    E higher by [k] when the transitions of the tick start, and a tick
    without force of infection leaves S at that value. *)
Theorem seeding_per_event P :
  (deterministic P = false ->
   forall pp Rand a,
     let d := dist_seed_ages (pop P !!! p pp) in
     let draw := Rand_Multinomial Rand 1 (weights d) (storage d) in
     find (fun a0 => N.eqb (draw.1 !!! a0) 1) (seq 0 (length (S_ pp))) = Some a ->
     seed_event P (pp, Rand) = add P (pp, draw.2) a 1) /\
  (deterministic P = true ->
   forall pp Rand pp1 Rand1 a,
     length (E pp) = length (S_ pp) ->
     seed_event P (pp, Rand) = Ok (pp1, Rand1) ->
     a < length (S_ pp) ->
     let w := weights (dist_seed_ages (pop P !!! p pp)) !!! a in
     S_ pp1 !!! a = (S_ pp !!! a - w)%Q /\
     (Compartment_Size (E pp1 !!! a) == Compartment_Size (E pp !!! a) + w)%Q) /\
  (forall pp Rand t t0 k rest cg,
     length (S_ pp) = 1 -> length (E pp) = 1 ->
     seeds_one_into_first P (p pp) ->
     drop (seed_row pp) (seed_times (pop P !!! p pp)) = replicate k t0 ++ rest ->
     Qle_bool t0 t = true ->
     none_due t rest ->
     (inject_Z (Z.of_nat k) <= S_ pp !!! 0%nat)%Q ->
     exists pp2 Rand1 P2 cg1,
       Contagiousness P Rand t cg pp = Ok (pp2, Rand1, P2, cg1) /\
       (S_ pp2 !!! 0%nat == S_ pp !!! 0%nat - inject_Z (Z.of_nat k))%Q /\
       (Compartment_Size (E pp2 !!! 0%nat)
        == Compartment_Size (E pp !!! 0%nat) + inject_Z (Z.of_nat k))%Q /\
       seed_row pp2 = seed_row pp + k) /\
  (forall pp Rand t inf rep a,
     (forall x, (x == 0)%Q -> (exp x == 1)%Q) ->
     (forall r n pr, (pr == 0)%Q -> (Rand_Binomial r n pr).1 = 0%N) ->
     (forall a0 b, (cm (pop P !!! p pp) a0 b == 0)%Q) ->
     (S_ (Population_Tick P Rand t inf rep pp).1.1.2 !!! a == S_ pp !!! a)%Q).
Proof.
  split; [|split; [|split]].
  - intros Hdet pp Rand a d draw Hfind. unfold seed_event. rewrite Hdet.
    fold d. fold draw. destruct draw as [drawn r1]. simpl in *. rewrite Hfind.
    reflexivity.
  - intros Hdet pp Rand pp1 Rand1 a HlE Hrun Ha.
    exact (seed_event_deterministic P pp Rand pp1 Rand1 Hdet HlE Hrun a Ha).
  - intros pp Rand t t0 k rest cg HlS HlE Hone Hdrop Hdue Hrest Hk.
    destruct (seed_loop_single P t t0 k rest pp Rand HlS HlE Hone Hdue Hrest Hk)
      as (pp1 & Rand1 & Hloop & HS & HE & Hrow).
    unfold Contagiousness. rewrite Hdrop, Hloop. unfold mbind, result_bind.
    destruct (schedule_loop _ _ _ _) as [P1 row]. do 4 eexists.
    split; [reflexivity|]. simpl. split; [exact HS|]. split; [exact HE|exact Hrow].
  - intros pp Rand t inf rep a Hexp Hbin Hcm.
    apply Population_Tick_zero_force; assumption.
Qed.

End SeedEvents.

(** ** Reporting *)

Lemma foldl_flat_map {A B C : Type} (f : A -> B -> A) (g : C -> list B) (l : list C)
    (x : A) :
  foldl f x (flat_map g l) = foldl (fun y c => foldl f y (g c)) x l.
Proof.
  revert x. induction l as [|c l IH]; intros x; simpl; [reflexivity|].
  rewrite foldl_app. apply IH.
Qed.

Lemma foldl_map {A B C : Type} (f : A -> B -> A) (g : C -> B) (l : list C) (x : A) :
  foldl f x (map g l) = foldl (fun y c => f y (g c)) x l.
Proof. revert x. induction l as [|c l IH]; intros x; simpl; [reflexivity|apply IH]. Qed.

Lemma foldl_ext_in {A B : Type} (f g : A -> B -> A) (l : list B) (x : A) :
  (forall y b, f y b = g y b) -> foldl f x l = foldl g x l.
Proof.
  intros Hfg. revert x. induction l as [|b l IH]; intros x; simpl; [reflexivity|].
  rewrite Hfg. apply IH.
Qed.

Lemma Forall_flat_map_intro {A B : Type} (Q0 : B -> Prop) (g : A -> list B) (l : list A) :
  (forall x, x ∈ l -> Forall Q0 (g x)) -> Forall Q0 (flat_map g l).
Proof.
  induction l as [|x l IH]; intros Hall; simpl; [constructor|].
  apply Forall_app. split; [apply Hall; left|].
  apply IH. intros y Hy. apply Hall. right. exact Hy.
Qed.

Lemma Forall_map_seq {B : Type} (Q0 : B -> Prop) (g : nat -> B) (n : nat) :
  (forall i, i < n -> Q0 (g i)) -> Forall Q0 (map g (seq 0 n)).
Proof.
  intros Hall. apply Forall_forall. intros y Hy.
  apply list_elem_of_In, in_map_iff in Hy as (i & <- & Hi).
  apply in_seq in Hi. apply Hall. lia.
Qed.

Lemma for_each_inv_in {A B : Type} (Inv : A -> Prop) (body : A -> B -> result A)
    (xs : list B) (st st1 : A) :
  Inv st ->
  (forall s b s1, b ∈ xs -> Inv s -> body s b = Ok s1 -> Inv s1) ->
  for_each body xs st = Ok st1 -> Inv st1.
Proof.
  intros H0 Hstep. revert st H0.
  induction xs as [|b xs IH]; simpl; intros st H0 Hrun.
  - injection Hrun as <-. exact H0.
  - destruct (body st b) as [s1|e] eqn:Hb; unfold mbind, result_bind in Hrun;
      [|discriminate].
    apply (IH (fun s c s2 Hc => Hstep s c s2 (proj2 (elem_of_cons xs c b) (or_intror Hc)))
              s1); [|exact Hrun].
    eapply Hstep; [left|exact H0|exact Hb].
Qed.

Lemma zeros_snoc (dat : list (list Q)) (n : nat) :
  zeros dat -> zeros (dat ++ [replicate n 0%Q]).
Proof.
  intros Hz c r. destruct (decide (c < length dat)) as [Hlt|Hge].
  - rewrite lookup_total_app_l by exact Hlt. apply Hz.
  - rewrite lookup_total_app_r by lia.
    destruct (c - length dat) as [|m]; simpl.
    + exact (@lookup_total_replicate_inhabitant Q _ n r).
    + rewrite lookup_total_nil. exact (@lookup_total_nil Q _ r).
Qed.

(** Appending the new column [n] to one of the column lists of the process
    being registered. *)
Lemma columns_ok_extend (n : nat) (done : list ProcessSpec) (pr pr' : ProcessSpec) :
  columns_ok n (done ++ [pr]) ->
  (forall c, c ∈ p_cols pr' -> c ∈ p_cols pr \/ c = n) ->
  (forall c, c ∈ i_cols pr' \/ c ∈ o_cols pr' ->
             c ∈ i_cols pr \/ c ∈ o_cols pr \/ c = n) ->
  ~ (n ∈ p_cols pr' /\ (n ∈ i_cols pr' \/ n ∈ o_cols pr')) ->
  9 <= n ->
  columns_ok (S n) (done ++ [pr']).
Proof.
  intros [Hbound Hdisj] Hp Hio Hnew Hn.
  assert (Hpr : pr ∈ done ++ [pr]) by (apply elem_of_app; right; left).
  assert (Hdone : forall x, x ∈ done -> x ∈ done ++ [pr])
    by (intros x Hx; apply elem_of_app; left; exact Hx).
  assert (Hp' : forall c, c ∈ p_cols pr' -> 9 <= c < n \/ c = n).
  { intros c Hc. destruct (Hp c Hc) as [Hold | ->]; [left|right; reflexivity].
    apply (Hbound pr c Hpr). tauto. }
  assert (Hio' : forall c, c ∈ i_cols pr' \/ c ∈ o_cols pr' -> 9 <= c < n \/ c = n).
  { intros c Hc. destruct (Hio c Hc) as [Hold|[Hold| ->]]; [left|left|right; reflexivity];
      apply (Hbound pr c Hpr); tauto. }
  split.
  - intros x c Hx Hc. apply elem_of_app in Hx as [Hx|Hx].
    + specialize (Hbound x c (Hdone x Hx) Hc). lia.
    + apply list_elem_of_singleton in Hx as ->.
      destruct Hc as [Hc|Hc]; [destruct (Hp' c Hc); lia|destruct (Hio' c Hc); lia].
  - intros x x' c Hx Hx' Hc Hc'.
    apply elem_of_app in Hx as [Hx|Hx]; apply elem_of_app in Hx' as [Hx'|Hx'];
      try (apply list_elem_of_singleton in Hx as ->);
      try (apply list_elem_of_singleton in Hx' as ->).
    + exact (Hdisj x x' c (Hdone x Hx) (Hdone x' Hx') Hc Hc').
    + destruct (Hio c Hc') as [Hold|[Hold| ->]].
      * exact (Hdisj x pr c (Hdone x Hx) Hpr Hc (or_introl Hold)).
      * exact (Hdisj x pr c (Hdone x Hx) Hpr Hc (or_intror Hold)).
      * specialize (Hbound x n (Hdone x Hx) (or_introl Hc)). lia.
    + destruct (Hp c Hc) as [Hold| ->].
      * exact (Hdisj pr x' c Hpr (Hdone x' Hx') Hold Hc').
      * assert (9 <= n < n); [|lia]. apply (Hbound x' n (Hdone x' Hx')). tauto.
    + destruct (Hp c Hc) as [Hold| ->].
      * destruct (Hio c Hc') as [Hold'|[Hold'| ->]].
        -- exact (Hdisj pr pr c Hpr Hpr Hold (or_introl Hold')).
        -- exact (Hdisj pr pr c Hpr Hpr Hold (or_intror Hold')).
        -- specialize (Hbound pr n Hpr (or_introl Hold)). lia.
      * apply Hnew. split; assumption.
Qed.

Section Reporting.
Context `{Ext : Externals}.

Lemma set_data_data rep : set_data rep (data rep) = rep.
Proof. destruct rep. reflexivity. Qed.

Lemma rep_set_write rep d t i a c v :
  rep_set (set_data rep d) t i a c v
  = set_data rep (apply_write d (Assign c (rep_row rep t i a) v)).
Proof. reflexivity. Qed.

Lemma rep_add_write rep d t i a c v :
  rep_add (set_data rep d) t i a c v
  = set_data rep (apply_write d (Accumulate c (rep_row rep t i a) v)).
Proof. reflexivity. Qed.

Lemma report_prevalence_writes P t a pp rep d :
  report_prevalence P t a pp (set_data rep d)
  = set_data rep
      (foldl apply_write d (prevalence_writes P (rep_row rep t (p pp) a) a pp)).
Proof.
  unfold report_prevalence, prevalence_writes.
  rewrite !rep_set_write, foldl_app, foldl_flat_map. cbn [foldl].
  generalize (apply_write
                (apply_write
                   (apply_write
                      (apply_write
                         (apply_write
                            (apply_write d (Assign 0 (rep_row rep t (p pp) a) (S_ pp !!! a)))
                            (Assign 1 (rep_row rep t (p pp) a)
                                    (Compartment_Size (E pp !!! a))))
                         (Assign 2 (rep_row rep t (p pp) a)
                                 (Compartment_Size (Ip pp !!! a))))
                      (Assign 3 (rep_row rep t (p pp) a)
                              (Compartment_Size (Is pp !!! a))))
                   (Assign 4 (rep_row rep t (p pp) a) (Compartment_Size (Ia pp !!! a))))
                (Assign 5 (rep_row rep t (p pp) a) (R pp !!! a))).
  induction (processes P) as [|process prs IH]; intros d0; simpl; [reflexivity|].
  rewrite <- IH. f_equal. rewrite foldl_map.
  generalize (seq 0 (length (p_cols process))). clear.
  intros js. revert d0. induction js as [|i js IH]; intros d0; simpl; [reflexivity|].
  rewrite rep_set_write. apply IH.
Qed.

Lemma report_incidence_writes P t a fl pp rep d :
  report_incidence P t a fl pp (set_data rep d)
  = set_data rep
      (foldl apply_write d (incidence_writes P (rep_row rep t (p pp) a) fl pp)).
Proof.
  unfold report_incidence, incidence_writes.
  rewrite !rep_add_write, foldl_app, foldl_flat_map. cbn [foldl].
  generalize (apply_write
                (apply_write
                   (apply_write d (Accumulate 6 (rep_row rep t (p pp) a) (nIp_Is fl)))
                   (Accumulate 7 (rep_row rep t (p pp) a) (n_reported fl)))
                (Accumulate 8 (rep_row rep t (p pp) a) (nE_Ia fl))).
  induction (processes P) as [|process prs IH]; intros d0; simpl; [reflexivity|].
  rewrite <- IH. f_equal. rewrite foldl_app, !foldl_map.
  assert (Hloop : forall (cols ids : list nat) (src : list Q) js d1,
            foldl (fun r1 i => rep_add r1 t (p pp) a (cols !!! i) (src !!! (ids !!! i)))
                  (set_data rep d1) js
            = set_data rep
                (foldl (fun y i => apply_write y
                                     (Accumulate (cols !!! i) (rep_row rep t (p pp) a)
                                                 (src !!! (ids !!! i))))
                       d1 js)).
  { intros cols ids src js. induction js as [|i js IHjs]; intros d1; simpl;
      [reflexivity|]. rewrite rep_add_write. apply IHjs. }
  rewrite Hloop, Hloop. reflexivity.
Qed.

(** The reporter after an iteration of the age loop is the reporter before
    it with the writes of the iteration applied; the rest of the state does
    not depend on the cells of the reporter. *)
Lemma tick_age_writes P t pp Rand rep d a :
  tick_age P t (pp, Rand, set_data rep d) a
  = ((tick_age P t (pp, Rand, rep) a).1,
     set_data rep (foldl apply_write d (age_writes P t rep (pp, Rand) a))).
Proof.
  unfold age_writes. cbn [fst].
  destruct (tick_age_lambda P t pp Rand rep a) as [_ Hp].
  unfold tick_age in *.
  destruct (builtin_states P a (pp, Rand)) as [[fl pp1] Rand1].
  destruct (foldl (seed_process P a fl) _ _) as [pp3 Rand3]. simpl in *.
  destruct (is_integer t).
  - rewrite report_prevalence_writes, report_incidence_writes, foldl_app, Hp.
    reflexivity.
  - rewrite report_incidence_writes, Hp. reflexivity.
Qed.

Lemma tick_ages_writes P t rep js pp Rand d :
  foldl (tick_age P t) (pp, Rand, set_data rep d) js
  = ((foldl (tick_age P t) (pp, Rand, rep) js).1,
     set_data rep (foldl apply_write d (tick_writes P t rep (pp, Rand) js))).
Proof.
  revert pp Rand d. induction js as [|a js IH]; intros pp Rand d.
  - reflexivity.
  - cbn [foldl tick_writes]. rewrite foldl_app, tick_age_writes.
    pose proof (tick_age_writes P t pp Rand rep (data rep) a) as Hrep.
    rewrite set_data_data in Hrep.
    destruct (tick_age P t (pp, Rand, rep) a) as [[pp' Rand'] rep'] eqn:Hta.
    cbn [fst] in *. injection Hrep as ->.
    rewrite IH. rewrite (IH pp' Rand' (foldl apply_write (data rep) _)).
    reflexivity.
Qed.

Lemma prevalence_writes_aligned P t rep n a pp :
  is_integer t = true -> a < n ->
  Forall (aligned_write P t rep (p pp) n)
         (prevalence_writes P (rep_row rep t (p pp) a) a pp).
Proof.
  intros Hint Ha.
  assert (Hrow : exists a0, a0 < n /\ rep_row rep t (p pp) a = rep_row rep t (p pp) a0)
    by (exists a; split; [exact Ha|reflexivity]).
  unfold prevalence_writes. apply Forall_app. split.
  - repeat constructor; try exact Hint; try (left; lia); exact Hrow.
  - apply Forall_flat_map_intro. intros process Hin.
    apply Forall_map_seq. intros i Hi. split; [exact Hint|]. split; [|exact Hrow].
    right. exists process. split; [exact Hin|].
    apply list_elem_of_lookup_total_2. exact Hi.
Qed.

Lemma incidence_writes_aligned P t rep n a i fl pp :
  a < n ->
  Forall (aligned_write P t rep i n) (incidence_writes P (rep_row rep t i a) fl pp).
Proof.
  intros Ha.
  assert (Hrow : exists a0, a0 < n /\ rep_row rep t i a = rep_row rep t i a0)
    by (exists a; split; [exact Ha|reflexivity]).
  unfold incidence_writes. apply Forall_app. split.
  - repeat constructor; try exact Hrow; unfold incidence_channel; tauto.
  - apply Forall_flat_map_intro. intros process Hin. apply Forall_app. split.
    + apply Forall_map_seq. intros k Hk. split; [|exact Hrow].
      right. right. right. exists process. split; [exact Hin|]. left.
      apply list_elem_of_lookup_total_2. exact Hk.
    + apply Forall_map_seq. intros k Hk. split; [|exact Hrow].
      right. right. right. exists process. split; [exact Hin|]. right.
      apply list_elem_of_lookup_total_2. exact Hk.
Qed.

Lemma tick_writes_aligned P t rep n js pp Rand :
  (forall a, a ∈ js -> a < n) ->
  Forall (aligned_write P t rep (p pp) n) (tick_writes P t rep (pp, Rand) js).
Proof.
  revert pp Rand. induction js as [|a js IH]; intros pp Rand Hjs; [constructor|].
  assert (Ha : a < n) by (apply Hjs; left).
  cbn [tick_writes]. apply Forall_app. split.
  - unfold age_writes. cbn [fst]. apply Forall_app. split.
    + destruct (is_integer t) eqn:Hint; [|constructor].
      apply prevalence_writes_aligned; assumption.
    + apply incidence_writes_aligned. exact Ha.
  - destruct (tick_age_lambda P t pp Rand rep a) as [_ Hp].
    destruct (tick_age P t (pp, Rand, rep) a) as [[pp' Rand'] rep']. simpl in *.
    rewrite <- Hp. apply IH. intros a' Ha'. apply Hjs. right. exact Ha'.
Qed.

(** The writes of a tick are aligned, and they are the writes that
    [Population::Tick] applies to the cells, whatever the cells hold. *)
Lemma population_writes_aligned P Rand t inf rep pp :
  Forall (aligned_write P t rep (p pp) (length inf)) (population_writes P Rand t inf rep pp).
Proof.
  unfold population_writes.
  apply (tick_writes_aligned P t rep (length inf) _ (set_lambda pp _) Rand).
  intros a Ha. apply list_elem_of_In, in_seq in Ha.
  rewrite force_of_infection_length in Ha. lia.
Qed.

Lemma population_writes_data P Rand t inf rep pp d :
  data (Population_Tick P Rand t inf (set_data rep d) pp).2
  = foldl apply_write d (population_writes P Rand t inf rep pp).
Proof.
  unfold population_writes, Population_Tick.
  set (lam := force_of_infection P (p pp) inf). cbn [lambda set_lambda].
  rewrite tick_ages_writes.
  destruct (foldl (tick_age P t) (set_lambda pp lam, Rand, rep) _) as [[pp1 r1] rep1].
  reflexivity.
Qed.

(** *** The columns that the constructor of the reporter hands out *)

Lemma Reporter_add_column_ok n_cells j done cols dat pr k cols' dat' pr' :
  Reporter_add_column n_cells j (cols, dat, pr) k = Ok (cols', dat', pr') ->
  columns_ok (length dat) (done ++ [pr]) -> zeros dat -> 9 <= length dat ->
  columns_ok (length dat') (done ++ [pr']) /\ zeros dat' /\ 9 <= length dat'.
Proof.
  unfold Reporter_add_column. intros Hrun Hok Hz Hn.
  assert (Hc : length (dat ++ [replicate n_cells 0%Q]) - 1 = length dat)
    by (rewrite length_app; simpl; lia).
  rewrite Hc in Hrun.
  assert (Hlen : length (dat ++ [replicate n_cells 0%Q]) = S (length dat))
    by (rewrite length_app; simpl; lia).
  assert (Hfresh : forall c, c ∈ p_cols pr \/ c ∈ i_cols pr \/ c ∈ o_cols pr ->
                             c <> length dat).
  { intros c Hin. destruct Hok as [Hbound _].
    specialize (Hbound pr c). rewrite elem_of_app, list_elem_of_singleton in Hbound.
    specialize (Hbound (or_intror eq_refl) Hin). lia. }
  destruct (Ascii.eqb _ "p"); [|destruct (Ascii.eqb _ "i"); [|destruct (Ascii.eqb _ "o")]];
    [| | |discriminate]; injection Hrun as <- <- <-; rewrite Hlen;
    (split; [|split; [apply zeros_snoc; exact Hz|lia]]);
    (apply (columns_ok_extend (length dat) done pr); [exact Hok| | | |exact Hn]); simpl;
    try (intros c Hin; rewrite ?elem_of_app, ?list_elem_of_singleton in Hin; tauto);
    intros [Hin1 Hin2]; rewrite ?elem_of_app, ?list_elem_of_singleton in Hin1, Hin2;
    pose proof (Hfresh (length dat)); tauto.
Qed.

Lemma Reporter_add_process_ok n_cells cols dat done pr cols' dat' done' :
  p_cols pr = [] /\ i_cols pr = [] /\ o_cols pr = [] ->
  Reporter_add_process n_cells (cols, dat, done) pr = Ok (cols', dat', done') ->
  columns_ok (length dat) done -> zeros dat -> 9 <= length dat ->
  columns_ok (length dat') done' /\ zeros dat' /\ 9 <= length dat'.
Proof.
  intros (Hp & Hi & Ho) Hrun [Hbound Hdisj] Hz Hn. unfold Reporter_add_process in Hrun.
  destruct (for_each _ (seq 0 (length (names pr))) (cols, dat, pr))
    as [[[cols1 dat1] pr1]|e] eqn:Hloop; rsimpl Hrun; [|discriminate].
  injection Hrun as <- <- <-.
  apply (for_each_inv
           (fun st : list string * list (list Q) * ProcessSpec =>
              columns_ok (length st.1.2) (done ++ [st.2]) /\ zeros st.1.2 /\
              9 <= length st.1.2)) in Hloop; [exact Hloop| |].
  - simpl. split; [|split; [exact Hz|exact Hn]]. split.
    + intros x c Hx Hc. apply elem_of_app in Hx as [Hx|Hx]; [exact (Hbound x c Hx Hc)|].
      apply list_elem_of_singleton in Hx as ->. rewrite Hp, Hi, Ho in Hc.
      rewrite !elem_of_nil in Hc. tauto.
    + intros x x' c Hx Hx' Hc Hc'.
      apply elem_of_app in Hx as [Hx|Hx]; apply elem_of_app in Hx' as [Hx'|Hx'];
        try (apply list_elem_of_singleton in Hx as ->);
        try (apply list_elem_of_singleton in Hx' as ->);
        rewrite ?Hp, ?Hi, ?Ho, ?elem_of_nil in Hc;
        rewrite ?Hp, ?Hi, ?Ho, ?elem_of_nil in Hc'; try tauto.
      exact (Hdisj x x' c Hx Hx' Hc Hc').
  - intros s j s1 Hs Hinner.
    apply (for_each_inv
             (fun st : list string * list (list Q) * ProcessSpec =>
                columns_ok (length st.1.2) (done ++ [st.2]) /\ zeros st.1.2 /\
                9 <= length st.1.2)) in Hinner; [exact Hinner|exact Hs|].
    intros [[c0 d0] p0] k [[c1 d1] p1] (Hok0 & Hz0 & Hn0) Hcol. simpl in *.
    eapply Reporter_add_column_ok; eauto.
Qed.

Lemma zeros_replicate (m n : nat) : zeros (replicate m (replicate n 0%Q)).
Proof.
  intros c r. destruct (decide (c < m)) as [Hlt|Hge].
  - rewrite lookup_total_replicate_2 by exact Hlt.
    exact (@lookup_total_replicate_inhabitant Q _ n r).
  - assert (Hlen : length (replicate m (replicate n 0%Q)) <= c)
      by (rewrite length_replicate; lia).
    rewrite (lookup_total_out_of_range _ c Hlen).
    exact (@lookup_total_nil Q _ r).
Qed.

(** Built from parameters without report columns, the reporter starts with
    every cell at zero, and no column that it hands out is both a prevalence
    column and an incidence or outcidence column. *)
Lemma Reporter_new_channels P full rep P1 :
  fresh_columns P ->
  Reporter_new P full = Ok (rep, P1) ->
  (forall c, prevalence_channel P1 c -> incidence_channel P1 c -> False) /\
  zeros (data rep).
Proof.
  intros Hfresh Hnew. unfold Reporter_new in Hnew.
  destruct (time_step_differs _); [discriminate|].
  destruct (for_each _ (processes P) _) as [[[cols dat] prs]|e] eqn:Hloop;
    rsimpl Hnew; [|discriminate].
  injection Hnew as <- <-. simpl.
  apply (for_each_inv_in
           (fun st : list string * list (list Q) * list ProcessSpec =>
              columns_ok (length st.1.2) st.2 /\ zeros st.1.2 /\ 9 <= length st.1.2))
    in Hloop.
  - simpl in Hloop. destruct Hloop as ([Hbound Hdisj] & Hz & _). split; [|exact Hz].
    intros c [Hlt|(pr & Hpr & Hc)] Hinc.
    + destruct Hinc as [->|[->|[->|(pr' & Hpr' & Hc')]]]; try lia.
      specialize (Hbound pr' c Hpr'). assert (9 <= c < length dat) by tauto. lia.
    + destruct Hinc as [->|[->|[->|(pr' & Hpr' & Hc')]]];
        try (specialize (Hbound pr _ Hpr (or_introl Hc)); lia).
      exact (Hdisj pr pr' c Hpr Hpr' Hc Hc').
  - cbn [fst snd]. rewrite length_replicate.
    split; [|split; [apply zeros_replicate|lia]].
    split; intros x; intros; exfalso; eapply elem_of_nil; eauto.
  - intros [[c0 d0] done] pr [[c1 d1] done1] Hin (Hok & Hz & Hn) Hstep. simpl in *.
    unfold fresh_columns in Hfresh. rewrite Forall_forall in Hfresh.
    eapply Reporter_add_process_ok; eauto.
Qed.

End Reporting.

(** ** The counts of the process compartments *)

Section Processes.
Context `{Ext : Externals}.

(** Maturing the compartments [l] of age [a] once each. *)
Lemma mature_compartments_counts a l pp :
  NoDup l ->
  (forall id, id ∈ l -> id < length (pco pp)) ->
  let pp1 := foldl (mature_compartment a) pp l in
  (forall id, id ∈ l ->
     pco pp1 !!! id = (Compartment_Mature ((pc pp !!! id) !!! a)).1) /\
  (forall id, id ∉ l -> pco pp1 !!! id = pco pp !!! id /\ pc pp1 !!! id = pc pp !!! id) /\
  length (pco pp1) = length (pco pp) /\
  pci pp1 = pci pp /\ nd_out pp1 = nd_out pp /\ ni_out pp1 = ni_out pp.
Proof.
  revert pp. induction l as [|id0 l IH]; intros pp Hnd Hlt; cbn [foldl].
  - repeat split. intros id Hin. apply elem_of_nil in Hin. contradiction.
  - apply NoDup_cons in Hnd as [Hid0 Hnd].
    set (pp0 := mature_compartment a pp id0).
    assert (Hpp0 : pco pp0 = <[id0 := (Compartment_Mature ((pc pp !!! id0) !!! a)).1]> (pco pp)
                   /\ (forall id, id <> id0 -> pc pp0 !!! id = pc pp !!! id)
                   /\ pci pp0 = pci pp /\ nd_out pp0 = nd_out pp /\ ni_out pp0 = ni_out pp).
    { subst pp0. unfold mature_compartment.
      destruct (Compartment_Mature ((pc pp !!! id0) !!! a)) as [m c1]. simpl.
      repeat split. intros id Hne. apply list_lookup_total_alter_ne. congruence. }
    destruct Hpp0 as (Hpco0 & Hpc0 & Hpci0 & Hnd0 & Hni0).
    destruct (IH pp0 Hnd) as (Hin & Hout & Hlen & Hpci & Hndo & Hnio).
    { intros id Hid. rewrite Hpco0, length_insert. apply Hlt. right. exact Hid. }
    split; [|split; [|split; [|split; [|split]]]].
    + intros id Hid. apply elem_of_cons in Hid as [->|Hid].
      * destruct (Hout id0 Hid0) as [-> _]. rewrite Hpco0.
        apply list_lookup_total_insert_eq. apply Hlt. left.
      * rewrite (Hin id Hid). rewrite Hpc0; [reflexivity|].
        intros ->. contradiction.
    + intros id Hid. rewrite not_elem_of_cons in Hid. destruct Hid as [Hne Hid].
      destruct (Hout id Hid) as [-> ->]. rewrite Hpco0.
      rewrite list_lookup_total_insert_ne by congruence. split; [reflexivity|].
      apply Hpc0. exact Hne.
    + rewrite Hlen, Hpco0. apply length_insert.
    + congruence.
    + congruence.
    + congruence.
Qed.

Lemma mature_processes_flat P a pp :
  mature_processes P a pp = foldl (mature_compartment a) pp (flat_map ids (processes P)).
Proof. unfold mature_processes. rewrite foldl_flat_map. reflexivity. Qed.

(** Seeding the compartments [l] of one process, from the counter [c0]. *)
Lemma seed_compartments_counts P a process l pp r c0 :
  NoDup l ->
  (forall id, id ∈ l -> id < length (pci pp)) ->
  let res := foldl (seed_compartment P a process) (pp, r, c0) l in
  (forall k, k < length l -> pci res.1.1 !!! (l !!! k) = nd_out pp !!! (c0 + k)) /\
  (forall id, id ∉ l -> pci res.1.1 !!! id = pci pp !!! id) /\
  length (pci res.1.1) = length (pci pp) /\
  pco res.1.1 = pco pp /\ nd_out res.1.1 = nd_out pp.
Proof.
  revert pp r c0. induction l as [|id0 l IH]; intros pp r c0 Hnd Hlt; cbn [foldl].
  - repeat split. intros k Hk. simpl in Hk. lia.
  - apply NoDup_cons in Hnd as [Hid0 Hnd].
    assert (Hstep : exists pp0 r0,
              seed_compartment P a process (pp, r, c0) id0 = (pp0, r0, c0 + 1) /\
              pci pp0 = <[id0 := nd_out pp !!! c0]> (pci pp) /\
              pco pp0 = pco pp /\ nd_out pp0 = nd_out pp).
    { unfold seed_compartment. destruct (Compartment_Add _ _ _ _ _) as [c1 r1].
      do 2 eexists. repeat split. }
    destruct Hstep as (pp0 & r0 & -> & Hpci0 & Hpco0 & Hnd0).
    destruct (IH pp0 r0 (c0 + 1) Hnd) as (Hin & Hout & Hlen & Hpco & Hndo).
    { intros id Hid. rewrite Hpci0, length_insert. apply Hlt. right. exact Hid. }
    split; [|split; [|split; [|split]]].
    + intros [|k] Hk; simpl in Hk.
      * rewrite Nat.add_0_r. cbn [lookup_total list_lookup_total].
        rewrite (Hout id0 Hid0), Hpci0.
        apply list_lookup_total_insert_eq. apply Hlt. left.
      * change ((id0 :: l) !!! S k) with (l !!! k).
        rewrite Hin by lia. rewrite Hnd0. f_equal. lia.
    + intros id Hid. rewrite not_elem_of_cons in Hid. destruct Hid as [Hne Hid].
      rewrite (Hout id Hid), Hpci0. apply list_lookup_total_insert_ne. congruence.
    + rewrite Hlen, Hpci0. apply length_insert.
    + congruence.
    + congruence.
Qed.

(** Seeding one process: every compartment [ids[c]] of it receives the count
    [nd_out[c]] of the split that the process draws. *)
Lemma seed_process_counts P a fl pp r process :
  NoDup (ids process) ->
  (forall id, id ∈ ids process -> id < length (pci pp)) ->
  let split :=
    multinomial P r (n_entering fl (pco pp) (source_id process)) (prob process !!! a)
                (nd_out pp) (ni_out pp) in
  let res := seed_process P a fl (pp, r) process in
  (forall c, c < length (ids process) ->
     pci res.1 !!! (ids process !!! c) = split.1.1 !!! c) /\
  (forall id, id ∉ ids process -> pci res.1 !!! id = pci pp !!! id) /\
  length (pci res.1) = length (pci pp) /\
  pco res.1 = pco pp.
Proof.
  intros Hnd Hlt split res. subst res split. unfold seed_process.
  destruct (multinomial _ _ _ _ _ _) as [[nd ni] r1]. cbn [fst snd].
  destruct (seed_compartments_counts P a process (ids process)
              (set_ni_out (set_nd_out pp nd) ni) r1 0 Hnd Hlt)
    as (Hin & Hout & Hlen & Hpco & _).
  split; [|split; [|split]].
  - intros c Hc. rewrite (Hin c Hc). reflexivity.
  - exact Hout.
  - exact Hlen.
  - exact Hpco.
Qed.

(** Seeding the processes [prs]: the compartments of other processes keep
    their entering counts, and no maturing count changes. *)
Lemma seed_processes_other P a fl prs pp r :
  (forall pr id, pr ∈ prs -> id ∈ ids pr -> id < length (pci pp)) ->
  Forall (fun pr => NoDup (ids pr)) prs ->
  let res := foldl (seed_process P a fl) (pp, r) prs in
  (forall id, id ∉ flat_map ids prs -> pci res.1 !!! id = pci pp !!! id) /\
  length (pci res.1) = length (pci pp) /\
  pco res.1 = pco pp.
Proof.
  revert pp r. induction prs as [|pr prs IH]; intros pp r Hlt Hnd; cbn [foldl].
  - repeat split.
  - apply Forall_cons in Hnd as [Hnd0 Hnd].
    destruct (seed_process P a fl (pp, r) pr) as [pp0 r0] eqn:Hstep.
    destruct (seed_process_counts P a fl pp r pr Hnd0) as (_ & Hout0 & Hlen0 & Hpco0).
    { intros id Hid. apply (Hlt pr id); [left|exact Hid]. }
    rewrite Hstep in Hout0, Hlen0, Hpco0. cbn [fst] in *.
    destruct (IH pp0 r0) as (Hout & Hlen & Hpco); [|exact Hnd|].
    { intros pr' id Hpr' Hid. rewrite Hlen0. apply (Hlt pr' id); [right|]; assumption. }
    split; [|split].
    + intros id Hid. cbn [flat_map] in Hid. rewrite elem_of_app in Hid.
      rewrite Hout by tauto. apply Hout0. tauto.
    + congruence.
    + congruence.
Qed.

Lemma NoDup_flat_map_each {A B : Type} (f : A -> list B) (l : list A) :
  NoDup (flat_map f l) -> Forall (fun x => NoDup (f x)) l.
Proof.
  induction l as [|x l IH]; intros Hnd; [constructor|].
  cbn [flat_map] in Hnd. apply NoDup_app in Hnd as (Hx & _ & Hl).
  constructor; [exact Hx|apply IH, Hl].
Qed.

Lemma multinomial_deterministic P r n pr nd ni c :
  deterministic P = true -> c < length pr ->
  (multinomial P r n pr nd ni).1.1 !!! c = (n * (pr !!! c))%Q.
Proof.
  intros Hdet Hc. unfold multinomial. rewrite Hdet. cbn [fst].
  rewrite (foldl_insert_seq (fun i => (n * (pr !!! i))%Q))
    by (rewrite length_resize; lia).
  destruct (decide (c < length pr)); [reflexivity|lia].
Qed.

(** The counts of one iteration: what [pco] and [pci] hold after it, and
    how the reporter after it is computed. *)
Lemma process_counts_iteration P t pp Rand rep a :
  NoDup (flat_map ids (processes P)) ->
  (forall id, id ∈ flat_map ids (processes P) ->
              id < length (pci pp) /\ id < length (pco pp)) ->
  let fl := (builtin_states P a (pp, Rand)).1.1 in
  let res := tick_age P t (pp, Rand, rep) a in
  let after := res.1.1 in
  (forall id, id ∈ flat_map ids (processes P) ->
     pco after !!! id = (Compartment_Mature ((pc pp !!! id) !!! a)).1) /\
  (forall pr c, pr ∈ processes P -> c < length (ids pr) ->
     exists r nd ni,
       pci after !!! (ids pr !!! c)
       = (multinomial P r (n_entering fl (pco after) (source_id pr))
                      (prob pr !!! a) nd ni).1.1 !!! c) /\
  (deterministic P = true ->
   forall pr c, pr ∈ processes P -> c < length (ids pr) ->
     c < length (prob pr !!! a) ->
     pci after !!! (ids pr !!! c)
     = (n_entering fl (pco after) (source_id pr) * ((prob pr !!! a) !!! c))%Q) /\
  (forall pr, pr ∈ processes P ->
     source_id pr ∉ [srcS; srcE; srcEp; srcEa; srcIp; srcIs; srcH; srcIa; srcI] ->
     source_id pr ∈ flat_map ids (processes P) ->
     n_entering fl (pco after) (source_id pr)
     = (Compartment_Mature ((pc pp !!! source_id pr) !!! a)).1) /\
  res.2 = report_incidence P t a fl after
            (if is_integer t then report_prevalence P t a pp rep else rep).
Proof.
  intros Hnd Hlt fl res after.
  pose proof (builtin_states_aux P a pp Rand) as Haux.
  subst after res fl. unfold tick_age.
  destruct (builtin_states P a (pp, Rand)) as [[fl pp1] Rand1]. cbn [fst snd] in *.
  unfold aux in Haux. injection Haux as _ _ _ _ Hpc1 Hpci1 Hpco1 _ _.
  set (pp2 := mature_processes P a pp1).
  destruct (mature_compartments_counts a (flat_map ids (processes P)) pp1 Hnd)
    as (Hmat & _ & Hlen2 & Hpci2 & _).
  { intros id Hid. rewrite Hpco1. apply Hlt, Hid. }
  rewrite <- mature_processes_flat in Hmat, Hlen2, Hpci2. fold pp2 in Hmat, Hlen2, Hpci2.
  assert (Hlt2 : forall pr id, pr ∈ processes P -> id ∈ ids pr -> id < length (pci pp2)).
  { intros pr id Hpr Hid. rewrite Hpci2, Hpci1. apply Hlt.
    apply list_elem_of_In, in_flat_map. exists pr.
    split; apply list_elem_of_In; assumption. }
  pose proof (NoDup_flat_map_each ids (processes P) Hnd) as Heach.
  destruct (seed_processes_other P a fl (processes P) pp2 Rand1 Hlt2 Heach)
    as (_ & _ & Hpco3).
  assert (Hpci : forall pr c, pr ∈ processes P -> c < length (ids pr) ->
            exists r nd ni,
              pci (foldl (seed_process P a fl) (pp2, Rand1) (processes P)).1
                  !!! (ids pr !!! c)
              = (multinomial P r (n_entering fl (pco pp2) (source_id pr))
                             (prob pr !!! a) nd ni).1.1 !!! c).
  { intros pr c Hpr Hc.
    destruct (list_elem_of_split _ _ Hpr) as (L1 & L2 & HL).
    rewrite HL in Hnd, Heach, Hlt2 |- *.
    rewrite flat_map_app in Hnd. cbn [flat_map] in Hnd.
    apply NoDup_app in Hnd as (_ & _ & Hnd).
    apply NoDup_app in Hnd as (Hndpr & Hdisj & _).
    apply Forall_app in Heach as [Heach1 Heach2].
    apply Forall_cons in Heach2 as [_ Heach2].
    rewrite foldl_app. cbn [foldl].
    destruct (foldl (seed_process P a fl) (pp2, Rand1) L1) as [ppk rk] eqn:Hk.
    destruct (seed_processes_other P a fl L1 pp2 Rand1) as (_ & Hlenk & Hpcok);
      [intros pr' id Hpr' Hid; apply (Hlt2 pr' id);
       [apply elem_of_app; left; exact Hpr'|exact Hid]|exact Heach1|].
    rewrite Hk in Hlenk, Hpcok. cbn [fst] in *.
    destruct (seed_process_counts P a fl ppk rk pr Hndpr) as (Hin & _ & Hlenp & _).
    { intros id Hid. rewrite Hlenk. apply (Hlt2 pr id); [|exact Hid].
      apply elem_of_app. right. left. }
    destruct (seed_process P a fl (ppk, rk) pr) as [ppn rn] eqn:Hn. cbn [fst] in *.
    destruct (seed_processes_other P a fl L2 ppn rn) as (Hout & _ & _);
      [|exact Heach2|].
    { intros pr' id Hpr' Hid. rewrite Hlenp, Hlenk. apply (Hlt2 pr' id); [|exact Hid].
      apply elem_of_app. right. right. exact Hpr'. }
    rewrite Hout.
    - rewrite (Hin c Hc), Hpcok. do 3 eexists. reflexivity.
    - apply Hdisj. apply list_elem_of_lookup_total_2. exact Hc. }
  destruct (foldl (seed_process P a fl) (pp2, Rand1) (processes P)) as [pp3 Rand3].
  cbn [fst snd] in *. rewrite Hpco3.
  split; [|split; [|split; [|split]]].
  - intros id Hid. rewrite (Hmat id Hid), Hpc1. reflexivity.
  - exact Hpci.
  - intros Hdet pr c Hpr Hc Hc'.
    destruct (Hpci pr c Hpr Hc) as (r & nd & ni & ->).
    apply multinomial_deterministic; assumption.
  - intros pr Hpr Hnamed Hsrc.
    repeat rewrite not_elem_of_cons in Hnamed.
    unfold n_entering.
    repeat match goal with
           | |- context [Nat.eqb ?x ?y] =>
               destruct (Nat.eqb_spec x y); [exfalso; tauto|]
           end.
    rewrite (Hmat _ Hsrc), Hpc1. reflexivity.
  - reflexivity.
Qed.

End Processes.

(** * The reference instance *)

(** The delay line keeps the contract of the compartment. *)
Lemma Reference_contract (obs : PopulationParameters -> Q -> bool) :
  @CompartmentContract (Reference.ext obs).
Proof.
  split.
  - reflexivity.
  - intros P r n d c. cbn [Compartment_Size Compartment_Add Reference.ext].
    unfold Reference.DelayLine_Add. destruct (deterministic P).
    + cbn [fst Reference.total]. reflexivity.
    + destruct (Reference.draw_multinomial r n (weights d) (storage d)) as [drawn r1].
      cbn [fst Reference.total]. reflexivity.
  - intros c. cbn [Compartment_Size Compartment_Mature Reference.ext].
    unfold Reference.DelayLine_Mature. cbn [fst snd Reference.total]. reflexivity.
Qed.

(** * Further properties of the engine *)

(** ** Rounding to double *)

Section Rounding.
Local Open Scope Q_scope.

Lemma round_half_even_exact (x : Q) (z : Z) : x == inject_Z z -> round_half_even x = z.
Proof.
  intros Hx. unfold round_half_even.
  assert (Hf : Qfloor x = z) by (rewrite Hx; apply Qfloor_Z).
  rewrite Hf.
  assert (H0 : (x - inject_Z z ?= 1 # 2) = Lt).
  { apply Qlt_alt. rewrite Hx. unfold Qminus. rewrite Qplus_opp_r. reflexivity. }
  rewrite H0. reflexivity.
Qed.

Lemma pow2_pos (e : Z) : 0 < 2 ^ e.
Proof. apply Qpower_0_lt. reflexivity. Qed.

Lemma pow2_neq (e : Z) : ~ 2 ^ e == 0.
Proof. apply Qnot_eq_sym, Qlt_not_eq, pow2_pos. Qed.

Lemma pow2_nat (k : Z) : (0 <= k)%Z -> 2 ^ k == inject_Z (2 ^ k).
Proof. intros Hk. rewrite Zpower_Qpower by exact Hk. reflexivity. Qed.

Lemma pow2_split (a b : Z) :
  (0 <= a)%Z -> (0 <= b)%Z -> 2 ^ (a - b) == inject_Z (2 ^ a) / inject_Z (2 ^ b).
Proof.
  intros Ha Hb. rewrite Qpower_minus by discriminate.
  rewrite (pow2_nat a Ha), (pow2_nat b Hb). reflexivity.
Qed.

Lemma pow2_lt_inv (a b : Z) : 2 ^ a < 2 ^ b -> (a < b)%Z.
Proof. intros H. apply (Qpower_lt_compat_l_inv 2); [exact H|reflexivity]. Qed.

Lemma Qmake_le_div (n : Z) (d : positive) (a b : Z) :
  (0 < b)%Z -> (a * Z.pos d <= n * b)%Z -> inject_Z a / inject_Z b <= n # d.
Proof.
  intros Hb H.
  assert (Hb' : 0 < inject_Z b) by (unfold Qlt; simpl; lia).
  apply Qle_shift_div_r; [exact Hb'|].
  unfold Qle, Qmult, inject_Z. cbn [Qnum Qden]. lia.
Qed.

Lemma Qmake_lt_div (n : Z) (d : positive) (a b : Z) :
  (0 < b)%Z -> (n * b < a * Z.pos d)%Z -> n # d < inject_Z a / inject_Z b.
Proof.
  intros Hb H.
  assert (Hb' : 0 < inject_Z b) by (unfold Qlt; simpl; lia).
  apply Qlt_shift_div_l; [exact Hb'|].
  unfold Qlt, Qmult, inject_Z. cbn [Qnum Qden]. lia.
Qed.

(** [binade] is the exponent of a positive rational. *)
Lemma binade_spec (x : Q) : 0 < x -> 2 ^ binade x <= x /\ x < 2 ^ (binade x + 1).
Proof.
  intros Hx. destruct x as [n d]. unfold binade. cbn [Qnum Qden].
  assert (Hn : (0 < n)%Z) by (unfold Qlt in Hx; simpl in Hx; lia).
  set (ln := Z.log2 n). set (ld := Z.log2 (Z.pos d)).
  assert (Hln : (0 <= ln)%Z) by apply Z.log2_nonneg.
  assert (Hld : (0 <= ld)%Z) by apply Z.log2_nonneg.
  destruct (Z.log2_spec n Hn) as [Hn1 Hn2]. fold ln in Hn1, Hn2.
  destruct (Z.log2_spec (Z.pos d) (Pos2Z.is_pos d)) as [Hd1 Hd2]. fold ld in Hd1, Hd2.
  assert (Hp1 : (0 < 2 ^ ln)%Z) by (apply Z.pow_pos_nonneg; lia).
  assert (Hp2 : (0 < 2 ^ ld)%Z) by (apply Z.pow_pos_nonneg; lia).
  destruct (Qle_bool (2 ^ (ln - ld)) (n # d)) eqn:Hb.
  - apply Qle_bool_iff in Hb. split; [exact Hb|].
    replace (ln - ld + 1)%Z with (Z.succ ln - ld)%Z by lia.
    rewrite pow2_split by lia. apply Qmake_lt_div; [exact Hp2|]. nia.
  - split.
    + replace (ln - ld - 1)%Z with (ln - Z.succ ld)%Z by lia.
      rewrite pow2_split by lia. apply Qmake_le_div; [lia|]. nia.
    + replace (ln - ld - 1 + 1)%Z with (ln - ld)%Z by lia.
      apply Qnot_le_lt. intros Hle. apply Qle_bool_iff in Hle. congruence.
Qed.

(** A number of at most 53 significant bits, above the smallest spacing, is
    a double: rounding leaves it as it is. *)
Lemma round_double_exact (x : Q) (m s : Z) :
  x == inject_Z m * 2 ^ s -> (Z.abs m < 2 ^ 53)%Z -> (-1074 <= s)%Z ->
  round_double x == x.
Proof.
  intros Hx Hm Hs. unfold round_double.
  destruct (Qeq_bool x 0) eqn:H0.
  { apply Qeq_bool_iff in H0. rewrite H0. reflexivity. }
  assert (Hx0 : ~ x == 0) by (intros H; apply Qeq_bool_iff in H; congruence).
  assert (Habs : 0 < Qabs x) by (apply Qabs_case; intros Hc; lra).
  destruct (binade_spec (Qabs x) Habs) as [Hlo _].
  set (e := binade (Qabs x)) in *.
  assert (He : (e <= s + 52)%Z).
  { assert (Hlt : 2 ^ e < 2 ^ (s + 53)).
    { eapply Qle_lt_trans; [exact Hlo|].
      rewrite Hx, Qabs_Qmult, (Qabs_pos (2 ^ s)) by (apply Qlt_le_weak, pow2_pos).
      rewrite Qpower_plus by discriminate.
      rewrite (Qmult_comm (2 ^ s)). apply Qmult_lt_compat_r; [apply pow2_pos|].
      rewrite pow2_nat by lia.
      assert (Hq : Qabs (inject_Z m) == inject_Z (Z.abs m)) by reflexivity.
      rewrite Hq. rewrite <- Zlt_Qlt. exact Hm. }
    apply pow2_lt_inv in Hlt. lia. }
  unfold quantum. fold e.
  set (s' := (Z.max e (-1022) - 52)%Z).
  assert (Hs' : (s' <= s)%Z) by (unfold s'; lia).
  assert (Hdiv : x / 2 ^ s' == inject_Z (m * 2 ^ (s - s'))).
  { rewrite Hx, inject_Z_mult, <- pow2_nat by lia.
    rewrite Qpower_minus by discriminate. field. apply pow2_neq. }
  rewrite (round_half_even_exact _ _ Hdiv).
  rewrite inject_Z_mult, <- pow2_nat by lia. rewrite Hx.
  rewrite Qpower_minus by discriminate. field. apply pow2_neq.
Qed.

(** The reciprocal of a power of two is computed exactly. *)
Lemma double_div_pow2 (y : Q) (k : Z) :
  y == 2 ^ k -> (-1023 <= k <= 1074)%Z ->
  exists r, double_div 1 y = Some r /\ r == 1 / y.
Proof.
  intros Hy Hk. unfold double_div.
  assert (Hy0 : Qeq_bool y 0 = false).
  { destruct (Qeq_bool y 0) eqn:H0; [|reflexivity].
    apply Qeq_bool_iff in H0. rewrite Hy in H0. destruct (pow2_neq k H0). }
  rewrite Hy0.
  assert (Hinv : 1 / y == inject_Z 1 * 2 ^ (- k)).
  { rewrite Hy, Qpower_opp. field. apply pow2_neq. }
  assert (Hr : round_double (1 / y) == 1 / y).
  { apply (round_double_exact _ 1 (- k) Hinv); lia. }
  assert (Hfin : Qle_bool (Qabs (round_double (1 / y))) max_double = true).
  { apply Qle_bool_iff. rewrite Hr, Hinv.
    change (inject_Z 1) with 1. rewrite Qmult_1_l.
    rewrite Qabs_pos by (apply Qlt_le_weak, pow2_pos).
    apply Qle_trans with (2 ^ 1023).
    - apply Qpower_le_compat_l; [lia|discriminate].
    - apply Qle_bool_iff. vm_compute. reflexivity. }
  cbv zeta. rewrite Hfin. eexists. split; [reflexivity|exact Hr].
Qed.

End Rounding.

(** ** The constructor of the reporter, entry by entry *)

Lemma find_app_case {A : Type} (f : A -> bool) (l1 l2 : list A) :
  find f (l1 ++ l2) = match find f l1 with Some x => Some x | None => find f l2 end.
Proof.
  induction l1 as [|x l1 IH]; simpl; [reflexivity|].
  destruct (f x); [reflexivity|exact IH].
Qed.

(** A loop over [l] whose body runs an inner loop over [sub b], which either
    throws at its first bad element or folds [g], is one such loop over the
    concatenation. *)
Lemma for_each_flat {A B C : Type} (Inv : A -> Prop) (body : A -> B -> result A)
    (sub : B -> list C) (g : A -> C -> A) (bad : C -> bool) (err : C -> exception)
    (l : list B) (st : A) :
  Inv st ->
  (forall s c, Inv s -> Inv (g s c)) ->
  (forall s b, Inv s ->
     body s b = match find bad (sub b) with
                | Some c => Throw (err c)
                | None => Ok (foldl g s (sub b))
                end) ->
  for_each body l st
  = match find bad (flat_map sub l) with
    | Some c => Throw (err c)
    | None => Ok (foldl g st (flat_map sub l))
    end.
Proof.
  intros H0 Hg Hbody. revert st H0.
  induction l as [|b l IH]; intros st H0; [reflexivity|].
  cbn [for_each flat_map]. rewrite find_app_case, foldl_app, (Hbody st b H0).
  destruct (find bad (sub b)) as [c|]; [reflexivity|].
  unfold mbind, result_bind. apply IH.
  apply (foldl_inv Inv); [exact H0|]. intros s c _ Hs. apply Hg. exact Hs.
Qed.

(** A loop throws only what its body throws. *)
Lemma for_each_throws {A B : Type} (Bad : exception -> Prop) (body : A -> B -> result A)
    (xs : list B) (st : A) (e : exception) :
  (forall s b e0, body s b = Throw e0 -> Bad e0) ->
  for_each body xs st = Throw e -> Bad e.
Proof.
  intros Hbody. revert st. induction xs as [|b xs IH]; simpl; intros st Hrun;
    [discriminate|].
  destruct (body st b) as [s1|e0] eqn:Hb; rsimpl Hrun.
  - eapply IH; eauto.
  - injection Hrun as <-. eapply Hbody; eauto.
Qed.

Lemma chars_seq (s : string) :
  map (char_at s) (seq 0 (String.length s)) = list_ascii_of_string s.
Proof.
  induction s as [|c s IH]; [reflexivity|].
  cbn [String.length seq map list_ascii_of_string]. f_equal.
  rewrite <- seq_shift, map_map. exact IH.
Qed.

Lemma flat_map_singleton {A B : Type} (f : A -> B) (l : list A) :
  flat_map (fun x => [f x]) l = map f l.
Proof. induction l as [|x l IH]; simpl; congruence. Qed.

(** One column of the constructor: the throw for an unknown report
    character, the update of the state otherwise. *)
Lemma Reporter_add_column_entry n j cols dat pr k :
  Reporter_add_column n j (cols, dat, pr) k
  = if unknown_entry (j, char_at (report pr !!! j) k)
    then Throw (unrecognized (j, char_at (report pr !!! j) k))
    else Ok (entry_update n (cols, dat, pr) (j, char_at (report pr !!! j) k)).
Proof.
  unfold Reporter_add_column, unknown_entry, known_kind, entry_update, unrecognized,
    with_columns, entry_name.
  fold (char_at (report pr !!! j) k). cbn [fst snd kind_cols kind_ids].
  assert (Hc : length (dat ++ [replicate n 0%Q]) - 1 = length dat)
    by (rewrite length_app; simpl; lia).
  rewrite Hc.
  destruct (Ascii.eqb_spec (char_at (report pr !!! j) k) "p") as [->|Hp].
  { cbn. rewrite !app_nil_r. reflexivity. }
  destruct (Ascii.eqb_spec (char_at (report pr !!! j) k) "i") as [->|Hi].
  { cbn. rewrite !app_nil_r. reflexivity. }
  destruct (Ascii.eqb_spec (char_at (report pr !!! j) k) "o") as [->|Ho].
  { cbn. rewrite !app_nil_r. reflexivity. }
  reflexivity.
Qed.

Lemma kind_cols_app kind start es1 es2 :
  kind_cols kind start (es1 ++ es2)
  = kind_cols kind start es1 ++ kind_cols kind (start + length es1) es2.
Proof.
  revert start. induction es1 as [|e es1 IH]; intros start; simpl.
  - rewrite Nat.add_0_r. reflexivity.
  - rewrite IH. replace (S start + length es1) with (start + S (length es1)) by lia.
    destruct (Ascii.eqb e.2 kind); reflexivity.
Qed.

Lemma kind_ids_app kind ids_ es1 es2 :
  kind_ids kind ids_ (es1 ++ es2) = kind_ids kind ids_ es1 ++ kind_ids kind ids_ es2.
Proof.
  induction es1 as [|e es1 IH]; simpl; [reflexivity|].
  rewrite IH. destruct (Ascii.eqb e.2 kind); reflexivity.
Qed.

Lemma with_columns_app pr start es1 es2 :
  with_columns (with_columns pr start es1) (start + length es1) es2
  = with_columns pr start (es1 ++ es2).
Proof.
  unfold with_columns. cbn [source_id names ids report prob delays
    p_cols p_ids i_cols i_ids o_cols o_ids].
  rewrite !kind_cols_app, !kind_ids_app, !app_assoc. reflexivity.
Qed.

Lemma entry_updates n cols dat pr es :
  foldl (entry_update n) (cols, dat, pr) es
  = (cols ++ map (entry_name pr) es, dat ++ replicate (length es) (replicate n 0%Q),
     with_columns pr (length dat) es).
Proof.
  induction es as [|e es IH] using rev_ind.
  - simpl. rewrite !app_nil_r. unfold with_columns. simpl. rewrite !app_nil_r.
    destruct pr; reflexivity.
  - rewrite foldl_app, IH. cbn [foldl]. unfold entry_update. cbn [fst snd].
    rewrite length_app, length_replicate, with_columns_app.
    rewrite map_app, length_app. cbn [map length].
    rewrite Nat.add_1_r, replicate_S_end, <- !app_assoc. reflexivity.
Qed.

Lemma Reporter_add_process_entries n cols dat done pr :
  Reporter_add_process n (cols, dat, done) pr
  = match find unknown_entry (report_entries pr) with
    | Some e => Throw (unrecognized e)
    | None =>
        Ok (cols ++ map (entry_name pr) (report_entries pr),
            dat ++ replicate (length (report_entries pr)) (replicate n 0%Q),
            done ++ [with_columns pr (length dat) (report_entries pr)])
    end.
Proof.
  unfold Reporter_add_process.
  rewrite (for_each_flat
             (fun st : list string * list (list Q) * ProcessSpec =>
                report st.2 = report pr)
             _ (fun j => map (pair j) (list_ascii_of_string (report pr !!! j)))
             (entry_update n) unknown_entry unrecognized).
  - fold (report_entries pr).
    destruct (find unknown_entry (report_entries pr)); [reflexivity|].
    rewrite entry_updates. reflexivity.
  - reflexivity.
  - intros s c Hs. exact Hs.
  - intros [[c0 d0] p0] j Hs. cbn [fst snd] in *. rewrite Hs.
    rewrite (for_each_flat
               (fun st : list string * list (list Q) * ProcessSpec =>
                  report st.2 = report pr)
               _ (fun k => [(j, char_at (report pr !!! j) k)])
               (entry_update n) unknown_entry unrecognized).
    + rewrite flat_map_singleton, <- (map_map (char_at (report pr !!! j)) (pair j)),
        chars_seq. reflexivity.
    + exact Hs.
    + intros s c Hs'. exact Hs'.
    + intros [[c1 d1] p1] k Hs'. cbn [fst snd] in *.
      rewrite Reporter_add_column_entry, Hs'. cbn [find foldl].
      destruct (unknown_entry _); reflexivity.
Qed.

Lemma Reporter_processes_entries n prs cols dat done :
  for_each (Reporter_add_process n) prs (cols, dat, done)
  = match find unknown_entry (flat_map report_entries prs) with
    | Some e => Throw (unrecognized e)
    | None =>
        Ok (cols ++ flat_map (fun pr => map (entry_name pr) (report_entries pr)) prs,
            dat ++ replicate (length (flat_map report_entries prs)) (replicate n 0%Q),
            done ++ place_columns (length dat) prs)
    end.
Proof.
  revert cols dat done. induction prs as [|pr prs IH]; intros cols dat done.
  - simpl. rewrite !app_nil_r. reflexivity.
  - cbn [for_each flat_map place_columns].
    rewrite Reporter_add_process_entries, find_app_case.
    destruct (find unknown_entry (report_entries pr)); [reflexivity|].
    unfold mbind, result_bind. rewrite IH.
    destruct (find unknown_entry (flat_map report_entries prs)); [reflexivity|].
    rewrite !length_app, length_replicate, replicate_add, <- !app_assoc.
    reflexivity.
Qed.

(** The constructor of the reporter as a function of the parameters. *)
Lemma Reporter_new_eq P full :
  Reporter_new P full
  = if time_step_differs P then Throw time_step_error
    else
      match find unknown_entry (flat_map report_entries (processes P)) with
      | Some e => Throw (unrecognized e)
      | None =>
          Ok ({| active := full; t0 := time0 P;
                 n_times := wrap32 (uint_of_Q (time1 P - time0 P) + 1);
                 n_populations := N.of_nat (length (pop P));
                 n_age_groups := N.of_nat (length (size (pop P !!! 0)));
                 col_names :=
                   builtin_names
                   ++ flat_map (fun pr => map (entry_name pr) (report_entries pr))
                               (processes P);
                 data :=
                   replicate (9 + length (flat_map report_entries (processes P)))
                             (replicate (column_cells P) 0%Q) |},
              set_processes P (place_columns 9 (processes P)))
      end.
Proof.
  unfold Reporter_new. destruct (time_step_differs _); [reflexivity|].
  cbv zeta. rewrite Reporter_processes_entries.
  destruct (find unknown_entry _); [reflexivity|].
  unfold mbind, result_bind. rewrite length_replicate, replicate_add.
  reflexivity.
Qed.

Lemma Reporter_new_Ok P full rep P1 :
  Reporter_new P full = Ok (rep, P1) ->
  rep = {| active := full; t0 := time0 P;
           n_times := wrap32 (uint_of_Q (time1 P - time0 P) + 1);
           n_populations := N.of_nat (length (pop P));
           n_age_groups := N.of_nat (length (size (pop P !!! 0)));
           col_names :=
             builtin_names
             ++ flat_map (fun pr => map (entry_name pr) (report_entries pr))
                         (processes P);
           data :=
             replicate (9 + length (flat_map report_entries (processes P)))
                       (replicate (column_cells P) 0%Q) |} /\
  P1 = set_processes P (place_columns 9 (processes P)).
Proof.
  rewrite Reporter_new_eq. destruct (time_step_differs _); [discriminate|].
  destruct (find unknown_entry _); [discriminate|].
  intros Heq. injection Heq as <- <-. split; reflexivity.
Qed.

(** X1. The constructor of the reporter throws its logic error exactly when
    [time_step] differs from the double [1. / report_every], whatever the
    processes are: the check comes first, and no other logic error leaves the
    constructor.  A [report_every] of zero always throws, the quotient being
    an infinity.  For a [report_every] that is a power of two the quotient is
    exact, and the constructor throws exactly when [time_step * report_every]
    is not 1. *)
Theorem Reporter_new_time_step P full :
  (Reporter_new P full
   = Throw (logic_error
              "TODO: PopulationReporter requires P.time_step = 1 / P.report_every.")
   <-> time_step_differs P = true) /\
  (forall what,
     Reporter_new P full = Throw (logic_error what) ->
     what = "TODO: PopulationReporter requires P.time_step = 1 / P.report_every.") /\
  ((report_every P == 0)%Q ->
   Reporter_new P full
   = Throw (logic_error
              "TODO: PopulationReporter requires P.time_step = 1 / P.report_every.")) /\
  (forall k : Z,
     (-1023 <= k <= 1074)%Z -> (report_every P == 2 ^ k)%Q ->
     (Reporter_new P full
      = Throw (logic_error
                 "TODO: PopulationReporter requires P.time_step = 1 / P.report_every.")
      <-> ~ (time_step P * report_every P == 1)%Q)).
Proof.
  assert (Hiff : Reporter_new P full = Throw time_step_error
                 <-> time_step_differs P = true).
  { rewrite Reporter_new_eq. destruct (time_step_differs P).
    - split; reflexivity.
    - destruct (find unknown_entry _); split; discriminate. }
  unfold time_step_error in Hiff.
  split; [exact Hiff|]. split; [|split].
  - intros what. rewrite Reporter_new_eq. unfold time_step_error.
    destruct (time_step_differs P).
    + intros Heq. injection Heq as <-. reflexivity.
    + destruct (find unknown_entry _); discriminate.
  - intros Hre. apply Hiff. unfold time_step_differs, double_div.
    apply Qeq_bool_iff in Hre. rewrite Hre. reflexivity.
  - intros k Hk Hre. rewrite Hiff. unfold time_step_differs.
    destruct (double_div_pow2 (report_every P) k Hre Hk) as (r & -> & Hr).
    assert (Hre0 : ~ (report_every P == 0)%Q).
    { rewrite Hre. apply pow2_neq. }
    assert (Heq : (time_step P == r)%Q <-> (time_step P * report_every P == 1)%Q).
    { rewrite Hr. split; intros H.
      - rewrite H. field. exact Hre0.
      - rewrite <- H. field. exact Hre0. }
    destruct (Qeq_bool (time_step P) r) eqn:Hb; cbn [negb].
    + apply Qeq_bool_iff, Heq in Hb. split; [discriminate|]. intros Hne. contradiction.
    + split; [|reflexivity]. intros _ H. apply Heq, Qeq_bool_iff in H. congruence.
Qed.

(** X2. When the time step passes the check, the constructor of the reporter
    returns exactly when every report character of every sub-process is [p],
    [i] or [o]; otherwise it throws the runtime error that names the first
    character, in the order of processes, sub-processes and characters, that
    is none of them. *)
Theorem Reporter_new_report_kinds P full :
  time_step_differs P = false ->
  match find (fun e => negb (known_kind e.2)) (flat_map report_entries (processes P)) with
  | Some e =>
      Reporter_new P full
      = Throw (runtime_error
                 (String.append "Unrecognized process report type " (String e.2 ".")))
  | None => exists rep P1, Reporter_new P full = Ok (rep, P1)
  end.
Proof.
  intros Hts. rewrite Reporter_new_eq, Hts.
  change (fun e : nat * ascii => negb (known_kind e.2)) with unknown_entry.
  destruct (find unknown_entry _) as [e|]; [reflexivity|].
  eexists _, _. reflexivity.
Qed.

Lemma entry_names_length prs :
  length (flat_map (fun pr => map (entry_name pr) (report_entries pr)) prs)
  = length (flat_map report_entries prs).
Proof.
  induction prs as [|pr prs IH]; [reflexivity|].
  cbn [flat_map]. rewrite !length_app, length_map, IH. reflexivity.
Qed.

(** X3. The reporter that the constructor returns: [t0] is [time0], there
    are [(unsigned int)(time1 - time0) + 1] times, one population per entry of
    [P.pop] and the age groups of the first population; the nine built-in
    columns come first, every report character adds one column, there is one
    name per column, and every column has
    [n_times * n_populations * n_age_groups] cells (an [unsigned int]
    product), all zero. *)
Theorem Reporter_new_shape P full rep P1 :
  Reporter_new P full = Ok (rep, P1) ->
  active rep = full /\ t0 rep = time0 P /\
  n_times rep = wrap32 (uint_of_Q (time1 P - time0 P) + 1) /\
  n_populations rep = N.of_nat (length (pop P)) /\
  n_age_groups rep = N.of_nat (length (size (pop P !!! 0))) /\
  length (col_names rep) = length (data rep) /\
  take 9 (col_names rep)
  = ["S"; "E"; "Ip"; "Is"; "Ia"; "R"; "cases"; "cases_reported"; "subclinical"] /\
  data rep
  = replicate (9 + length (flat_map report_entries (processes P)))
      (replicate
         (N.to_nat (wrap32 (n_times rep * n_populations rep * n_age_groups rep)))
         0%Q).
Proof.
  intros Hnew. apply Reporter_new_Ok in Hnew as [-> _].
  cbn [active t0 n_times n_populations n_age_groups col_names data].
  repeat split.
  rewrite length_replicate, length_app, entry_names_length. reflexivity.
Qed.

Lemma kind_ids_length kind ids_ start es :
  length (kind_ids kind ids_ es) = length (kind_cols kind start es).
Proof.
  revert start. induction es as [|e es IH]; intros start; simpl; [reflexivity|].
  destruct (Ascii.eqb e.2 kind); simpl; rewrite (IH (S start)); reflexivity.
Qed.

Lemma kind_cols_lookup kind ids_ start es i :
  i < length (kind_cols kind start es) ->
  exists q e, es !! q = Some e /\ e.2 = kind /\
    kind_cols kind start es !!! i = start + q /\
    kind_ids kind ids_ es !!! i = ids_ !!! e.1.
Proof.
  revert start i. induction es as [|e es IH]; intros start i Hi; simpl in *; [lia|].
  destruct (Ascii.eqb_spec e.2 kind) as [He|He].
  - destruct i as [|i].
    + exists 0, e. simpl. rewrite Nat.add_0_r. repeat split. exact He.
    + simpl in Hi. destruct (IH (S start) i) as (q & e' & Hq & Hk & Hc & Hid); [lia|].
      exists (S q), e'. simpl. rewrite Hc, Hid. repeat split; try assumption. lia.
  - destruct (IH (S start) i Hi) as (q & e' & Hq & Hk & Hc & Hid).
    exists (S q), e'. simpl. rewrite Hc, Hid. repeat split; try assumption. lia.
Qed.

Lemma report_entries_sub pr e : e ∈ report_entries pr -> e.1 < length (names pr).
Proof.
  unfold report_entries. intros Hin. apply list_elem_of_In, in_flat_map in Hin.
  destruct Hin as (j & Hj & Hin). apply in_map_iff in Hin as (ch & <- & _).
  apply in_seq in Hj. simpl. lia.
Qed.

Lemma place_columns_names (prs : list ProcessSpec) (L0 : list string) pr' :
  pr' ∈ place_columns (length L0) prs ->
  exists pr off,
    pr ∈ prs /\ pr' = with_columns pr off (report_entries pr) /\
    forall q e, report_entries pr !! q = Some e ->
      (L0 ++ flat_map (fun pr0 => map (entry_name pr0) (report_entries pr0)) prs)
        !! (off + q) = Some (entry_name pr e).
Proof.
  revert L0. induction prs as [|pr prs IH]; intros L0 Hin; simpl in Hin.
  - apply elem_of_nil in Hin. contradiction.
  - apply elem_of_cons in Hin as [->|Hin].
    + exists pr, (length L0). split; [left|]. split; [reflexivity|].
      intros q e Hq. cbn [flat_map].
      rewrite lookup_app_r by lia. replace (length L0 + q - length L0) with q by lia.
      rewrite lookup_app_l by (rewrite length_map; eapply lookup_lt_Some; eauto).
      rewrite list_lookup_fmap_Some. eauto.
    + specialize (IH (L0 ++ map (entry_name pr) (report_entries pr))).
      rewrite length_app, length_map in IH.
      destruct (IH Hin) as (pr0 & off & Hpr0 & Heq & Hnames).
      exists pr0, off. split; [right; exact Hpr0|]. split; [exact Heq|].
      intros q e Hq. cbn [flat_map]. rewrite app_assoc. apply Hnames. exact Hq.
Qed.

Lemma with_columns_named L pr off kind cols0 ids0 :
  (forall q e, report_entries pr !! q = Some e -> L !! (off + q) = Some (entry_name pr e)) ->
  cols0 = kind_cols kind off (report_entries pr) ->
  ids0 = kind_ids kind (ids pr) (report_entries pr) ->
  named_columns L (with_columns pr off (report_entries pr)) kind cols0 ids0.
Proof.
  intros Hnames -> ->. split; [apply kind_ids_length|].
  intros i Hi.
  destruct (kind_cols_lookup kind (ids pr) off (report_entries pr) i Hi)
    as (q & e & Hq & Hk & Hc & Hid).
  exists e.1. split; [|split].
  - apply report_entries_sub. eapply list_elem_of_lookup_2; eauto.
  - exact Hid.
  - rewrite Hc, (Hnames q e Hq). unfold entry_name. rewrite Hk. reflexivity.
Qed.

(** X4. Built from parameters whose processes hold no columns yet, the
    reporter and the processes agree: every column in [p_cols] of a process is
    paired, at the same index of [p_ids], with the compartment id [ids[j]] of
    one of its sub-processes [j], and the name of that column is
    [names[j] + "_p"]; likewise [i_cols] with [i_ids] and ["_i"], and [o_cols]
    with [o_ids] and ["_o"]. *)
Theorem Reporter_new_named_columns P full rep P1 pr :
  fresh_reports P ->
  Reporter_new P full = Ok (rep, P1) ->
  pr ∈ processes P1 ->
  named_columns (col_names rep) pr "p" (p_cols pr) (p_ids pr) /\
  named_columns (col_names rep) pr "i" (i_cols pr) (i_ids pr) /\
  named_columns (col_names rep) pr "o" (o_cols pr) (o_ids pr).
Proof.
  intros Hfresh Hnew Hin. apply Reporter_new_Ok in Hnew as [-> ->].
  cbn [processes set_processes col_names] in *.
  change 9 with (length builtin_names) in Hin.
  apply place_columns_names in Hin as (pr0 & off & Hpr0 & -> & Hnames).
  unfold fresh_reports in Hfresh. rewrite Forall_forall in Hfresh.
  destruct (Hfresh pr0 Hpr0) as (Hp & Hp' & Hi & Hi' & Ho & Ho').
  split; [|split]; apply with_columns_named; try exact Hnames;
    cbn [p_cols p_ids i_cols i_ids o_cols o_ids with_columns];
    rewrite ?Hp, ?Hi, ?Ho, ?Hp', ?Hi', ?Ho'; reflexivity.
Qed.

Lemma report_entries_with_columns pr start es :
  report_entries (with_columns pr start es) = report_entries pr.
Proof. reflexivity. Qed.

Lemma place_columns_twice start prs :
  Forall (fun pr => p_cols pr = [] /\ p_ids pr = [] /\ i_cols pr = [] /\
                    i_ids pr = [] /\ o_cols pr = [] /\ o_ids pr = []) prs ->
  Forall2 columns_doubled (place_columns start prs)
          (place_columns start (place_columns start prs)).
Proof.
  intros Hfresh. revert start.
  induction Hfresh as [|pr prs (Hp & Hp' & Hi & Hi' & Ho & Ho') _ IH]; intros start;
    cbn [place_columns]; constructor.
  - rewrite report_entries_with_columns. unfold columns_doubled, with_columns.
    cbn [p_cols p_ids i_cols i_ids o_cols o_ids ids].
    rewrite Hp, Hp', Hi, Hi', Ho, Ho'. repeat split.
  - rewrite report_entries_with_columns. apply IH.
Qed.

Lemma report_entries_placed start prs :
  flat_map report_entries (place_columns start prs) = flat_map report_entries prs.
Proof.
  revert start. induction prs as [|pr prs IH]; intros start; [reflexivity|].
  cbn [place_columns flat_map]. rewrite report_entries_with_columns, IH. reflexivity.
Qed.

Lemma entry_names_placed start prs :
  flat_map (fun pr => map (entry_name pr) (report_entries pr)) (place_columns start prs)
  = flat_map (fun pr => map (entry_name pr) (report_entries pr)) prs.
Proof.
  revert start. induction prs as [|pr prs IH]; intros start; [reflexivity|].
  cbn [place_columns flat_map]. rewrite IH. reflexivity.
Qed.

(** X5. The constructor of the reporter appends to the column lists of the
    processes of [P] and never clears them: a second reporter built from the
    parameters that the first one left is the same reporter, and every column
    list and id list of every process then holds its entries twice. *)
Theorem Reporter_new_twice P full rep P1 :
  fresh_reports P ->
  Reporter_new P full = Ok (rep, P1) ->
  exists P2,
    Reporter_new P1 full = Ok (rep, P2) /\
    Forall2 columns_doubled (processes P1) (processes P2).
Proof.
  intros Hfresh Hnew. pose proof Hnew as Hok.
  apply Reporter_new_Ok in Hok as [-> ->].
  exists (set_processes P (place_columns 9 (place_columns 9 (processes P)))).
  split.
  - rewrite Reporter_new_eq in Hnew |- *.
    cbn [time_step report_every processes set_processes time0 time1 pop].
    destruct (time_step_differs _); [discriminate|].
    rewrite report_entries_placed, entry_names_placed.
    destruct (find unknown_entry _); [discriminate|]. reflexivity.
  - cbn [processes set_processes]. apply place_columns_twice. exact Hfresh.
Qed.

(** ** The cells of the reporter *)

Lemma rep_row_set_data rep d t i a : rep_row (set_data rep d) t i a = rep_row rep t i a.
Proof. reflexivity. Qed.

(** X6. Reading a cell of the reporter after a write through [operator()]:
    after [rep(t, p, a, c) = v] the cell holds [v], after
    [rep(t, p, a, c) += v] it holds its value from before plus [v], and every
    cell of another column or another row holds what it held (for a column and
    a row that the data has). *)
Theorem rep_read_after_write rep t i a c v t' i' a' c' :
  c < length (data rep) ->
  rep_row rep t i a < length (data rep !!! c) ->
  rep_get (rep_set rep t i a c v) t' i' a' c'
  = (if decide (c' = c /\ rep_row rep t' i' a' = rep_row rep t i a) then v
     else rep_get rep t' i' a' c') /\
  rep_get (rep_add rep t i a c v) t' i' a' c'
  = (if decide (c' = c /\ rep_row rep t' i' a' = rep_row rep t i a)
     then (rep_get rep t i a c + v)%Q
     else rep_get rep t' i' a' c').
Proof.
  intros Hc Hrow. unfold rep_get, rep_set, rep_add.
  rewrite !rep_row_set_data. cbn [data set_data].
  destruct (decide (c' = c /\ rep_row rep t' i' a' = rep_row rep t i a)) as [[-> ->]|Hne].
  - rewrite !list_lookup_total_alter_eq by exact Hc.
    rewrite list_lookup_total_alter_eq by exact Hrow.
    rewrite list_lookup_total_insert_eq by exact Hrow. split; reflexivity.
  - destruct (decide (c' = c)) as [->|Hcne].
    + assert (Hr : rep_row rep t i a <> rep_row rep t' i' a') by (intros E0; apply Hne; auto).
      rewrite !list_lookup_total_alter_eq by exact Hc.
      rewrite list_lookup_total_insert_ne by exact Hr.
      rewrite list_lookup_total_alter_ne by exact Hr. split; reflexivity.
    + rewrite !list_lookup_total_alter_ne by (intros E0; apply Hcne; auto).
      split; reflexivity.
Qed.

Lemma wrap32_small (x : N) : (x < 4294967296)%N -> wrap32 x = x.
Proof. intros H. unfold wrap32. apply N.mod_small. exact H. Qed.

Lemma wrap32_le (x : N) : (wrap32 x <= x)%N.
Proof. unfold wrap32. apply N.Div0.mod_le. Qed.

Lemma row_bound (k i a nt np na : N) :
  (k < nt)%N -> (i < np)%N -> (a < na)%N ->
  ((k * np + i) * na + a < nt * np * na)%N /\
  (k * np * na + i * na + a = (k * np + i) * na + a)%N.
Proof.
  intros Hk Hi Ha.
  assert (H1 : (k * np + i + 1 <= nt * np)%N) by nia.
  assert (H2 : ((k * np + i + 1) * na <= nt * np * na)%N)
    by (apply N.mul_le_mono_r; exact H1).
  split; [|ring].
  apply N.lt_le_trans with ((k * np + i + 1) * na)%N; [|exact H2].
  rewrite (N.mul_add_distr_r _ 1). lia.
Qed.

(** The digits of a row: time index, population and age group. *)
Lemma row_digits (k i a k' i' a' np na : N) :
  (i < np)%N -> (i' < np)%N -> (a < na)%N -> (a' < na)%N ->
  ((k * np + i) * na + a = (k' * np + i') * na + a')%N ->
  k = k' /\ i = i' /\ a = a'.
Proof.
  intros Hi Hi' Ha Ha' Heq.
  assert (Ha2 : a = a').
  { assert (E0 : (((k * np + i) * na + a) mod na = ((k' * np + i') * na + a') mod na)%N)
      by (rewrite Heq; reflexivity).
    rewrite !(N.add_comm _ a), (N.add_comm _ a'), !N.Div0.mod_add, !N.mod_small in E0
      by assumption.
    exact E0. }
  subst a'.
  assert (Hq : (k * np + i = k' * np + i')%N) by nia.
  assert (Hi2 : i = i').
  { assert (E0 : ((k * np + i) mod np = (k' * np + i') mod np)%N)
      by (rewrite Hq; reflexivity).
    rewrite !(N.add_comm _ i), (N.add_comm _ i'), !N.Div0.mod_add, !N.mod_small in E0
      by assumption.
    exact E0. }
  subst i'. split; [nia|]. split; reflexivity.
Qed.

(** Without wrap-around, the row is [(k * np + i) * na + a]. *)
Lemma rep_row_value rep t i a :
  let k := uint_of_Q (t - t0 rep) in
  (n_times rep * n_populations rep * n_age_groups rep < 4294967296)%N ->
  (k < n_times rep)%N ->
  (N.of_nat i < n_populations rep)%N ->
  (N.of_nat a < n_age_groups rep)%N ->
  rep_row rep t i a
  = N.to_nat ((k * n_populations rep + N.of_nat i) * n_age_groups rep + N.of_nat a) /\
  ((k * n_populations rep + N.of_nat i) * n_age_groups rep + N.of_nat a
   < n_times rep * n_populations rep * n_age_groups rep)%N.
Proof.
  intros k Hfit Hk Hi Ha. unfold rep_row. fold k.
  destruct (row_bound k (N.of_nat i) (N.of_nat a) _ _ _ Hk Hi Ha) as (Hlt & Heq).
  split; [|exact Hlt].
  rewrite wrap32_small by lia. f_equal. exact Heq.
Qed.

(** X7. When [n_times * n_populations * n_age_groups] fits an
    [unsigned int], the row of a time index below [n_times], a population
    below [n_populations] and an age group below [n_age_groups] lies inside a
    column of that many cells, and two such cells share a row only if time
    index, population and age group are the same. *)
Theorem rep_row_injective rep t i a t' i' a' :
  (n_times rep * n_populations rep * n_age_groups rep < 4294967296)%N ->
  (uint_of_Q (t - t0 rep) < n_times rep)%N ->
  (uint_of_Q (t' - t0 rep) < n_times rep)%N ->
  (N.of_nat i < n_populations rep)%N -> (N.of_nat i' < n_populations rep)%N ->
  (N.of_nat a < n_age_groups rep)%N -> (N.of_nat a' < n_age_groups rep)%N ->
  rep_row rep t i a
  < N.to_nat (n_times rep * n_populations rep * n_age_groups rep) /\
  (rep_row rep t i a = rep_row rep t' i' a' <->
   uint_of_Q (t - t0 rep) = uint_of_Q (t' - t0 rep) /\ i = i' /\ a = a').
Proof.
  intros Hfit Hk Hk' Hi Hi' Ha Ha'.
  destruct (rep_row_value rep t i a Hfit Hk Hi Ha) as [Hv Hlt].
  destruct (rep_row_value rep t' i' a' Hfit Hk' Hi' Ha') as [Hv' Hlt'].
  cbv zeta in *. split; [rewrite Hv; lia|].
  split.
  - rewrite Hv, Hv'. intros Heq. apply N2Nat.inj in Heq.
    apply row_digits in Heq as (Hke & Hie & Hae); try assumption.
    split; [exact Hke|]. split; apply Nat2N.inj; assumption.
  - intros (Hke & -> & ->). unfold rep_row. rewrite Hke. reflexivity.
Qed.

Lemma rep_rows_distinct rep t i n :
  (n_times rep * n_populations rep * n_age_groups rep < 4294967296)%N ->
  (uint_of_Q (t - t0 rep) < n_times rep)%N ->
  (N.of_nat i < n_populations rep)%N ->
  (N.of_nat n <= n_age_groups rep)%N ->
  rows_distinct rep t i n.
Proof.
  intros Hfit Hk Hi Hn a1 a2 Ha1 Ha2 Heq.
  destruct (rep_row_value rep t i a1 Hfit Hk Hi) as [Hv1 _]; [lia|].
  destruct (rep_row_value rep t i a2 Hfit Hk Hi) as [Hv2 _]; [lia|].
  cbv zeta in *. rewrite Hv1, Hv2 in Heq. lia.
Qed.

(** *** The rows that the driver reaches *)

Lemma Qtrunc_nonneg (x : Q) : (0 <= x)%Q -> Qtrunc x = Qfloor x.
Proof.
  intros Hx. unfold Qtrunc, Qfloor. destruct x as [n d]. cbn [Qnum Qden].
  apply Z.quot_div_nonneg; [|lia].
  unfold Qle in Hx. simpl in Hx. lia.
Qed.





(** The test [t == (int)t] holds exactly for the whole numbers. *)
Lemma is_integer_iff (t : Q) : is_integer t = true <-> exists z : Z, (t == inject_Z z)%Q.
Proof.
  unfold is_integer. split.
  - intros H. apply Qeq_bool_iff in H. eauto.
  - intros [z Hz]. apply Qeq_bool_iff.
    assert (Ht : Qtrunc t = z).
    { unfold Qtrunc. unfold Qeq in Hz. simpl in Hz. rewrite Z.mul_1_r in Hz.
      rewrite Hz. apply Z.quot_mul. discriminate. }
    rewrite Ht. exact Hz.
Qed.

(** The offset of step [ts] when a day has [n] steps. *)
Lemma step_offset P ts (n : positive) :
  (time_step P == 1 / report_every P)%Q ->
  (report_every P == inject_Z (Z.pos n))%Q ->
  (step_time P ts - time0 P == Z.of_nat ts # n)%Q.
Proof.
  intros Hdt Hre. unfold step_time. rewrite Hdt, Hre.
  rewrite (Qmake_Qdiv (Z.of_nat ts) n). field.
  intros H. unfold Qeq in H. simpl in H. lia.
Qed.

(** [uint_of_Q] of a nonnegative number depends on its value only. *)
Lemma uint_of_Q_nonneg (x y : Q) : (x == y)%Q -> (0 <= y)%Q -> uint_of_Q x = uint_of_Q y.
Proof.
  intros Heq Hy. unfold uint_of_Q.
  rewrite !Qtrunc_nonneg by (rewrite ?Heq; exact Hy). rewrite Heq. reflexivity.
Qed.

(** On a grid of [2^k] steps per unit of time that starts at a whole time,
    the program rounds nothing: the product, the sum and the offset that it
    computes are the exact ones. *)
Lemma double_step_time_exact P ts (z0 : Z) (k : nat) :
  (time_step P == 2 ^ (- Z.of_nat k))%Q -> k <= 1074 ->
  (time0 P == inject_Z z0)%Q ->
  (Z.abs z0 * 2 ^ Z.of_nat k + Z.of_nat ts < 2 ^ 53)%Z ->
  (double_step_time P ts == step_time P ts)%Q /\
  (round_double (double_step_time P ts - time0 P) == step_time P ts - time0 P)%Q.
Proof.
  intros Hdt Hk Ht0 Hfit.
  set (p2 := (2 ^ Z.of_nat k)%Z) in *.
  assert (Hp2 : (0 < p2)%Z) by (apply Z.pow_pos_nonneg; lia).
  assert (Hunit : (inject_Z p2 * 2 ^ (- Z.of_nat k) == 1)%Q).
  { unfold p2. rewrite <- pow2_nat by lia. rewrite Qpower_opp. field. apply pow2_neq. }
  assert (Hprod : (round_double (inject_Z (Z.of_nat ts) * time_step P)
                   == inject_Z (Z.of_nat ts) * time_step P)%Q).
  { apply (round_double_exact _ (Z.of_nat ts) (- Z.of_nat k)); [|nia|lia].
    rewrite Hdt. reflexivity. }
  assert (Hsum : (time0 P + round_double (inject_Z (Z.of_nat ts) * time_step P)
                  == inject_Z (z0 * p2 + Z.of_nat ts) * 2 ^ (- Z.of_nat k))%Q).
  { rewrite Hprod, Ht0, Hdt, inject_Z_plus, inject_Z_mult.
    rewrite Qmult_plus_distr_l, <- Qmult_assoc, Hunit. ring. }
  assert (Hexact : (double_step_time P ts == step_time P ts)%Q).
  { unfold double_step_time, step_time.
    rewrite (round_double_exact _ _ _ Hsum); [rewrite Hprod; reflexivity| |lia].
    assert (Habs : (Z.abs (z0 * p2) = Z.abs z0 * p2)%Z)
      by (rewrite Z.abs_mul, (Z.abs_eq p2) by lia; reflexivity).
    lia. }
  split; [exact Hexact|].
  assert (Hoff : (double_step_time P ts - time0 P
                  == inject_Z (Z.of_nat ts) * 2 ^ (- Z.of_nat k))%Q).
  { rewrite Hexact. unfold step_time. rewrite Hdt. ring. }
  rewrite (round_double_exact _ _ _ Hoff); [|nia|lia].
  rewrite Hexact. reflexivity.
Qed.

(** X9. With [2^k] steps per unit of time (a time step that the constructor
    of the reporter accepts), a whole [time0] and times of at most 53 bits,
    the program computes the time of step [ts] without rounding: it is the
    exact time of the model.  The step passes the test [t == (int)t], on
    which prevalence is reported, exactly when [2^k] divides [ts]; and it
    reports into the time index [ts / 2^k], so the [2^k] steps of one unit of
    time share their rows. *)
Theorem report_grid P ts (z0 : Z) (k : nat) :
  time_step_differs P = false ->
  (report_every P == 2 ^ Z.of_nat k)%Q -> k <= 1074 ->
  (time0 P == inject_Z z0)%Q ->
  (Z.abs z0 * 2 ^ Z.of_nat k + Z.of_nat ts < 2 ^ 53)%Z ->
  (double_step_time P ts == step_time P ts)%Q /\
  (is_integer (double_step_time P ts) = true <-> (2 ^ Z.of_nat k | Z.of_nat ts)%Z) /\
  uint_of_Q (round_double (double_step_time P ts - time0 P))
  = wrap32 (N.of_nat ts / 2 ^ N.of_nat k).
Proof.
  intros Hchk Hre Hk Ht0 Hfit.
  assert (Hdt : (time_step P == 1 / report_every P)%Q).
  { unfold time_step_differs in Hchk.
    destruct (double_div_pow2 (report_every P) (Z.of_nat k) Hre) as (r & Hr & Hv); [lia|].
    rewrite Hr in Hchk. rewrite <- Hv.
    apply Qeq_bool_iff. destruct (Qeq_bool (time_step P) r); [reflexivity|discriminate]. }
  assert (Hdt2 : (time_step P == 2 ^ (- Z.of_nat k))%Q).
  { rewrite Hdt, Hre, Qpower_opp. field. apply pow2_neq. }
  destruct (double_step_time_exact P ts z0 k Hdt2 Hk Ht0 Hfit) as [Hexact Hround].
  set (p2 := (2 ^ Z.of_nat k)%Z) in *.
  assert (Hp2 : (0 < p2)%Z) by (apply Z.pow_pos_nonneg; lia).
  set (n := Z.to_pos p2).
  assert (Hn : Z.pos n = p2) by (unfold n; apply Z2Pos.id; exact Hp2).
  assert (Hre' : (report_every P == inject_Z (Z.pos n))%Q).
  { rewrite Hn, Hre. unfold p2. apply pow2_nat. lia. }
  pose proof (step_offset P ts n Hdt Hre') as Hoff.
  split; [exact Hexact|]. split.
  - rewrite is_integer_iff. split.
    + intros [z Hz].
      assert (Hq : (Z.of_nat ts # n == inject_Z (z - z0))%Q).
      { rewrite <- Hoff, <- Hexact, Hz, Ht0. unfold Zminus.
        rewrite inject_Z_plus, inject_Z_opp. ring. }
      exists (z - z0)%Z. unfold Qeq in Hq. simpl in Hq. lia.
    + intros [q Hq]. exists (z0 + q)%Z.
      assert (Hq' : (Z.of_nat ts # n == inject_Z q)%Q).
      { unfold Qeq. simpl. lia. }
      rewrite Hexact, inject_Z_plus, <- Ht0, <- Hq', <- Hoff. ring.
  - assert (Hnn : (0 <= Z.of_nat ts # n)%Q) by (unfold Qle; simpl; lia).
    rewrite (uint_of_Q_nonneg _ (Z.of_nat ts # n)); [|rewrite Hround; exact Hoff|exact Hnn].
    unfold uint_of_Q. f_equal. rewrite Qtrunc_nonneg by exact Hnn.
    unfold Qfloor. rewrite Z2N.inj_div by lia. f_equal; [lia|].
    rewrite Hn. unfold p2. rewrite Z2N.inj_pow by lia. f_equal. lia.
Qed.

Section Grid.
Local Open Scope Q_scope.

Lemma round_double_whole (x : Q) (z : Z) :
  x == inject_Z z -> (Z.abs z < 2 ^ 53)%Z -> round_double x == x.
Proof.
  intros Hx Hz. apply (round_double_exact x z 0); [|exact Hz|lia].
  rewrite Hx. change (2 ^ 0) with 1. ring.
Qed.

(** X27. On a grid of [2^k] steps per unit of time, with whole [time0] and
    [time1] and times of at most 53 bits, the program rounds nothing on the
    time grid: the number of steps that it computes is [time_steps], and for
    every step the time and the offset from [time0] that it computes are the
    exact ones of the model. *)
Theorem time_grid_exact P (z0 D : Z) (k : nat) :
  time_step P == 2 ^ (- Z.of_nat k) -> (k <= 1074)%nat ->
  time0 P == inject_Z z0 -> time1 P - time0 P == inject_Z D -> (0 <= D)%Z ->
  ((Z.abs z0 + D + 1) * 2 ^ Z.of_nat k < 2 ^ 53)%Z ->
  double_time_steps P = time_steps P /\
  forall ts, (N.of_nat ts < time_steps P)%N ->
    double_step_time P ts == step_time P ts /\
    uint_of_Q (round_double (double_step_time P ts - time0 P))
    = uint_of_Q (step_time P ts - time0 P).
Proof.
  intros Hdt Hk Ht0 HD H0 Hfit.
  set (p2 := (2 ^ Z.of_nat k)%Z) in *.
  assert (Hp2 : (1 <= p2)%Z).
  { unfold p2. change 1%Z with (2 ^ 0)%Z. apply Z.pow_le_mono_r; lia. }
  assert (Hdt0 : 0 < time_step P) by (rewrite Hdt; apply pow2_pos).
  assert (Ht1 : time1 P == inject_Z (z0 + D)).
  { rewrite inject_Z_plus, <- HD, <- Ht0. ring. }
  assert (Hq : (1 + time1 P - time0 P) / time_step P == inject_Z ((D + 1) * p2)).
  { rewrite Ht1, Ht0, Hdt, Qpower_opp, inject_Z_mult, !inject_Z_plus.
    unfold p2. rewrite <- pow2_nat by lia. change (inject_Z 1) with 1.
    field. apply pow2_neq. }
  assert (Hq0 : 0 <= inject_Z ((D + 1) * p2)).
  { change 0 with (inject_Z 0). rewrite <- Zle_Qle. nia. }
  assert (Hsteps : round_double (round_double (round_double (1 + time1 P) - time0 P)
                                 / time_step P)
                   == (1 + time1 P - time0 P) / time_step P).
  { assert (E1 : round_double (1 + time1 P) == 1 + time1 P).
    { apply (round_double_whole _ (1 + (z0 + D))); [|nia].
      rewrite Ht1, !inject_Z_plus. change (inject_Z 1) with 1. ring. }
    assert (E2 : round_double (round_double (1 + time1 P) - time0 P)
                 == 1 + time1 P - time0 P).
    { rewrite (round_double_whole _ (D + 1)); [rewrite E1; reflexivity| |nia].
      rewrite E1, Ht1, Ht0, !inject_Z_plus. change (inject_Z 1) with 1. ring. }
    rewrite (round_double_whole _ ((D + 1) * p2)); [rewrite E2; reflexivity| |nia].
    rewrite E2. exact Hq. }
  split.
  - unfold double_time_steps, time_steps. apply uint_of_Q_nonneg.
    + exact Hsteps.
    + rewrite Hq. exact Hq0.
  - intros ts Hts.
    assert (Hts' : (Z.of_nat ts < (D + 1) * p2)%Z).
    { unfold time_steps, uint_of_Q in Hts.
      pose proof (wrap32_le (Z.to_N (Qtrunc ((1 + time1 P - time0 P) / time_step P))))
        as Hw.
      rewrite Qtrunc_nonneg in Hts, Hw by (rewrite Hq; exact Hq0).
      rewrite Hq, Qfloor_Z in Hts, Hw. lia. }
    destruct (double_step_time_exact P ts z0 k Hdt Hk Ht0) as [Hexact Hround].
    { fold p2. nia. }
    split; [exact Hexact|].
    apply uint_of_Q_nonneg; [exact Hround|].
    unfold step_time.
    assert (Hn : 0 <= inject_Z (Z.of_nat ts)).
    { change 0 with (inject_Z 0). rewrite <- Zle_Qle. lia. }
    assert (E : time0 P + inject_Z (Z.of_nat ts) * time_step P - time0 P
                == inject_Z (Z.of_nat ts) * time_step P) by ring.
    rewrite E. apply Qmult_le_0_compat; [exact Hn|apply Qlt_le_weak, Hdt0].
Qed.

End Grid.

(** ** What a tick of a population keeps *)

Lemma map_length_alter {A : Type} (f : list A -> list A) (i : nat) (l : list (list A)) :
  (forall x, length (f x) = length x) ->
  map length (alter f i l) = map length l.
Proof.
  intros Hf. revert i. induction l as [|x l IH]; intros [|i]; simpl; try reflexivity.
  - rewrite Hf. reflexivity.
  - f_equal. apply IH.
Qed.

Section Shapes.
Context `{Ext : Externals}.

Lemma builtin_states_shape P a pp Rand :
  shape (builtin_states P a (pp, Rand)).1.2 = shape pp /\
  seed_row (builtin_states P a (pp, Rand)).1.2 = seed_row pp /\
  schedule_row (builtin_states P a (pp, Rand)).1.2 = schedule_row pp.
Proof.
  rewrite builtin_states_eq. unfold shape. cbn. rewrite !length_insert.
  repeat split.
Qed.

Lemma mature_compartment_shape a pp id :
  shape (mature_compartment a pp id) = shape pp.
Proof.
  unfold mature_compartment. destruct (Compartment_Mature _) as [m c1].
  unfold shape. cbn. rewrite length_insert, map_length_alter; [reflexivity|].
  intros x. apply length_insert.
Qed.

Lemma mature_processes_shape P a pp : shape (mature_processes P a pp) = shape pp.
Proof.
  unfold mature_processes.
  apply (foldl_inv (fun s => shape s = shape pp)); [reflexivity|].
  intros s process _ Hs.
  apply (foldl_inv (fun s1 => shape s1 = shape pp)); [exact Hs|].
  intros s1 id _ Hs1. rewrite mature_compartment_shape. exact Hs1.
Qed.

Lemma seed_compartment_shape P a process pp Rand c id :
  shape (seed_compartment P a process (pp, Rand, c) id).1.1 = shape pp.
Proof.
  unfold seed_compartment. destruct (Compartment_Add _ _ _ _ _) as [c1 r1].
  unfold shape. cbn. rewrite length_insert, map_length_alter; [reflexivity|].
  intros x. apply length_insert.
Qed.

Lemma seed_process_shape P a fl pp Rand process :
  shape (seed_process P a fl (pp, Rand) process).1 = shape pp.
Proof.
  unfold seed_process. destruct (multinomial _ _ _ _ _ _) as [[nd ni] r1].
  apply (foldl_inv (fun st => shape st.1.1 = shape pp)); [reflexivity|].
  intros [[s r] c] id _ Hs. rewrite seed_compartment_shape. exact Hs.
Qed.

Lemma seed_processes_shape P a fl pp Rand prs :
  shape (foldl (seed_process P a fl) (pp, Rand) prs).1 = shape pp.
Proof.
  apply (foldl_inv (fun st => shape st.1 = shape pp)); [reflexivity|].
  intros [s r] process _ Hs. rewrite seed_process_shape. exact Hs.
Qed.

Lemma tick_age_shape P t pp Rand rep a :
  let pp' := (tick_age P t (pp, Rand, rep) a).1.1 in
  shape pp' = shape pp /\ seed_row pp' = seed_row pp /\
  schedule_row pp' = schedule_row pp /\ p pp' = p pp /\ lambda pp' = lambda pp.
Proof.
  cbv zeta.
  destruct (tick_age_lambda P t pp Rand rep a) as [Hl Hp].
  unfold tick_age in *.
  destruct (builtin_states_shape P a pp Rand) as (Hsh & Hsr & Hsc).
  destruct (builtin_states P a (pp, Rand)) as [[fl pp1] Rand1]. cbn [fst snd] in *.
  pose proof (seed_processes_core P a fl (mature_processes P a pp1) Rand1 (processes P))
    as Hcore.
  pose proof (seed_processes_shape P a fl (mature_processes P a pp1) Rand1 (processes P))
    as Hshape.
  destruct (foldl (seed_process P a fl) _ _) as [pp3 Rand3]. cbn [fst snd] in *.
  rewrite mature_processes_core in Hcore. rewrite mature_processes_shape in Hshape.
  unfold core in Hcore.
  repeat split; try congruence.
Qed.

Lemma tick_ages_shape P t pp Rand rep js :
  let pp' := (foldl (tick_age P t) (pp, Rand, rep) js).1.1 in
  shape pp' = shape pp /\ seed_row pp' = seed_row pp /\
  schedule_row pp' = schedule_row pp /\ p pp' = p pp /\ lambda pp' = lambda pp.
Proof.
  cbv zeta.
  apply (foldl_inv (fun st : Population * Randomizer * Reporter =>
           shape st.1.1 = shape pp /\ seed_row st.1.1 = seed_row pp /\
           schedule_row st.1.1 = schedule_row pp /\ p st.1.1 = p pp /\
           lambda st.1.1 = lambda pp)).
  - repeat split.
  - intros [[s r] rp] a _ (H1 & H2 & H3 & H4 & H5). cbn [fst snd] in *.
    destruct (tick_age_shape P t s r rp a) as (G1 & G2 & G3 & G4 & G5).
    repeat split; congruence.
Qed.

(** The population after a tick is the population after the age loop. *)
Lemma Population_Tick_population P Rand t inf rep pp :
  let pp0 := set_lambda pp (force_of_infection P (p pp) inf) in
  (Population_Tick P Rand t inf rep pp).1.1.2
  = (foldl (tick_age P t) (pp0, Rand, rep) (seq 0 (length inf))).1.1.
Proof.
  cbv zeta. unfold Population_Tick. cbn [lambda set_lambda].
  rewrite force_of_infection_length.
  destruct (foldl (tick_age P t) _ _) as [[pp1 r1] rep1]. reflexivity.
Qed.

Lemma Population_Tick_rows P Rand t inf rep pp :
  shape (Population_Tick P Rand t inf rep pp).1.1.2 = shape pp /\
  p (Population_Tick P Rand t inf rep pp).1.1.2 = p pp.
Proof.
  rewrite Population_Tick_population.
  destruct (tick_ages_shape P t (set_lambda pp (force_of_infection P (p pp) inf))
                            Rand rep (seq 0 (length inf))) as (H1 & _ & _ & H4 & _).
  split; [exact H1|exact H4].
Qed.

(** X10. A tick of a population resizes none of its vectors (S, R, the
    compartments of the built-in chain, the process compartments, [pci] and
    [pco]), keeps its index [p] and its cursors [seed_row] and [schedule_row],
    and leaves [lambda] with one entry per entry of [infec]. *)
Theorem Population_Tick_shape P Rand t inf rep pp :
  let pp' := (Population_Tick P Rand t inf rep pp).1.1.2 in
  shape pp' = shape pp /\ p pp' = p pp /\ seed_row pp' = seed_row pp /\
  schedule_row pp' = schedule_row pp /\ length (lambda pp') = length inf.
Proof.
  cbv zeta. rewrite Population_Tick_population.
  destruct (tick_ages_shape P t (set_lambda pp (force_of_infection P (p pp) inf))
                            Rand rep (seq 0 (length inf))) as (H1 & H2 & H3 & H4 & H5).
  repeat split; try assumption.
  rewrite H5. cbn [lambda set_lambda]. apply force_of_infection_length.
Qed.

End Shapes.

(** ** The cells that a tick writes *)

Lemma apply_write_lengths d w : map length (apply_write d w) = map length d.
Proof.
  destruct w as [c row v|c row v]; simpl; apply map_length_alter; intros x.
  - apply length_insert.
  - apply length_alter.
Qed.

Lemma apply_write_column d w c :
  (write_cell w).1 <> c -> apply_write d w !!! c = d !!! c.
Proof.
  destruct w as [c0 row v|c0 row v]; simpl; intros Hne;
    apply list_lookup_total_alter_ne; exact Hne.
Qed.

Lemma apply_write_row d w c row :
  (write_cell w).2 <> row -> (apply_write d w !!! c) !!! row = (d !!! c) !!! row.
Proof.
  destruct w as [c0 row0 v|c0 row0 v]; simpl; intros Hne;
    rewrite list_lookup_total_alter; case_decide as Hc; try reflexivity;
    destruct Hc as [-> _].
  - apply list_lookup_total_insert_ne. exact Hne.
  - apply list_lookup_total_alter_ne. exact Hne.
Qed.

Lemma apply_write_cell_other d w c row :
  write_cell w <> (c, row) -> (apply_write d w !!! c) !!! row = (d !!! c) !!! row.
Proof.
  intros Hne. destruct (decide ((write_cell w).1 = c)) as [Hc|Hc].
  - apply apply_write_row. intros Hr. apply Hne.
    destruct (write_cell w) as [c0 r0]. simpl in *. congruence.
  - rewrite apply_write_column by exact Hc. reflexivity.
Qed.

Lemma apply_writes_lengths ws d : map length (foldl apply_write d ws) = map length d.
Proof.
  apply (foldl_inv (fun s => map length s = map length d)); [reflexivity|].
  intros s w _ Hs. rewrite apply_write_lengths. exact Hs.
Qed.

Lemma apply_writes_column ws d c :
  Forall (fun w => (write_cell w).1 <> c) ws -> foldl apply_write d ws !!! c = d !!! c.
Proof.
  intros Hws. revert d. induction Hws as [|w ws Hw _ IH]; intros d; [reflexivity|].
  cbn [foldl]. rewrite IH. apply apply_write_column. exact Hw.
Qed.

Lemma apply_writes_row ws d c row :
  Forall (fun w => (write_cell w).2 <> row) ws ->
  (foldl apply_write d ws !!! c) !!! row = (d !!! c) !!! row.
Proof.
  intros Hws. revert d. induction Hws as [|w ws Hw _ IH]; intros d; [reflexivity|].
  cbn [foldl]. rewrite IH. apply apply_write_row. exact Hw.
Qed.

Lemma apply_writes_cell_other ws d c row :
  Forall (fun w => write_cell w <> (c, row)) ws ->
  (foldl apply_write d ws !!! c) !!! row = (d !!! c) !!! row.
Proof.
  intros Hws. revert d. induction Hws as [|w ws Hw _ IH]; intros d; [reflexivity|].
  cbn [foldl]. rewrite IH. apply apply_write_cell_other. exact Hw.
Qed.

Lemma rep_row_header r1 r2 t i a : header r1 = header r2 -> rep_row r1 t i a = rep_row r2 t i a.
Proof.
  unfold header, rep_row. intros Heq. injection Heq as _ -> _ -> -> _ _. reflexivity.
Qed.

Section Frames.
Context `{Ext : Externals}.

(** Every write of the iteration of age [a] goes to the row of [a]. *)
Lemma age_writes_rows P t rep pp Rand a :
  Forall (fun w => (write_cell w).2 = rep_row rep t (p pp) a)
         (age_writes P t rep (pp, Rand) a).
Proof.
  unfold age_writes. cbn [fst snd]. apply Forall_app. split.
  - destruct (is_integer t); [|constructor].
    unfold prevalence_writes. apply Forall_app. split; [repeat constructor|].
    apply Forall_flat_map_intro. intros process _. apply Forall_map_seq.
    intros i _. reflexivity.
  - unfold incidence_writes. apply Forall_app. split; [repeat constructor|].
    apply Forall_flat_map_intro. intros process _.
    apply Forall_app. split; apply Forall_map_seq; intros i _; reflexivity.
Qed.

Lemma tick_writes_rows P t rep js pp Rand :
  Forall (fun w => exists a, a ∈ js /\ (write_cell w).2 = rep_row rep t (p pp) a)
         (tick_writes P t rep (pp, Rand) js).
Proof.
  revert pp Rand. induction js as [|a js IH]; intros pp Rand; [constructor|].
  cbn [tick_writes]. apply Forall_app. split.
  - eapply Forall_impl; [apply age_writes_rows|]. intros w Hw.
    exists a. split; [left|exact Hw].
  - destruct (tick_age_lambda P t pp Rand rep a) as [_ Hp].
    destruct (tick_age P t (pp, Rand, rep) a) as [[pp' Rand'] rep']. cbn [fst snd] in *.
    eapply Forall_impl; [apply IH|]. intros w (a' & Ha' & Hw).
    exists a'. split; [right; exact Ha'|]. rewrite <- Hp. exact Hw.
Qed.

(** The reporter after a tick of a population: the reporter before it with
    the writes of the tick applied to its cells. *)
Lemma Population_Tick_writes P Rand t inf rep pp :
  exists ws,
    (Population_Tick P Rand t inf rep pp).2 = set_data rep (foldl apply_write (data rep) ws) /\
    Forall (aligned_write P t rep (p pp) (length inf)) ws /\
    Forall (fun w => exists a, a < length inf /\
                               (write_cell w).2 = rep_row rep t (p pp) a) ws.
Proof.
  set (lam := force_of_infection P (p pp) inf).
  exists (tick_writes P t rep (set_lambda pp lam, Rand) (seq 0 (length lam))).
  split; [|split].
  - unfold Population_Tick. fold lam. cbn [lambda set_lambda].
    rewrite <- (set_data_data rep) at 1. rewrite tick_ages_writes.
    destruct (foldl (tick_age P t) (set_lambda pp lam, Rand, rep) _)
      as [[pp1 r1] rep1]. reflexivity.
  - exact (population_writes_aligned P Rand t inf rep pp).
  - eapply Forall_impl; [apply tick_writes_rows|]. intros w (a & Ha & Hw).
    exists a. split; [|exact Hw].
    apply list_elem_of_In, in_seq in Ha. unfold lam in Ha.
    rewrite force_of_infection_length in Ha. lia.
Qed.

Lemma Population_Tick_frame P Rand t inf rep pp :
  let rep' := (Population_Tick P Rand t inf rep pp).2 in
  header rep' = header rep /\
  forall c row, (forall a, a < length inf -> row <> rep_row rep t (p pp) a) ->
                (data rep' !!! c) !!! row = (data rep !!! c) !!! row.
Proof.
  cbv zeta.
  destruct (Population_Tick_writes P Rand t inf rep pp) as (ws & -> & _ & Hws).
  split.
  - unfold header. cbn [active t0 n_times n_populations n_age_groups col_names data
      set_data]. rewrite apply_writes_lengths. reflexivity.
  - intros c row Hrow. cbn [data set_data]. apply apply_writes_row.
    eapply Forall_impl; [exact Hws|]. intros w (a & Ha & Hw). cbv beta.
    rewrite Hw. apply not_eq_sym, Hrow. exact Ha.
Qed.

(** X11. A tick of population [p] at time [t] changes no member of the
    reporter but cells, resizes no column, and leaves every cell
    [rep(t', i', a', c)] as it was unless its row is the row of [(t, p, a)]
    for an age group [a] of the tick. *)
Theorem Population_Tick_report_frame P Rand t inf rep pp :
  let rep' := (Population_Tick P Rand t inf rep pp).2 in
  header rep' = header rep /\
  forall t' i' a' c,
    (forall a, a < length inf -> rep_row rep t' i' a' <> rep_row rep t (p pp) a) ->
    rep_get rep' t' i' a' c = rep_get rep t' i' a' c.
Proof.
  cbv zeta. destruct (Population_Tick_frame P Rand t inf rep pp) as [Hh Hcells].
  split; [exact Hh|].
  intros t' i' a' c Hrow. unfold rep_get.
  rewrite (rep_row_header _ rep _ _ _ Hh). apply Hcells. exact Hrow.
Qed.

(** X12. At a time that is not a whole number a tick of a population
    assigns nothing: the only columns it changes are incidence and outcidence
    channels.  At any time it leaves alone every column that is neither a
    prevalence channel nor an incidence or outcidence channel. *)
Theorem Population_Tick_columns_untouched P Rand t inf rep pp c :
  is_integer t = false \/ ~ prevalence_channel P c ->
  ~ incidence_channel P c ->
  data (Population_Tick P Rand t inf rep pp).2 !!! c = data rep !!! c.
Proof.
  intros Hprev Hinc.
  destruct (Population_Tick_writes P Rand t inf rep pp) as (ws & -> & Hws & _).
  cbn [data set_data]. apply apply_writes_column.
  eapply Forall_impl; [exact Hws|]. intros w Hw.
  destruct w as [c0 row0 v|c0 row0 v]; cbn [write_cell fst aligned_write] in *.
  - destruct Hw as (Hint & Hch & _). intros ->.
    destruct Hprev as [Hf|Hn]; [congruence|contradiction].
  - destruct Hw as (Hch & _). intros ->. contradiction.
Qed.

End Frames.

(** ** Seeding and scheduled changes, event by event *)

Lemma due_count_none t l : none_due t (drop (due_count t l) l).
Proof.
  induction l as [|x l IH]; simpl; [exact I|].
  destruct (Qle_bool x t) eqn:Hx; simpl; [exact IH|exact Hx].
Qed.

Section Cursors.
Context `{Ext : Externals}.

Lemma add_rows P pp Rand age n pp1 Rand1 :
  add P (pp, Rand) age n = Ok (pp1, Rand1) ->
  seed_row pp1 = seed_row pp /\ schedule_row pp1 = schedule_row pp /\
  shape pp1 = shape pp.
Proof.
  intros Hadd. apply add_Ok in Hadd as (_ & -> & _).
  unfold shape. cbn. rewrite !length_insert. repeat split.
Qed.

Lemma seed_event_rows P pp Rand pp1 Rand1 :
  seed_event P (pp, Rand) = Ok (pp1, Rand1) ->
  seed_row pp1 = seed_row pp /\ schedule_row pp1 = schedule_row pp /\
  shape pp1 = shape pp.
Proof.
  unfold seed_event. destruct (deterministic P).
  - intros Hrun.
    apply (for_each_inv
             (fun st : Population * Randomizer =>
                seed_row st.1 = seed_row pp /\ schedule_row st.1 = schedule_row pp /\
                shape st.1 = shape pp)) in Hrun; [exact Hrun|repeat split|].
    intros [s r] a [s1 r1] (H1 & H2 & H3) Hadd. cbn [fst] in *.
    apply add_rows in Hadd as (G1 & G2 & G3). repeat split; congruence.
  - destruct (Rand_Multinomial Rand 1 _ _) as [drawn r1].
    destruct (find _ _) as [a|].
    + apply add_rows.
    + intros Heq. injection Heq as <- <-. repeat split.
Qed.

Lemma seed_loop_rows P t next pp Rand pp1 Rand1 :
  seed_loop P t next (pp, Rand) = Ok (pp1, Rand1) ->
  seed_row pp1 = seed_row pp + due_count t next /\
  schedule_row pp1 = schedule_row pp /\ shape pp1 = shape pp.
Proof.
  revert pp Rand. induction next as [|ts rest IH]; simpl; intros pp Rand Hrun.
  - injection Hrun as <- <-. repeat split. lia.
  - destruct (Qle_bool ts t).
    + destruct (seed_event P (pp, Rand)) as [[pp' r']|e] eqn:Hev; rsimpl Hrun;
        [|discriminate].
      apply seed_event_rows in Hev as (H1 & H2 & H3).
      apply IH in Hrun as (G1 & G2 & G3). cbn in G1, G2.
      repeat split; try congruence; try lia.
      rewrite G3, <- H3. reflexivity.
    + injection Hrun as <- <-. repeat split. lia.
Qed.

(** The loop of scheduled changes applies the leading due entries in
    order. *)
Lemma schedule_loop_eq pindex t next P row :
  let k := due_count t (map sched_t next) in
  schedule_loop pindex t next (P, row)
  = (foldl (fun P0 e => Pop_Set P0 pindex (variable e) (value e)) P (take k next),
     row + k).
Proof.
  cbv zeta. revert P row. induction next as [|e rest IH]; intros P row; simpl.
  - f_equal. lia.
  - destruct (Qle_bool (sched_t e) t); simpl.
    + rewrite IH. f_equal. lia.
    + f_equal. lia.
Qed.

Lemma Contagiousness_shape P Rand t cg pp pp2 Rand1 P2 cg1 :
  Contagiousness P Rand t cg pp = Ok (pp2, Rand1, P2, cg1) ->
  shape pp2 = shape pp /\ p pp2 = p pp /\ length cg1 = length cg.
Proof.
  intros Hc.
  pose proof (Contagiousness_frame _ _ _ _ _ _ _ _ _ Hc) as (Hp & _).
  apply Contagiousness_Ok in Hc as (pp1 & Hseed & -> & _ & ->).
  apply seed_loop_rows in Hseed as (_ & _ & H3).
  split; [exact H3|]. split; [exact Hp|].
  apply (foldl_inv (fun s => length s = length cg)); [reflexivity|].
  intros s a _ Hs. rewrite length_insert. exact Hs.
Qed.

(** X13. A call of [Contagiousness] at time [t] consumes the seed events
    from [seed_row] on while they are due, in the order of the list: it
    advances [seed_row] by the number of leading due events, so that the next
    event, if any, is not due (an event listed behind one that is not due
    waits, whatever its own time).  It applies the leading due entries of the
    schedule in order, advances [schedule_row] by their number and then
    recalculates, also when no entry is due ([Set] being taken not to edit
    the schedule it is called from).  It resizes none of the vectors of the
    population nor [contag], and keeps the index [p]. *)
Theorem Contagiousness_cursors P Rand t cg pp pp2 Rand1 P2 cg1 :
  Contagiousness P Rand t cg pp = Ok (pp2, Rand1, P2, cg1) ->
  let q := pop P !!! p pp in
  let seeds := drop (seed_row pp) (seed_times q) in
  let changes := drop (schedule_row pp) (schedule q) in
  let k := due_count t (map sched_t changes) in
  seed_row pp2 = seed_row pp + due_count t seeds /\
  none_due t (drop (seed_row pp2) (seed_times q)) /\
  schedule_row pp2 = schedule_row pp + k /\
  P2 = Pop_Recalculate
         (foldl (fun P0 e => Pop_Set P0 (p pp) (variable e) (value e)) P (take k changes))
         (p pp) /\
  shape pp2 = shape pp /\ p pp2 = p pp /\ length cg1 = length cg.
Proof.
  intros Hc q seeds changes k.
  destruct (Contagiousness_shape _ _ _ _ _ _ _ _ _ Hc) as (Hshape & Hp & Hlen).
  apply Contagiousness_Ok in Hc as (pp1 & Hseed & -> & -> & _).
  apply seed_loop_rows in Hseed as (H1 & H2 & _).
  fold q in H1. fold seeds in H1. rewrite H2. fold q. fold changes.
  rewrite schedule_loop_eq. fold k. cbn [fst snd seed_row schedule_row set_schedule_row].
  split; [exact H1|]. split.
  { rewrite H1. unfold seeds. rewrite <- drop_drop. apply due_count_none. }
  split; [reflexivity|]. split; [reflexivity|]. split; [exact Hshape|].
  split; [exact Hp|exact Hlen].
Qed.

(** X14. When no seed event is due (the next seed time lies after [t], or
    every event has been consumed), [Contagiousness] throws nothing of its
    own, draws nothing from the generator and changes nothing of the
    population but its [schedule_row] ([Set], [Recalculate] and [Size], whose
    code is not part of the sources, are taken to return). *)
Theorem Contagiousness_quiet P Rand t cg pp :
  none_due t (drop (seed_row pp) (seed_times (pop P !!! p pp))) ->
  exists row P2 cg1,
    Contagiousness P Rand t cg pp = Ok (set_schedule_row pp row, Rand, P2, cg1).
Proof.
  intros Hnone. unfold Contagiousness.
  assert (Hseed : seed_loop P t (drop (seed_row pp) (seed_times (pop P !!! p pp)))
                            (pp, Rand) = Ok (pp, Rand)).
  { destruct (drop _ _) as [|ts rest]; [reflexivity|].
    simpl in *. rewrite Hnone. reflexivity. }
  rewrite Hseed. unfold mbind, result_bind.
  destruct (schedule_loop _ _ _ _) as [P1 row].
  eexists _, _, _. reflexivity.
Qed.

(** X15. In stochastic mode a seed event that returns has moved at most one
    individual: either the draw marks no age group with the count 1, and the
    population is left as it was (the event is consumed all the same), or one
    individual leaves [S] in the first age group [a] that the draw marks, which
    held at least one, and no other entry of [S] changes. *)
Theorem seed_event_stochastic P pp Rand pp1 Rand1 :
  deterministic P = false ->
  seed_event P (pp, Rand) = Ok (pp1, Rand1) ->
  let d := dist_seed_ages (pop P !!! p pp) in
  let drawn := (Rand_Multinomial Rand 1 (weights d) (storage d)).1 in
  (pp1 = pp /\ forall a, a < length (S_ pp) -> drawn !!! a <> 1%N) \/
  (exists a, a < length (S_ pp) /\ drawn !!! a = 1%N /\
     (forall b, b < a -> drawn !!! b <> 1%N) /\
     (1 <= S_ pp !!! a)%Q /\
     S_ pp1 = <[a := (S_ pp !!! a - 1)%Q]> (S_ pp)).
Proof.
  intros Hdet Hev d drawn. unfold seed_event in Hev. rewrite Hdet in Hev.
  fold d in Hev. subst drawn.
  destruct (Rand_Multinomial Rand 1 (weights d) (storage d)) as [dr r1]. cbn [fst].
  destruct (find _ _) as [a|] eqn:Hfind.
  - right. exists a.
    pose proof (find_some _ _ Hfind) as [Hin Ha].
    apply in_seq in Hin. apply N.eqb_eq in Ha.
    apply add_Ok in Hev as (Hge & -> & _).
    split; [lia|]. split; [exact Ha|]. split; [|split; [lra|reflexivity]].
    intros b Hb Hdb.
    clear -Hfind Hb Hdb.
    assert (Hgen : forall n0 len, find (fun a0 => (dr !!! a0 =? 1)%N) (seq n0 len) = Some a ->
                                  n0 <= b -> b < a -> False).
    { intros n0 len. revert n0. induction len as [|len IH]; intros n0 Hf Hn0 Hba;
        simpl in Hf; [discriminate|].
      destruct (dr !!! n0 =? 1)%N eqn:Hd.
      - injection Hf as <-. lia.
      - destruct (decide (n0 = b)) as [->|Hne].
        + apply N.eqb_neq in Hd. contradiction.
        + apply (IH (S n0)); [exact Hf|lia|exact Hba]. }
    apply (Hgen 0 (length (S_ pp))); [exact Hfind|lia|exact Hb].
  - left. injection Hev as <- <-. split; [reflexivity|].
    intros a Ha Hda.
    assert (Hin : In a (seq 0 (length (S_ pp)))) by (apply in_seq; lia).
    pose proof (find_none _ _ Hfind a Hin) as Hno. cbv beta in Hno.
    apply N.eqb_neq in Hno. contradiction.
Qed.

(** *** What can fail *)

Lemma add_error P st age n e : add P st age n = Throw e -> e = seeding_error.
Proof.
  destruct st as [pp Rand]. unfold add.
  destruct (Qlt_le_dec _ _); [|destruct (Compartment_Add _ _ _ _ _); discriminate].
  intros Heq. injection Heq as <-. reflexivity.
Qed.

Lemma seed_event_error P st e : seed_event P st = Throw e -> e = seeding_error.
Proof.
  destruct st as [pp Rand]. unfold seed_event. destruct (deterministic P).
  - apply (for_each_throws (fun e1 => e1 = seeding_error)).
    intros s b e0. apply add_error.
  - destruct (Rand_Multinomial _ _ _ _) as [drawn r1].
    destruct (find _ _); [apply add_error|discriminate].
Qed.

Lemma seed_loop_error P t next st e :
  seed_loop P t next st = Throw e -> e = seeding_error.
Proof.
  revert st. induction next as [|ts rest IH]; simpl; intros st Hrun; [discriminate|].
  destruct (Qle_bool ts t); [|discriminate].
  destruct (seed_event P st) as [[pp' r']|e0] eqn:Hev; rsimpl Hrun.
  - eapply IH; eauto.
  - injection Hrun as <-. eapply seed_event_error; eauto.
Qed.

Lemma Contagiousness_error P Rand t cg pp e :
  Contagiousness P Rand t cg pp = Throw e -> e = seeding_error.
Proof.
  unfold Contagiousness.
  destruct (seed_loop P t _ (pp, Rand)) as [[pp1 r1]|e0] eqn:Hseed;
    unfold mbind, result_bind.
  - destruct (schedule_loop _ _ _ _). discriminate.
  - intros Heq. injection Heq as <-. eapply seed_loop_error; eauto.
Qed.

Lemma Metapopulation_Tick_error P Rand t ts rep mp e :
  Metapopulation_Tick P Rand t ts rep mp = Throw e -> e = seeding_error.
Proof.
  unfold Metapopulation_Tick.
  destruct (for_each (contagiousness_step t) _ _) as [[[[ps1 Rand1] P1] cg1]|e0] eqn:Hc;
    unfold mbind, result_bind.
  - destruct (foldl _ _ _) as [[[b ps2] r2] rep2]. discriminate.
  - intros Heq. injection Heq as <-.
    apply (for_each_throws (fun e1 => e1 = seeding_error)) in Hc; [exact Hc|].
    intros [[[ps Rd] P0] cg] j e1. unfold contagiousness_step.
    destruct (Contagiousness P0 Rd t (cg !!! j) (ps !!! j))
      as [[[[pj Rd1] P1] cj]|e2] eqn:Hcj; unfold mbind, result_bind; [discriminate|].
    intros Heq. injection Heq as <-. eapply Contagiousness_error; eauto.
Qed.

Lemma run_loop_error n ts st e : run_loop n ts st = Throw e -> e = seeding_error.
Proof.
  revert ts st. induction n as [|n IH]; simpl; intros ts st Hrun; [discriminate|].
  destruct (run_step ts st) as [[b s1]|e0] eqn:Hs; rsimpl Hrun.
  - destruct b; [eapply IH; eauto|discriminate].
  - injection Hrun as <-. unfold run_step in Hs.
    destruct (Metapopulation_Tick _ _ _ _ _ _) as [[[[[b mp1] r1] rep1] P1]|e1] eqn:Ht;
      unfold mbind, result_bind in Hs; [discriminate|].
    injection Hs as <-. eapply Metapopulation_Tick_error; eauto.
Qed.

(** X16. The code of [RunSimulation] and of what it calls in this file
    throws in three ways only (the collaborators whose code is not part of
    the sources are taken to return).  Two come from the constructor of the
    reporter, before the first step: the logic error about the time step and
    the runtime error about a report character.  The third is the logic error
    of the seeding guard, raised during a step, after the reporter was
    built. *)
Theorem RunSimulation_failures P Rand e :
  RunSimulation P Rand = Throw e ->
  (e = logic_error "TODO: PopulationReporter requires P.time_step = 1 / P.report_every."
   /\ Reporter_new P true = Throw e) \/
  ((exists ch, e = runtime_error
                     (String.append "Unrecognized process report type " (String ch ".")))
   /\ Reporter_new P true = Throw e) \/
  (e = logic_error "Not enough unexposed individuals to seed new infections."
   /\ exists rep0 P1, Reporter_new P true = Ok (rep0, P1)).
Proof.
  unfold RunSimulation, RunSimulation_state, run_init.
  rewrite Reporter_new_eq.
  destruct (time_step_differs _).
  { unfold mbind, result_bind. intros Heq. injection Heq as <-. left. split; reflexivity. }
  destruct (find unknown_entry _) as [en|].
  { unfold mbind, result_bind. intros Heq. injection Heq as <-. right. left.
    split; [exists en.2|]; reflexivity. }
  unfold mbind, result_bind. cbn [run_P].
  destruct (run_loop _ _ _) as [st|e0] eqn:Hloop; [discriminate|].
  intros Heq. injection Heq as <-. right. right.
  split; [eapply run_loop_error; eauto|]. eexists _, _. reflexivity.
Qed.

End Cursors.

(** ** The populations and the reporter through a tick and a run *)

Lemma rect_insert (n k : nat) (m : list (list Q)) (j : nat) (row : list Q) :
  rect n k m -> length row = length (m !!! j) -> rect n k (<[j := row]> m).
Proof.
  intros [Hn Hk] Hrow. split; [rewrite length_insert; exact Hn|].
  intros i Hi. rewrite list_lookup_total_insert. case_decide as Hc.
  - destruct Hc as [-> _]. rewrite Hrow. apply Hk. exact Hi.
  - apply Hk. exact Hi.
Qed.

(** A sum with one term that is not zero. *)
Lemma sum_upto_single (n : nat) (f : nat -> Q) (i : nat) (x : Q) :
  i < n -> (forall j, j < n -> j <> i -> (f j == 0)%Q) -> (f i == x)%Q ->
  (sum_upto n f == x)%Q.
Proof.
  intros Hi Hz Hx. unfold sum_upto.
  assert (HI : (fun (k : nat) (s : Q) => (s == if decide (i < k)%nat then x else 0)%Q) n
                 (foldl (fun acc j => (acc + f j)%Q) 0%Q (seq 0 n))).
  { apply foldl_seq_inv.
    - destruct (decide (i < 0)); [lia|reflexivity].
    - intros k s Hk Hs. rewrite Hs.
      destruct (decide (i < k)), (decide (i < S k)); try lia.
      + rewrite (Hz k) by lia. ring.
      + assert (k = i) as -> by lia. rewrite Hx. ring.
      + rewrite (Hz k) by lia. ring. }
  cbv beta in HI. destruct (decide (i < n)); [exact HI|lia].
Qed.

Section Populations.
Context `{Ext : Externals}.

Lemma mixing_rect P cg n k : rect n k (mixing P cg n k).
Proof.
  unfold mixing.
  apply (foldl_inv (rect n k)); [apply rect_replicate|]. intros s1 i _ H1.
  apply (foldl_inv (rect n k)); [exact H1|]. intros s2 j _ H2.
  apply (foldl_inv (rect n k)); [exact H2|]. intros s3 a _ H3.
  apply rect_alter. exact H3.
Qed.

Lemma contagiousness_steps_shape t js ps Rand P cg ps1 Rand1 P1 cg1 n k :
  for_each (contagiousness_step t) js (ps, Rand, P, cg) = Ok (ps1, Rand1, P1, cg1) ->
  rect n k cg ->
  length ps1 = length ps /\ rect n k cg1 /\
  forall i, shape (ps1 !!! i) = shape (ps !!! i) /\ p (ps1 !!! i) = p (ps !!! i).
Proof.
  intros Hrun Hcg.
  apply (for_each_inv
           (fun st : list Population * Randomizer * Parameters * list (list Q) =>
              length st.1.1.1 = length ps /\ rect n k st.2 /\
              forall i, shape (st.1.1.1 !!! i) = shape (ps !!! i) /\
                        p (st.1.1.1 !!! i) = p (ps !!! i))) in Hrun.
  - exact Hrun.
  - cbn [fst snd]. split; [reflexivity|]. split; [exact Hcg|]. intros i. split; reflexivity.
  - intros [[[ps0 r0] P0] cg0] j [[[ps2 r2] P2] cg2] (Hlen & Hrect & Hsh) Hstep.
    cbn [fst snd] in *. unfold contagiousness_step in Hstep.
    destruct (Contagiousness P0 r0 t (cg0 !!! j) (ps0 !!! j))
      as [[[[pj Rd1] P1'] cj]|e] eqn:Hcj; rsimpl Hstep; [|discriminate].
    injection Hstep as <- <- <- <-.
    apply Contagiousness_shape in Hcj as (Hs & Hp & Hl).
    split; [rewrite length_insert; exact Hlen|].
    split; [apply rect_insert; assumption|].
    intros i. rewrite list_lookup_total_insert. case_decide as Hc.
    + destruct Hc as [-> _]. destruct (Hsh i) as [G1 G2]. split; congruence.
    + apply Hsh.
Qed.

Lemma update_populations_shape P t inf ps Rand rep js :
  let st := foldl (update_population P t inf) (true, ps, Rand, rep) js in
  length st.1.1.2 = length ps /\
  forall i, shape (st.1.1.2 !!! i) = shape (ps !!! i) /\ p (st.1.1.2 !!! i) = p (ps !!! i).
Proof.
  cbv zeta.
  apply (foldl_inv (fun st : bool * list Population * Randomizer * Reporter =>
           length st.1.1.2 = length ps /\
           forall i, shape (st.1.1.2 !!! i) = shape (ps !!! i) /\
                     p (st.1.1.2 !!! i) = p (ps !!! i))).
  - split; [reflexivity|]. intros i. split; reflexivity.
  - intros [[[keep ps0] r0] rep0] j _ [Hlen Hsh]. cbn [fst snd] in *.
    unfold update_population. destruct keep; [|split; assumption].
    destruct (Population_Tick_rows P r0 t (inf !!! j) rep0 (ps0 !!! j)) as (Hs & Hp).
    destruct (Population_Tick P r0 t (inf !!! j) rep0 (ps0 !!! j))
      as [[[b pj] r1] rep1]. cbn [fst snd] in *.
    split; [rewrite length_insert; exact Hlen|].
    intros i. rewrite list_lookup_total_insert. case_decide as Hc.
    + destruct Hc as [-> _]. destruct (Hsh i) as [G1 G2]. split; congruence.
    + apply Hsh.
Qed.

Lemma Metapopulation_Tick_pops P Rand t ts rep mp b mp1 Rand2 rep2 P1 :
  Metapopulation_Tick P Rand t ts rep mp = Ok (b, mp1, Rand2, rep2, P1) ->
  length (pops mp1) = length (pops mp) /\
  forall i, shape (pops mp1 !!! i) = shape (pops mp !!! i) /\
            p (pops mp1 !!! i) = p (pops mp !!! i).
Proof.
  intros Hrun.
  apply Metapopulation_Tick_Ok in Hrun as (ps1 & Rand1 & Hcg & _ & Hupd).
  apply (contagiousness_steps_shape _ _ _ _ _ _ _ _ _ _
           (length (pops mp)) (length (size (pop P !!! 0)))) in Hcg;
    [|apply rect_replicate].
  destruct Hcg as (Hlen & _ & Hsh).
  pose proof (update_populations_shape P1 t (infec mp1) ps1 Rand1 rep
                (seq 0 (length (pops mp)))) as Hu.
  cbv zeta in Hu. rewrite Hupd in Hu. cbn [fst snd] in Hu. destruct Hu as [Hlen2 Hsh2].
  split; [congruence|].
  intros i. destruct (Hsh i), (Hsh2 i). split; congruence.
Qed.

(** X17. A tick of the metapopulation keeps the number of populations,
    the sizes of the vectors of every population and its index [p], and leaves
    [contag] and [infec] with one row per population and, in every row, one
    entry per age group of the first population. *)
Theorem Metapopulation_Tick_shape P Rand t ts rep mp b mp1 Rand2 rep2 P1 :
  Metapopulation_Tick P Rand t ts rep mp = Ok (b, mp1, Rand2, rep2, P1) ->
  let n_pops := length (pops mp) in
  let n_ages := length (size (pop P !!! 0)) in
  length (pops mp1) = n_pops /\
  rect n_pops n_ages (contag mp1) /\ rect n_pops n_ages (infec mp1) /\
  forall i, shape (pops mp1 !!! i) = shape (pops mp !!! i) /\
            p (pops mp1 !!! i) = p (pops mp !!! i).
Proof.
  intros Hrun n_pops n_ages.
  destruct (Metapopulation_Tick_pops _ _ _ _ _ _ _ _ _ _ _ Hrun) as [Hlen Hsh].
  apply Metapopulation_Tick_Ok in Hrun as (ps1 & Rand1 & Hcg & Hinf & _).
  fold n_pops n_ages in Hcg, Hinf.
  apply (contagiousness_steps_shape _ _ _ _ _ _ _ _ _ _ n_pops n_ages) in Hcg;
    [|apply rect_replicate].
  destruct Hcg as (_ & Hrect & _).
  split; [exact Hlen|]. split; [exact Hrect|].
  split; [rewrite Hinf; apply mixing_rect|exact Hsh].
Qed.

(** The ticks of the populations write to the rows of the time [t], of the
    populations ticked and of the age groups of [infec] only. *)
Lemma update_populations_rows P t inf rep ps Rand n k :
  rect n k inf ->
  let st := foldl (update_population P t inf) (true, ps, Rand, rep) (seq 0 n) in
  header st.2 = header rep /\
  forall c row,
    (forall j a, j < n -> a < k -> row <> rep_row rep t (p (ps !!! j)) a) ->
    (data st.2 !!! c) !!! row = (data rep !!! c) !!! row.
Proof.
  intros [Hn Hk]. cbv zeta.
  pose (Inv := fun (m : nat) (st : bool * list Population * Randomizer * Reporter) =>
                 header st.2 = header rep /\
                 (forall i, p (st.1.1.2 !!! i) = p (ps !!! i)) /\
                 forall c row,
                   (forall j a, j < m -> a < k -> row <> rep_row rep t (p (ps !!! j)) a) ->
                   (data st.2 !!! c) !!! row = (data rep !!! c) !!! row).
  assert (HI : Inv n (foldl (update_population P t inf) (true, ps, Rand, rep) (seq 0 n))).
  { apply foldl_seq_inv.
    - unfold Inv. cbn [fst snd]. split; [reflexivity|]. split; [reflexivity|].
      intros c row _. reflexivity.
    - intros m [[[keep ps0] r0] rep0] Hm (Hh & Hp & Hcells). cbn [fst snd] in *.
      unfold update_population, Inv. destruct keep.
      + destruct (Population_Tick_frame P r0 t (inf !!! m) rep0 (ps0 !!! m))
          as (G1 & G2).
        destruct (Population_Tick_rows P r0 t (inf !!! m) rep0 (ps0 !!! m))
          as (_ & Hp').
        destruct (Population_Tick P r0 t (inf !!! m) rep0 (ps0 !!! m))
          as [[[b pm] r1] rep1]. cbn [fst snd] in *.
        split; [congruence|]. split.
        * intros i. rewrite list_lookup_total_insert. case_decide as Hc.
          -- destruct Hc as [-> _]. rewrite Hp'. apply Hp.
          -- apply Hp.
        * intros c row Hrow. rewrite G2.
          -- apply Hcells. intros j a Hj Ha. apply Hrow; lia.
          -- intros a Ha. rewrite (rep_row_header rep0 rep _ _ _ Hh), Hp.
             apply Hrow; [lia|]. rewrite <- (Hk m) by lia. exact Ha.
      + cbn [fst snd]. split; [exact Hh|]. split; [exact Hp|].
        intros c row Hrow. apply Hcells. intros j a Hj Ha. apply Hrow; lia. }
  destruct HI as (Hh & _ & Hcells). split; [exact Hh|exact Hcells].
Qed.

(** X18. A tick of the metapopulation at time [t] leaves the cells of
    every other time index as they were: when population [j] has the index
    [j], the reporter has the populations and age groups of the tick and its
    cells fit an [unsigned int], every cell [rep(t', i, a, c)] whose time
    index differs from that of [t] holds after the tick what it held
    before. *)
Theorem Metapopulation_Tick_other_times P Rand t ts rep mp b mp1 Rand2 rep2 P1 :
  Metapopulation_Tick P Rand t ts rep mp = Ok (b, mp1, Rand2, rep2, P1) ->
  (forall j, j < length (pops mp) -> p (pops mp !!! j) = j) ->
  (n_times rep * n_populations rep * n_age_groups rep < 4294967296)%N ->
  n_populations rep = N.of_nat (length (pops mp)) ->
  n_age_groups rep = N.of_nat (length (size (pop P !!! 0%nat))) ->
  (uint_of_Q (t - t0 rep) < n_times rep)%N ->
  forall t' i a c,
    (uint_of_Q (t' - t0 rep) < n_times rep)%N ->
    i < length (pops mp) -> a < length (size (pop P !!! 0%nat)) ->
    uint_of_Q (t' - t0 rep) <> uint_of_Q (t - t0 rep) ->
    rep_get rep2 t' i a c = rep_get rep t' i a c.
Proof.
  intros Hrun Hp Hfit Hnp Hna Hk t' i a c Hk' Hi Ha Hne.
  apply Metapopulation_Tick_Ok in Hrun as (ps1 & Rand1 & Hcg & Hinf & Hupd).
  set (n := length (pops mp)) in *. set (k := length (size (pop P !!! 0%nat))) in *.
  apply (contagiousness_steps_shape _ _ _ _ _ _ _ _ _ _ n k) in Hcg;
    [|apply rect_replicate].
  destruct Hcg as (_ & _ & Hsh).
  destruct (update_populations_rows P1 t (infec mp1) rep ps1 Rand1 n k) as [Hh Hcells].
  { rewrite Hinf. apply mixing_rect. }
  rewrite Hupd in Hh, Hcells. cbn [snd] in Hh, Hcells.
  unfold rep_get. rewrite (rep_row_header rep2 rep _ _ _ Hh). apply Hcells.
  intros j a' Hj Ha' Heq. destruct (Hsh j) as [_ Hpj]. rewrite Hpj, Hp in Heq by exact Hj.
  destruct (rep_row_value rep t' i a Hfit Hk') as [Hv1 _]; [lia|lia|].
  destruct (rep_row_value rep t j a' Hfit Hk) as [Hv2 _]; [lia|lia|].
  cbv zeta in Hv1, Hv2. rewrite Hv1, Hv2 in Heq. apply N2Nat.inj in Heq.
  apply row_digits in Heq as (Hke & _ & _); [|lia|lia|lia|lia].
  apply Hne. exact Hke.
Qed.

(** X19. Without travel, that is with [travel(j, i)] equal to 1 for
    [j = i] and to 0 otherwise, the infectiousness that a tick of the
    metapopulation hands to population [i] is the contagiousness of [i]
    itself, whatever [tau] is. *)
Theorem Metapopulation_Tick_no_travel P Rand t ts rep mp b mp1 Rand2 rep2 P1 i a :
  Metapopulation_Tick P Rand t ts rep mp = Ok (b, mp1, Rand2, rep2, P1) ->
  (forall j k, (travel P1 j k == if decide (j = k) then 1 else 0)%Q) ->
  i < length (pops mp) ->
  a < length (size (pop P !!! 0)) ->
  (get2 (infec mp1) i a == get2 (contag mp1) i a)%Q.
Proof.
  intros Hrun Htr Hi Ha.
  apply Metapopulation_Tick_Ok in Hrun as (ps1 & Rand1 & _ & -> & _).
  rewrite mixing_entries by assumption.
  apply (sum_upto_single _ _ i); [exact Hi| |].
  - intros j Hj Hne. unfold mixing_term. rewrite (Htr j i).
    destruct (decide (j = i)); [contradiction|]. ring.
  - unfold mixing_term, get2. rewrite (Htr i i), Nat.eqb_refl.
    destruct (decide (i = i)); [|contradiction]. cbn [negb]. ring.
Qed.

(** *** Through the run *)

Lemma run_loop_inv (Inv : Run -> Prop) n ts st st1 :
  Inv st ->
  (forall k s b s1, Inv s -> run_step k s = Ok (b, s1) -> Inv s1) ->
  run_loop n ts st = Ok st1 -> Inv st1.
Proof.
  intros H0 Hstep. revert ts st H0.
  induction n as [|n IH]; intros ts st H0 Hrun; simpl in Hrun.
  - injection Hrun as <-. exact H0.
  - destruct (run_step ts st) as [[b s1]|e] eqn:Hs; rsimpl Hrun; [|discriminate].
    assert (H1 : Inv s1) by (eapply Hstep; eauto).
    destruct b.
    + eapply IH; eauto.
    + injection Hrun as <-. exact H1.
Qed.

Lemma run_step_header ts st b st1 :
  run_step ts st = Ok (b, st1) -> header (run_rep st1) = header (run_rep st).
Proof.
  unfold run_step. intros Hrun.
  destruct (Metapopulation_Tick _ _ _ _ _ _) as [[[[[b' mp1] r1] rep1] P1]|e] eqn:Ht;
    rsimpl Hrun; [|discriminate].
  injection Hrun as <- <-. cbn [run_rep].
  apply Metapopulation_Tick_Ok in Ht as (ps1 & Rand1 & _ & Hinf & Hupd).
  destruct (update_populations_rows P1 (step_time (run_P st) ts) (infec mp1)
              (run_rep st) ps1 Rand1 (length (pops (run_mp st)))
              (length (size (pop (run_P st) !!! 0)))) as [Hh _].
  { rewrite Hinf. apply mixing_rect. }
  rewrite Hupd in Hh. exact Hh.
Qed.

(** X20. The table that [RunSimulation] returns has the layout that the
    constructor of the reporter gave it, whatever the steps did and whether or
    not the run ended early: the same times, populations and age groups, the
    nine built-in columns followed by one column per report character, named
    after its sub-process and character, and in every column
    [n_times * n_populations * n_age_groups] cells. *)
Theorem RunSimulation_table P Rand rep :
  RunSimulation P Rand = Ok rep ->
  active rep = true /\ t0 rep = time0 P /\
  n_times rep = wrap32 (uint_of_Q (time1 P - time0 P) + 1) /\
  n_populations rep = N.of_nat (length (pop P)) /\
  n_age_groups rep = N.of_nat (length (size (pop P !!! 0))) /\
  col_names rep
  = ["S"; "E"; "Ip"; "Is"; "Ia"; "R"; "cases"; "cases_reported"; "subclinical"]
    ++ flat_map (fun pr => map (entry_name pr) (report_entries pr)) (processes P) /\
  map length (data rep)
  = replicate (9 + length (flat_map report_entries (processes P)))
      (N.to_nat (wrap32 (n_times rep * n_populations rep * n_age_groups rep))).
Proof.
  unfold RunSimulation, RunSimulation_state.
  destruct (run_init P Rand) as [st0|e] eqn:Hinit; unfold mbind, result_bind;
    [|discriminate].
  destruct (run_loop _ 0 st0) as [st|e] eqn:Hloop; [|discriminate].
  intros Heq. injection Heq as <-.
  apply (run_loop_inv (fun s => header (run_rep s) = header (run_rep st0))) in Hloop.
  - unfold run_init in Hinit.
    destruct (Reporter_new P true) as [[rep0 P1]|e] eqn:Hnew; rsimpl Hinit;
      [|discriminate].
    injection Hinit as <-. cbn [run_rep] in Hloop.
    apply Reporter_new_Ok in Hnew as [-> _].
    unfold header in Hloop. cbn [active t0 n_times n_populations n_age_groups col_names
      data] in Hloop.
    injection Hloop as -> -> -> -> -> -> ->.
    repeat split. rewrite fmap_replicate, length_replicate. reflexivity.
  - reflexivity.
  - intros k s b s1 Hs Hstep. apply run_step_header in Hstep. congruence.
Qed.

Lemma Metapopulation_new_populations P : populations_of P (pops (Metapopulation_new P)).
Proof.
  destruct (Metapopulation_new_pops P) as [Hlen Hget]. split; [exact Hlen|].
  intros i Hi. rewrite Hget by lia. split; reflexivity.
Qed.

Lemma run_step_populations P0 ts st b st1 :
  run_step ts st = Ok (b, st1) ->
  populations_of P0 (pops (run_mp st)) -> populations_of P0 (pops (run_mp st1)).
Proof.
  unfold run_step. intros Hrun [Hlen Hpops].
  destruct (Metapopulation_Tick _ _ _ _ _ _) as [[[[[b' mp1] r1] rep1] P1]|e] eqn:Ht;
    rsimpl Hrun; [|discriminate].
  injection Hrun as <- <-. cbn [run_mp].
  apply Metapopulation_Tick_pops in Ht as (Hl & Hsh).
  split; [congruence|]. intros i Hi. destruct (Hsh i) as [G1 G2].
  rewrite G1, G2. apply Hpops. lia.
Qed.

Lemma count_ids (prs : list ProcessSpec) :
  foldl (fun acc pr => acc + length (ids pr)) 0 prs = length (flat_map ids prs).
Proof.
  assert (G : forall l n1, foldl (fun acc pr => acc + length (ids pr)) n1 l
                           = n1 + length (flat_map ids l)).
  { induction l as [|x l IHl]; intros n1; simpl; [lia|].
    rewrite IHl, length_app. lia. }
  apply G.
Qed.

(** X21. In the state in which the loop of [RunSimulation] ends there is
    one population per entry of [P.pop]; population [i] has the index [i], its
    vectors S, R, E, Ip, Ia, Is, H and C have one entry per age group of
    [P.pop[i]], and it has one row of process compartments, one entry of [pci]
    and one of [pco] per compartment id of the processes. *)
Theorem RunSimulation_populations P Rand st :
  RunSimulation_state P Rand = Ok st ->
  length (pops (run_mp st)) = length (pop P) /\
  forall i, i < length (pop P) ->
    let pp := pops (run_mp st) !!! i in
    let n := length (size (pop P !!! i)) in
    let n_pc := length (flat_map ids (processes P)) in
    p pp = i /\
    length (S_ pp) = n /\ length (R pp) = n /\ length (E pp) = n /\
    length (Ip pp) = n /\ length (Ia pp) = n /\ length (Is pp) = n /\
    length (H pp) = n /\ length (C pp) = n /\
    map length (pc pp) = replicate n_pc n /\
    length (pci pp) = n_pc /\ length (pco pp) = n_pc.
Proof.
  unfold RunSimulation_state.
  destruct (run_init P Rand) as [st0|e] eqn:Hinit; unfold mbind, result_bind;
    [|discriminate].
  intros Hloop.
  apply (run_loop_inv (fun s => populations_of P (pops (run_mp s)))) in Hloop.
  - destruct Hloop as [Hlen Hpops]. split; [exact Hlen|].
    intros i Hi. cbv zeta. destruct (Hpops i) as [Hp Hs]; [lia|].
    split; [exact Hp|].
    unfold shape in Hs. unfold Population_new in Hs.
    cbn [S_ R E Ip Ia Is H C pc pci pco] in Hs.
    rewrite !length_replicate, fmap_replicate, length_replicate, count_ids in Hs.
    injection Hs as -> -> -> -> -> -> -> -> -> -> ->. repeat split.
  - apply run_init_Ok in Hinit as (rep & P1 & _ & ->). cbn [run_mp].
    apply Metapopulation_new_populations.
  - intros k s b s1 Hs Hstep. eapply run_step_populations; eauto.
Qed.

End Populations.

(** ** The values that a tick reports *)

Lemma lengths_lookup (d1 d2 : list (list Q)) c :
  map length d1 = map length d2 ->
  length d1 = length d2 /\ length (d1 !!! c) = length (d2 !!! c).
Proof.
  intros Heq.
  assert (Hlen : length d1 = length d2).
  { rewrite <- (length_map length d1), <- (length_map length d2), Heq. reflexivity. }
  split; [exact Hlen|].
  destruct (decide (c < length d1)) as [Hc|Hc].
  - assert (H1 : map length d1 !! c = Some (length (d1 !!! c))).
    { rewrite list_lookup_fmap, (list_lookup_lookup_total_lt d1 c Hc). reflexivity. }
    assert (H2 : map length d2 !! c = Some (length (d2 !!! c))).
    { rewrite list_lookup_fmap, (list_lookup_lookup_total_lt d2 c) by lia. reflexivity. }
    rewrite Heq in H1. congruence.
  - rewrite !lookup_total_out_of_range by lia. reflexivity.
Qed.

(** After the writes [ws1], an assignment to the cell and writes [ws2] to
    other cells, the cell holds the value assigned. *)
Lemma apply_writes_assigned ws1 c row v ws2 d :
  c < length d -> row < length (d !!! c) ->
  Forall (fun w => write_cell w <> (c, row)) ws2 ->
  (foldl apply_write d (ws1 ++ Assign c row v :: ws2) !!! c) !!! row = v.
Proof.
  intros Hc Hrow Hws2. rewrite foldl_app. cbn [foldl].
  rewrite apply_writes_cell_other by exact Hws2.
  destruct (lengths_lookup _ _ c (apply_writes_lengths ws1 d)) as [Hl1 Hl2].
  cbn [apply_write]. rewrite list_lookup_total_alter_eq by lia.
  apply list_lookup_total_insert_eq. lia.
Qed.

(** After writes [ws1] to other cells, an accumulation into the cell and
    writes [ws2] to other cells, the cell holds its value from before plus the
    value accumulated. *)
Lemma apply_writes_accumulated ws1 c row v ws2 d :
  c < length d -> row < length (d !!! c) ->
  Forall (fun w => write_cell w <> (c, row)) ws1 ->
  Forall (fun w => write_cell w <> (c, row)) ws2 ->
  (foldl apply_write d (ws1 ++ Accumulate c row v :: ws2) !!! c) !!! row
  = ((d !!! c) !!! row + v)%Q.
Proof.
  intros Hc Hrow Hws1 Hws2. rewrite foldl_app. cbn [foldl].
  rewrite apply_writes_cell_other by exact Hws2.
  destruct (lengths_lookup _ _ c (apply_writes_lengths ws1 d)) as [Hl1 Hl2].
  cbn [apply_write]. rewrite list_lookup_total_alter_eq by lia.
  rewrite list_lookup_total_alter_eq by lia.
  rewrite apply_writes_cell_other by exact Hws1. reflexivity.
Qed.

Lemma seq_split (n c : nat) : c < n -> seq 0 n = seq 0 c ++ c :: seq (S c) (n - S c).
Proof.
  intros Hc. replace n with (c + S (n - S c)) at 1 by lia.
  rewrite seq_app. reflexivity.
Qed.

Lemma Forall_map_columns (f : nat -> write) (l : list nat) c row :
  (forall c', c' ∈ l -> write_cell (f c') <> (c, row)) ->
  Forall (fun w => write_cell w <> (c, row)) (map f l).
Proof.
  intros Hf. apply Forall_forall. intros w Hw.
  apply list_elem_of_fmap in Hw as (c' & -> & Hc'). apply Hf. exact Hc'.
Qed.

Lemma map_lookup_alter_ne {A : Type} `{!Inhabited A} (l : list (list A)) (id a a' : nat)
    (x : A) :
  a' <> a ->
  map (fun row => row !!! a') (alter (fun row => <[a := x]> row) id l)
  = map (fun row => row !!! a') l.
Proof.
  intros Hne. revert id. induction l as [|r l IH]; intros [|id]; simpl; try reflexivity.
  - rewrite list_lookup_total_insert_ne by congruence. reflexivity.
  - f_equal. apply IH.
Qed.

Section Cells.
Context `{Ext : Externals}.

Lemma process_assigns_columns P row a pp c :
  user_columns P -> c < 9 ->
  Forall (fun w => write_cell w <> (c, row))
    (flat_map (fun process =>
                 map (fun i => Assign (p_cols process !!! i) row
                                 (Compartment_Size
                                    ((pc pp !!! (p_ids process !!! i)) !!! a)))
                     (seq 0 (length (p_cols process))))
              (processes P)).
Proof.
  intros Hu Hc. apply Forall_flat_map_intro. intros process Hin.
  apply Forall_map_seq. intros i Hi. cbn [write_cell]. intros Heq.
  apply (f_equal fst) in Heq; cbn [fst] in Heq.
  assert (9 <= p_cols process !!! i); [|lia].
  apply (Hu process); [exact Hin|]. left. apply list_elem_of_lookup_total_2. exact Hi.
Qed.

Lemma process_accumulates_columns P row pp c :
  user_columns P -> c < 9 ->
  Forall (fun w => write_cell w <> (c, row))
    (flat_map (fun process =>
                 map (fun i => Accumulate (i_cols process !!! i) row
                                 (pci pp !!! (i_ids process !!! i)))
                     (seq 0 (length (i_cols process)))
                 ++ map (fun i => Accumulate (o_cols process !!! i) row
                                    (pco pp !!! (o_ids process !!! i)))
                        (seq 0 (length (o_cols process))))
              (processes P)).
Proof.
  intros Hu Hc. apply Forall_flat_map_intro. intros process Hin.
  apply Forall_app. split; apply Forall_map_seq; intros i Hi; cbn [write_cell];
    intros Heq; apply (f_equal fst) in Heq; cbn [fst] in Heq.
  - assert (9 <= i_cols process !!! i); [|lia].
    apply (Hu process); [exact Hin|]. right. left.
    apply list_elem_of_lookup_total_2. exact Hi.
  - assert (9 <= o_cols process !!! i); [|lia].
    apply (Hu process); [exact Hin|]. right. right.
    apply list_elem_of_lookup_total_2. exact Hi.
Qed.

Lemma prevalence_writes_eq P row a pp :
  prevalence_writes P row a pp
  = map (fun c => Assign c row (prevalence_value pp a c)) (seq 0 6)
    ++ flat_map (fun process =>
                   map (fun i => Assign (p_cols process !!! i) row
                                   (Compartment_Size
                                      ((pc pp !!! (p_ids process !!! i)) !!! a)))
                       (seq 0 (length (p_cols process))))
                (processes P).
Proof. reflexivity. Qed.

Lemma incidence_writes_eq P row fl pp :
  incidence_writes P row fl pp
  = map (fun c => Accumulate c row (incidence_value fl c)) (seq 6 3)
    ++ flat_map (fun process =>
                   map (fun i => Accumulate (i_cols process !!! i) row
                                   (pci pp !!! (i_ids process !!! i)))
                       (seq 0 (length (i_cols process)))
                   ++ map (fun i => Accumulate (o_cols process !!! i) row
                                      (pco pp !!! (o_ids process !!! i)))
                          (seq 0 (length (o_cols process))))
                (processes P).
Proof. reflexivity. Qed.

(** The cell of the built-in column [c] in the row of an age iteration after
    the writes of that iteration. *)
Lemma age_writes_cell P t rep pp Rand a d c :
  user_columns P -> c < 9 ->
  c < length d -> rep_row rep t (p pp) a < length (d !!! c) ->
  let row := rep_row rep t (p pp) a in
  let fl := (builtin_states P a (pp, Rand)).1.1 in
  (foldl apply_write d (age_writes P t rep (pp, Rand) a) !!! c) !!! row
  = if decide (c < 6) then
      if is_integer t then prevalence_value pp a c else (d !!! c) !!! row
    else ((d !!! c) !!! row + incidence_value fl c)%Q.
Proof.
  intros Hu Hc9 Hc Hrow row fl. unfold age_writes. cbn [fst snd]. fold row.
  set (after := (tick_age P t (pp, Rand, rep) a).1.1).
  fold fl. rewrite incidence_writes_eq.
  pose proof (process_accumulates_columns P row after c Hu Hc9) as Hacc.
  pose proof (process_assigns_columns P row a pp c Hu Hc9) as Hass.
  assert (Hbuilt : forall (f : nat -> write) s len,
            (forall c', write_cell (f c') = (c', row)) ->
            (forall c', s <= c' < s + len -> c' <> c) ->
            Forall (fun w => write_cell w <> (c, row)) (map f (seq s len))).
  { intros f s len Hf Hcs. apply Forall_map_columns. intros c' Hc'.
    apply list_elem_of_In, in_seq in Hc'. rewrite Hf. intros Heq.
    apply (f_equal fst) in Heq; cbn [fst] in Heq. apply (Hcs c'); assumption. }
  destruct (decide (c < 6)) as [Hc6|Hc6].
  - assert (Hinc : Forall (fun w => write_cell w <> (c, row))
                     (map (fun c0 => Accumulate c0 row (incidence_value fl c0)) (seq 6 3)
                      ++ flat_map
                           (fun process =>
                              map (fun i => Accumulate (i_cols process !!! i) row
                                              (pci after !!! (i_ids process !!! i)))
                                  (seq 0 (length (i_cols process)))
                              ++ map (fun i => Accumulate (o_cols process !!! i) row
                                                 (pco after !!! (o_ids process !!! i)))
                                     (seq 0 (length (o_cols process))))
                           (processes P))).
    { apply Forall_app. split; [|exact Hacc].
      apply Hbuilt; [reflexivity|]. intros c'. lia. }
    destruct (is_integer t).
    + rewrite prevalence_writes_eq, (seq_split 6 c Hc6), map_app. cbn [map].
      rewrite <- !app_assoc. cbn [app].
      apply apply_writes_assigned; [exact Hc|exact Hrow|].
      apply Forall_app. split; [|apply Forall_app; split; [exact Hass|exact Hinc]].
      apply Hbuilt; [reflexivity|]. intros c'. lia.
    + cbn [app]. apply apply_writes_cell_other. exact Hinc.
  - assert (Hc' : 6 <= c < 9) by lia.
    assert (Hsplit : seq 6 3 = seq 6 (c - 6) ++ c :: seq (S c) (8 - c)).
    { destruct Hc' as [H6 H9]. clear -H6 H9.
      assert (c = 6 \/ c = 7 \/ c = 8) as [->|[->| ->]] by lia; reflexivity. }
    rewrite Hsplit, map_app. cbn [map].
    match goal with
    | |- context [foldl apply_write d (?A ++ (?B ++ ?x :: ?C) ++ ?D)] =>
        replace (A ++ (B ++ x :: C) ++ D) with ((A ++ B) ++ x :: (C ++ D))
          by (rewrite <- !app_assoc; reflexivity)
    end.
    rewrite apply_writes_accumulated; [reflexivity|exact Hc|exact Hrow| |].
    + apply Forall_app. split.
      * destruct (is_integer t); [|constructor].
        rewrite prevalence_writes_eq. apply Forall_app. split; [|exact Hass].
        apply Hbuilt; [reflexivity|]. intros c'. lia.
      * apply Hbuilt; [reflexivity|]. intros c'. lia.
    + apply Forall_app. split; [|exact Hacc].
      apply Hbuilt; [reflexivity|]. intros c'. lia.
Qed.

Lemma prevalence_value_state pp1 pp2 a c :
  age_state pp1 a = age_state pp2 a -> prevalence_value pp1 a c = prevalence_value pp2 a c.
Proof.
  unfold age_state. intros Heq. injection Heq as HS HR HE HIp HIa HIs _ _ _.
  unfold prevalence_value. rewrite HS, HR, HE, HIp, HIa, HIs. reflexivity.
Qed.

Lemma mature_compartment_other k pp id a :
  a <> k -> age_state (mature_compartment k pp id) a = age_state pp a.
Proof.
  intros Hne. unfold mature_compartment. destruct (Compartment_Mature _) as [m c1].
  unfold age_state. cbn [S_ R E Ip Ia Is H C pc set_pco set_pc].
  rewrite map_lookup_alter_ne by exact Hne. reflexivity.
Qed.

Lemma seed_compartment_other P k process pp Rand c id a :
  a <> k -> age_state (seed_compartment P k process (pp, Rand, c) id).1.1 a = age_state pp a.
Proof.
  intros Hne. unfold seed_compartment. destruct (Compartment_Add _ _ _ _ _) as [c1 r1].
  unfold age_state. cbn [fst S_ R E Ip Ia Is H C pc set_pci set_pc].
  rewrite map_lookup_alter_ne by exact Hne. reflexivity.
Qed.

(** The iteration of age [k] leaves the states of the other age groups as
    they are. *)
Lemma tick_age_other P t pp Rand rep k a :
  a <> k -> age_state (tick_age P t (pp, Rand, rep) k).1.1 a = age_state pp a.
Proof.
  intros Hne. unfold tick_age.
  assert (Hb : age_state (builtin_states P k (pp, Rand)).1.2 a = age_state pp a).
  { rewrite builtin_states_eq. unfold age_state.
    cbn [fst snd S_ R E Ip Ia Is H C pc set_R set_C set_H set_Is set_Ia set_Ip set_E
      set_S_].
    rewrite !list_lookup_total_insert_ne by congruence. reflexivity. }
  destruct (builtin_states P k (pp, Rand)) as [[fl pp1] Rand1]. cbn [fst snd] in *.
  assert (Hm : age_state (mature_processes P k pp1) a = age_state pp a).
  { unfold mature_processes.
    apply (foldl_inv (fun s => age_state s a = age_state pp a)); [exact Hb|].
    intros s process _ Hs.
    apply (foldl_inv (fun s1 => age_state s1 a = age_state pp a)); [exact Hs|].
    intros s1 id _ Hs1. rewrite mature_compartment_other by exact Hne. exact Hs1. }
  assert (Hs : age_state (foldl (seed_process P k fl) (mature_processes P k pp1, Rand1)
                                (processes P)).1 a = age_state pp a).
  { apply (foldl_inv (fun st : Population * Randomizer =>
                        age_state st.1 a = age_state pp a)); [exact Hm|].
    intros [s r] process _ Hs0. cbn [fst] in *. unfold seed_process.
    destruct (multinomial _ _ _ _ _ _) as [[nd ni] r1].
    apply (foldl_inv (fun st : Population * Randomizer * nat =>
                        age_state st.1.1 a = age_state pp a)); [exact Hs0|].
    intros [[s1 r2] c] id _ Hs1. cbn [fst] in *.
    rewrite seed_compartment_other by exact Hne. exact Hs1. }
  destruct (foldl (seed_process P k fl) _ _) as [pp3 Rand3]. exact Hs.
Qed.

(** The cell of a built-in column in the row of age [a] after a tick. *)
Lemma Population_Tick_cell P Rand t inf rep pp a c :
  user_columns P ->
  rows_distinct rep t (p pp) (length inf) ->
  a < length inf -> c < 9 ->
  c < length (data rep) -> rep_row rep t (p pp) a < length (data rep !!! c) ->
  let pp0 := set_lambda pp (force_of_infection P (p pp) inf) in
  let pre := foldl (tick_age P t) (pp0, Rand, rep) (seq 0 a) in
  let fl := (builtin_states P a pre.1).1.1 in
  rep_get (Population_Tick P Rand t inf rep pp).2 t (p pp) a c
  = if decide (c < 6) then
      if is_integer t then prevalence_value pp a c else rep_get rep t (p pp) a c
    else (rep_get rep t (p pp) a c + incidence_value fl c)%Q.
Proof.
  intros Hu Hrows Ha Hc9 Hc Hrow pp0 pre fl.
  set (row := rep_row rep t (p pp) a) in *.
  set (old := (data rep !!! c) !!! row).
  set (new := if decide (c < 6) then
                if is_integer t then prevalence_value pp a c else old
              else (old + incidence_value fl c)%Q).
  pose (Inv := fun (k : nat) (st : Population * Randomizer * Reporter) =>
                 st = foldl (tick_age P t) (pp0, Rand, rep) (seq 0 k) /\
                 header st.2 = header rep /\ p st.1.1 = p pp /\
                 (forall a', k <= a' ->
                    prevalence_value st.1.1 a' c = prevalence_value pp a' c) /\
                 (data st.2 !!! c) !!! row = if decide (a < k) then new else old).
  assert (HI : Inv (length inf)
                   (foldl (tick_age P t) (pp0, Rand, rep) (seq 0 (length inf)))).
  { apply foldl_seq_inv.
    - unfold Inv. cbn [fst snd].
      split; [reflexivity|]. split; [reflexivity|]. split; [reflexivity|].
      split; [reflexivity|]. destruct (decide (a < 0)); [lia|reflexivity].
    - intros k [[pp_k r_k] rep_k] Hk (Hst & Hh & Hp & Hval & Hcell). cbn [fst snd] in *.
      pose proof (tick_age_writes P t pp_k r_k rep_k (data rep_k) k) as Hw.
      rewrite set_data_data in Hw.
      destruct (tick_age_lambda P t pp_k r_k rep_k k) as [_ Hp'].
      pose proof (fun a' => tick_age_other P t pp_k r_k rep_k k a') as Hoth.
      pose proof (age_writes_rows P t rep_k pp_k r_k k) as Hrw.
      pose proof (age_writes_cell P t rep_k pp_k r_k k (data rep_k) c Hu Hc9) as Hac.
      destruct (tick_age P t (pp_k, r_k, rep_k) k) as [[pp' r'] rep'] eqn:Hta.
      cbn [fst snd] in *. injection Hw as ->.
      destruct (lengths_lookup (data rep_k) (data rep) c) as [Hl1 Hl2].
      { unfold header in Hh. injection Hh as _ _ _ _ _ _ Hm. exact Hm. }
      unfold Inv. cbn [fst snd data set_data]. split; [|split; [|split; [|split]]].
      + rewrite foldl_seq_S, <- Hst. symmetry. exact Hta.
      + rewrite <- Hh. unfold header.
        cbn [active t0 n_times n_populations n_age_groups col_names data set_data].
        rewrite apply_writes_lengths. reflexivity.
      + congruence.
      + intros a' Ha'.
        rewrite (prevalence_value_state pp' pp_k a' c) by (apply Hoth; lia).
        apply Hval. lia.
      + rewrite (rep_row_header rep_k rep) in Hrw, Hac by exact Hh.
        rewrite Hp in Hrw, Hac.
        destruct (decide (k = a)) as [->|Hne].
        * fold row in Hac. cbv zeta in Hac. rewrite Hac by lia.
          destruct (decide (a < S a)); [|lia].
          destruct (decide (a < a)); [lia|]. rewrite Hcell.
          unfold new. rewrite (Hval a) by lia.
          assert (Hfl : (builtin_states P a (pp_k, r_k)).1.1 = fl).
          { unfold fl, pre. rewrite <- Hst. reflexivity. }
          rewrite Hfl. reflexivity.
        * rewrite apply_writes_row.
          -- rewrite Hcell. destruct (decide (a < k)), (decide (a < S k)); try reflexivity;
               lia.
          -- eapply Forall_impl; [exact Hrw|]. intros w Hw Heq. cbv beta in Hw.
             rewrite Hw in Heq. apply Hne. apply Hrows; [lia|exact Ha|exact Heq]. }
  destruct HI as (_ & Hh & _ & _ & Hcell).
  unfold Population_Tick. fold pp0.
  assert (Hlen : length (lambda pp0) = length inf).
  { unfold pp0. cbn [lambda set_lambda]. apply force_of_infection_length. }
  rewrite Hlen.
  destruct (foldl (tick_age P t) (pp0, Rand, rep) (seq 0 (length inf)))
    as [[pp1 r1] rep1]. cbn [fst snd] in *.
  unfold rep_get. rewrite (rep_row_header rep1 rep) by exact Hh. fold row.
  rewrite Hcell. destruct (decide (a < length inf)); [reflexivity|lia].
Qed.

(** X22. At a whole time, after a tick the cells of the six built-in
    prevalence columns of an age group hold the state in which the tick found
    the population: S, E, Ip, Is, Ia and R as they were before the
    transitions of this step (for process columns from column 9 on, rows that
    differ between the age groups and cells that the data has). *)
Theorem Population_Tick_prevalence P Rand t inf rep pp a c :
  is_integer t = true ->
  user_columns P ->
  rows_distinct rep t (p pp) (length inf) ->
  a < length inf -> c < 6 ->
  c < length (data rep) -> rep_row rep t (p pp) a < length (data rep !!! c) ->
  rep_get (Population_Tick P Rand t inf rep pp).2 t (p pp) a c = prevalence_value pp a c.
Proof.
  intros Hint Hu Hrows Ha Hc6 Hc Hrow.
  rewrite Population_Tick_cell by (try assumption; lia).
  destruct (decide (c < 6)); [|lia]. rewrite Hint. reflexivity.
Qed.

(** X23. After a tick, the cell of each built-in incidence column of an age
    group holds what it held before plus the flow of this step in that age
    group: the onsets of symptoms [nIp_Is] for [cases], the matured reports
    [n_reported] for [cases_reported] and the flow [nE_Ia] for [subclinical]
    (under the same conditions on columns and rows); the flows are those of
    the built-in chain in the state in which the iteration of the age group
    starts. *)
Theorem Population_Tick_incidence P Rand t inf rep pp a c :
  user_columns P ->
  rows_distinct rep t (p pp) (length inf) ->
  a < length inf -> 6 <= c < 9 ->
  c < length (data rep) -> rep_row rep t (p pp) a < length (data rep !!! c) ->
  let pre := foldl (tick_age P t)
                   (set_lambda pp (force_of_infection P (p pp) inf), Rand, rep)
                   (seq 0 a) in
  let fl := (builtin_states P a pre.1).1.1 in
  rep_get (Population_Tick P Rand t inf rep pp).2 t (p pp) a c
  = (rep_get rep t (p pp) a c + incidence_value fl c)%Q.
Proof.
  intros Hu Hrows Ha Hc69 Hc Hrow pre fl.
  rewrite Population_Tick_cell by (try assumption; lia).
  destruct (decide (c < 6)); [lia|]. reflexivity.
Qed.

(** X24. A tick runs over as many age groups as [infec] has entries: an
    age group of the population beyond them keeps its state (its entries of
    S, R, of the compartments of the built-in chain and of the process
    compartments). *)
Theorem Population_Tick_untouched_ages P Rand t inf rep pp a :
  length inf <= a ->
  age_state (Population_Tick P Rand t inf rep pp).1.1.2 a = age_state pp a.
Proof.
  intros Ha. rewrite Population_Tick_population.
  set (pp0 := set_lambda pp (force_of_infection P (p pp) inf)).
  assert (HI : (fun (k : nat) (st : Population * Randomizer * Reporter) =>
                  age_state st.1.1 a = age_state pp a) (length inf)
                 (foldl (tick_age P t) (pp0, Rand, rep) (seq 0 (length inf)))).
  { apply foldl_seq_inv; [reflexivity|].
    intros k [[s r] rp] Hk Hs. cbn [fst snd] in *.
    rewrite tick_age_other by lia. exact Hs. }
  exact HI.
Qed.

End Cells.

(** ** The alignment of the reports with the reporting intervals *)

(** Writes of which no assignment goes to the cell add to it what they
    accumulate into it. *)
Lemma apply_writes_added ws d c row :
  Forall (fun w => match w with
                   | Assign c' row' _ => (c', row') <> (c, row)
                   | Accumulate _ _ _ => True
                   end) ws ->
  c < length d -> row < length (d !!! c) ->
  ((foldl apply_write d ws !!! c) !!! row == (d !!! c) !!! row + accumulated ws c row)%Q.
Proof.
  intros Hws. revert d. induction Hws as [|w ws Hw _ IH]; intros d Hc Hrow.
  - cbn [foldl accumulated]. ring.
  - cbn [foldl].
    destruct (lengths_lookup _ _ c (apply_write_lengths d w)) as [Hl1 Hl2].
    rewrite IH by lia. destruct w as [c' row' v|c' row' v]; cbn [accumulated].
    + rewrite apply_write_cell_other by exact Hw. reflexivity.
    + destruct (Nat.eqb_spec c' c) as [->|Hne]; cbn [andb].
      * destruct (Nat.eqb_spec row' row) as [->|Hne].
        -- cbn [apply_write]. rewrite !list_lookup_total_alter_eq by lia. ring.
        -- rewrite apply_write_cell_other; [reflexivity|].
           cbn [write_cell]. congruence.
      * rewrite apply_write_cell_other; [reflexivity|].
        cbn [write_cell]. congruence.
Qed.

Section Alignment.
Context `{Ext : Externals}.

(** A tick adds to a cell that it does not assign what it accumulates into
    it. *)
Lemma population_writes_added P Rand t inf rep pp d c row :
  ~ prevalence_channel P c \/ is_integer t = false ->
  c < length d -> row < length (d !!! c) ->
  ((foldl apply_write d (population_writes P Rand t inf rep pp) !!! c) !!! row
   == (d !!! c) !!! row + accumulated (population_writes P Rand t inf rep pp) c row)%Q.
Proof.
  intros Hc. apply apply_writes_added.
  eapply Forall_impl; [apply population_writes_aligned|].
  intros [c' row' v|c' row' v] Hw; [|exact I].
  destruct Hw as (Hint & Hch & _). intros Heq. injection Heq as -> _.
  destruct Hc as [Hn|Hf]; [contradiction|congruence].
Qed.

Lemma Population_Tick_data P Rand t inf rep pp :
  data (Population_Tick P Rand t inf rep pp).2
  = foldl apply_write (data rep) (population_writes P Rand t inf rep pp).
Proof.
  rewrite <- (population_writes_data P Rand t inf rep pp (data rep)).
  rewrite set_data_data. reflexivity.
Qed.

(** C9. The writes of [Population::Tick] to the reporter form a list that
    does not depend on the cells of the reporter.  Every assignment in it is
    to a prevalence channel and happens only when [t == (int)t]; every write
    to an incidence or outcidence channel is an accumulation; and every write
    goes to the row of [(t, p, a)] for an age group [a] of the tick.  A cell
    to which the tick assigns nothing therefore holds afterwards what it held
    before plus what the tick accumulates into it, and two ticks of one
    population at times of the same time index add up in the same cell.
    Without overflow of the row, the rows of the tick are rows of the time
    index [(unsigned int)(t - t0)] and of no other: a cell shares a row of the
    tick only if it has this time index, and every cell of another time index
    keeps its value, so that nothing is carried from one interval into the
    next.  The constructor gives every cell the value zero and never uses one
    column for both kinds of channel. *)
Theorem reporting_alignment P Rand t inf rep pp :
  let ws := population_writes P Rand t inf rep pp in
  ((forall d,
      data (Population_Tick P Rand t inf (set_data rep d) pp).2 = foldl apply_write d ws) /\
   Forall (aligned_write P t rep (p pp) (length inf)) ws) /\
  (forall d c row,
     ~ prevalence_channel P c \/ is_integer t = false ->
     c < length d -> row < length (d !!! c) ->
     ((foldl apply_write d ws !!! c) !!! row
      == (d !!! c) !!! row + accumulated ws c row)%Q) /\
  (forall P' Rand' t' inf' pp' a c,
     uint_of_Q (t' - t0 rep) = uint_of_Q (t - t0 rep) -> p pp' = p pp ->
     ~ prevalence_channel P c \/ is_integer t = false ->
     ~ prevalence_channel P' c \/ is_integer t' = false ->
     c < length (data rep) -> rep_row rep t (p pp) a < length (data rep !!! c) ->
     let rep1 := (Population_Tick P Rand t inf rep pp).2 in
     let rep2 := (Population_Tick P' Rand' t' inf' rep1 pp').2 in
     (rep_get rep2 t' (p pp') a c
      == rep_get rep t (p pp) a c
         + accumulated ws c (rep_row rep t (p pp) a)
         + accumulated (population_writes P' Rand' t' inf' rep1 pp') c
                       (rep_row rep t (p pp) a))%Q) /\
  ((n_times rep * n_populations rep * n_age_groups rep < 4294967296)%N ->
   (uint_of_Q (t - t0 rep) < n_times rep)%N ->
   (N.of_nat (p pp) < n_populations rep)%N ->
   (N.of_nat (length inf) <= n_age_groups rep)%N ->
   forall t' i a,
     (uint_of_Q (t' - t0 rep) < n_times rep)%N ->
     (N.of_nat i < n_populations rep)%N -> (N.of_nat a < n_age_groups rep)%N ->
     (forall a0, a0 < length inf ->
        rep_row rep t' i a = rep_row rep t (p pp) a0
        <-> uint_of_Q (t' - t0 rep) = uint_of_Q (t - t0 rep) /\ i = p pp /\ a = a0) /\
     (uint_of_Q (t' - t0 rep) <> uint_of_Q (t - t0 rep) ->
      forall c,
        rep_get (Population_Tick P Rand t inf rep pp).2 t' i a c = rep_get rep t' i a c)) /\
  (forall P0 full rep0 P1,
     fresh_columns P0 ->
     Reporter_new P0 full = Ok (rep0, P1) ->
     (forall c, prevalence_channel P1 c -> incidence_channel P1 c -> False) /\
     zeros (data rep0)).
Proof.
  intros ws.
  split; [|split; [|split; [|split]]].
  - split; [|apply population_writes_aligned]. intros d. apply population_writes_data.
  - intros d c row. apply population_writes_added.
  - intros P' Rand' t' inf' pp' a c Hidx Hp Hc1 Hc2 Hc Hrow rep1 rep2.
    set (row := rep_row rep t (p pp) a) in *.
    destruct (Population_Tick_frame P Rand t inf rep pp) as [Hh1 _].
    destruct (Population_Tick_frame P' Rand' t' inf' rep1 pp') as [Hh2 _].
    fold rep1 in Hh1. fold rep2 in Hh2.
    assert (Hrow2 : rep_row rep2 t' (p pp') a = row).
    { rewrite (rep_row_header rep2 rep1) by exact Hh2.
      rewrite (rep_row_header rep1 rep) by exact Hh1.
      unfold row, rep_row. rewrite Hidx, Hp. reflexivity. }
    unfold rep_get. rewrite Hrow2. fold row.
    assert (Hd1 : data rep1 = foldl apply_write (data rep) ws)
      by apply Population_Tick_data.
    assert (Hd2 : data rep2
                  = foldl apply_write (data rep1)
                          (population_writes P' Rand' t' inf' rep1 pp'))
      by apply Population_Tick_data.
    destruct (lengths_lookup (data rep1) (data rep) c) as [Hl1 Hl2].
    { rewrite Hd1. apply apply_writes_lengths. }
    rewrite Hd2, population_writes_added by (try exact Hc2; lia).
    rewrite Hd1. unfold ws. rewrite population_writes_added by assumption.
    reflexivity.
  - intros Hfit Hk Hp Hn t' i a Hk' Hi Ha.
    assert (Hrows : forall a0, a0 < length inf ->
              rep_row rep t' i a = rep_row rep t (p pp) a0
              <-> uint_of_Q (t' - t0 rep) = uint_of_Q (t - t0 rep) /\ i = p pp /\ a = a0).
    { intros a0 Ha0.
      destruct (rep_row_value rep t' i a Hfit Hk' Hi Ha) as [Hv1 _].
      destruct (rep_row_value rep t (p pp) a0 Hfit Hk Hp) as [Hv2 _]; [lia|].
      cbv zeta in Hv1, Hv2. rewrite Hv1, Hv2. split.
      - intros Heq. apply N2Nat.inj in Heq.
        apply row_digits in Heq as (Hke & Hie & Hae); [|lia..].
        split; [exact Hke|]. split; lia.
      - intros (-> & -> & ->). reflexivity. }
    split; [exact Hrows|].
    intros Hne c.
    destruct (Population_Tick_frame P Rand t inf rep pp) as [Hh Hcells].
    unfold rep_get. rewrite (rep_row_header _ rep _ _ _ Hh). apply Hcells.
    intros a0 Ha0 Heq. apply (Hrows a0 Ha0) in Heq as (Hke & _). contradiction.
  - intros P0 full rep0 P1. apply Reporter_new_channels.
Qed.

End Alignment.

(** ** The reports of the process compartments *)

Lemma lookup_total_seq {A : Type} `{!Inhabited A} (l : list A) :
  map (fun i => l !!! i) (seq 0 (length l)) = l.
Proof.
  induction l as [|x l IH]; [reflexivity|].
  cbn [length seq map]. f_equal. rewrite <- seq_shift, map_map. exact IH.
Qed.

(** Writes to distinct columns, one of which accumulates [v] into the cell:
    the cell holds afterwards what it held before plus [v]. *)
Lemma apply_writes_once ws d c row v :
  NoDup (map (fun w => (write_cell w).1) ws) ->
  Accumulate c row v ∈ ws ->
  c < length d -> row < length (d !!! c) ->
  (foldl apply_write d ws !!! c) !!! row = ((d !!! c) !!! row + v)%Q.
Proof.
  intros Hnd Hin Hc Hrow.
  destruct (list_elem_of_split _ _ Hin) as (ws1 & ws2 & ->).
  rewrite map_app in Hnd. cbn [map write_cell fst] in Hnd.
  apply NoDup_app in Hnd as (_ & Hdisj & Hnd2).
  apply NoDup_cons in Hnd2 as [Hc2 _].
  assert (Hc1 : c ∉ map (fun w => (write_cell w).1) ws1).
  { intros H1. apply (Hdisj c H1). left. }
  assert (Hother : forall l, c ∉ map (fun w => (write_cell w).1) l ->
                             Forall (fun w => write_cell w <> (c, row)) l).
  { intros l Hl. apply Forall_forall. intros w Hw Heq. apply Hl.
    apply list_elem_of_fmap. exists w. rewrite Heq. split; [reflexivity|exact Hw]. }
  apply apply_writes_accumulated; auto.
Qed.

(** *** The columns are distinct *)

Lemma kind_cols_range kind s es c :
  c ∈ kind_cols kind s es -> s <= c < s + length es.
Proof.
  revert s. induction es as [|e es IH]; intros s Hc; simpl in *.
  - apply elem_of_nil in Hc. contradiction.
  - destruct (Ascii.eqb e.2 kind).
    + apply elem_of_cons in Hc as [->|Hc]; [lia|]. apply IH in Hc. lia.
    + apply IH in Hc. lia.
Qed.

Lemma kind_cols_NoDup kind s es : NoDup (kind_cols kind s es).
Proof.
  revert s. induction es as [|e es IH]; intros s; simpl; [constructor|].
  destruct (Ascii.eqb e.2 kind); [|apply IH].
  constructor; [|apply IH]. intros Hs. apply kind_cols_range in Hs. lia.
Qed.

Lemma kind_cols_kind k1 k2 s es c :
  c ∈ kind_cols k1 s es -> c ∈ kind_cols k2 s es -> k1 = k2.
Proof.
  revert s. induction es as [|e es IH]; intros s H1 H2; simpl in *.
  - apply elem_of_nil in H1. contradiction.
  - destruct (Ascii.eqb_spec e.2 k1) as [E1|E1], (Ascii.eqb_spec e.2 k2) as [E2|E2].
    + congruence.
    + apply elem_of_cons in H1 as [->|H1]; [apply kind_cols_range in H2; lia|].
      eapply IH; eauto.
    + apply elem_of_cons in H2 as [->|H2]; [apply kind_cols_range in H1; lia|].
      eapply IH; eauto.
    + eapply IH; eauto.
Qed.

(** The columns that [place_columns] gives to processes without columns lie
    from [s] on, and no column is given twice. *)
Lemma place_columns_distinct s prs :
  Forall (fun pr => p_cols pr = [] /\ i_cols pr = [] /\ o_cols pr = []) prs ->
  let L := place_columns s prs in
  (forall c, c ∈ flat_map p_cols L ++ flat_map (fun pr => i_cols pr ++ o_cols pr) L ->
             s <= c) /\
  NoDup (flat_map p_cols L ++ flat_map (fun pr => i_cols pr ++ o_cols pr) L).
Proof.
  cbv zeta. intros Hfresh. revert s.
  induction Hfresh as [|pr prs (Hp & Hi & Ho) _ IH]; intros s; cbn [place_columns flat_map].
  - split; [intros c Hc; apply elem_of_nil in Hc; contradiction|constructor].
  - destruct (IH (s + length (report_entries pr))) as [Hge Hnd].
    set (s' := s + length (report_entries pr)) in *.
    set (A := flat_map p_cols (place_columns s' prs)) in *.
    set (B := flat_map (fun pr0 => i_cols pr0 ++ o_cols pr0) (place_columns s' prs)) in *.
    cbn [with_columns p_cols i_cols o_cols]. rewrite Hp, Hi, Ho. cbn [app].
    set (kp := kind_cols "p" s (report_entries pr)).
    set (ki := kind_cols "i" s (report_entries pr)).
    set (ko := kind_cols "o" s (report_entries pr)).
    assert (Rp : forall c, c ∈ kp -> s <= c < s') by (intros c; apply kind_cols_range).
    assert (Ri : forall c, c ∈ ki -> s <= c < s') by (intros c; apply kind_cols_range).
    assert (Ro : forall c, c ∈ ko -> s <= c < s') by (intros c; apply kind_cols_range).
    assert (RA : forall c, c ∈ A -> s' <= c).
    { intros c Hc. apply Hge, elem_of_app. left. exact Hc. }
    assert (RB : forall c, c ∈ B -> s' <= c).
    { intros c Hc. apply Hge, elem_of_app. right. exact Hc. }
    apply NoDup_app in Hnd as (HndA & HAB & HndB).
    assert (Dpi : forall c, c ∈ kp -> c ∈ ki -> False).
    { intros c H1 H2. pose proof (kind_cols_kind _ _ _ _ _ H1 H2). discriminate. }
    assert (Dpo : forall c, c ∈ kp -> c ∈ ko -> False).
    { intros c H1 H2. pose proof (kind_cols_kind _ _ _ _ _ H1 H2). discriminate. }
    assert (Dio : forall c, c ∈ ki -> c ∈ ko -> False).
    { intros c H1 H2. pose proof (kind_cols_kind _ _ _ _ _ H1 H2). discriminate. }
    split.
    + intros c Hc. rewrite !elem_of_app in Hc.
      destruct Hc as [[Hc|Hc]|[[Hc|Hc]|Hc]];
        try (apply Rp in Hc; lia); try (apply Ri in Hc; lia); try (apply Ro in Hc; lia);
        try (apply RA in Hc; lia); apply RB in Hc; lia.
    + apply NoDup_app. split; [|split].
      * apply NoDup_app. split; [apply kind_cols_NoDup|]. split; [|exact HndA].
        intros c H1 H2. apply Rp in H1. apply RA in H2. lia.
      * intros c H1 H2. apply elem_of_app in H1. apply elem_of_app in H2.
        rewrite elem_of_app in H2.
        destruct H1 as [H1|H1], H2 as [[H2|H2]|H2].
        -- exact (Dpi c H1 H2).
        -- exact (Dpo c H1 H2).
        -- apply Rp in H1. apply RB in H2. lia.
        -- apply RA in H1. apply Ri in H2. lia.
        -- apply RA in H1. apply Ro in H2. lia.
        -- exact (HAB c H1 H2).
      * apply NoDup_app. split; [|split; [|exact HndB]].
        -- apply NoDup_app. split; [apply kind_cols_NoDup|].
           split; [|apply kind_cols_NoDup]. intros c H1 H2. exact (Dio c H1 H2).
        -- intros c H1 H2. apply elem_of_app in H1. apply RB in H2.
           destruct H1 as [H1|H1]; [apply Ri in H1|apply Ro in H1]; lia.
Qed.

(** The constructor of the reporter hands out distinct columns. *)
Lemma Reporter_new_distinct P full rep P1 :
  fresh_columns P -> Reporter_new P full = Ok (rep, P1) -> distinct_columns P1.
Proof.
  intros Hfresh Hnew. apply Reporter_new_Ok in Hnew as [_ ->].
  unfold distinct_columns. cbn [processes set_processes].
  destruct (place_columns_distinct 9 (processes P) Hfresh) as [Hge Hnd].
  cbv zeta in Hge, Hnd.
  set (A := flat_map p_cols (place_columns 9 (processes P))) in *.
  set (B := flat_map (fun pr => i_cols pr ++ o_cols pr) (place_columns 9 (processes P))) in *.
  assert (RA : forall c, c ∈ A -> 9 <= c).
  { intros c Hc. apply Hge, elem_of_app. left. exact Hc. }
  assert (RB : forall c, c ∈ B -> 9 <= c).
  { intros c Hc. apply Hge, elem_of_app. right. exact Hc. }
  apply NoDup_app in Hnd as (HndA & HAB & HndB).
  assert (S06 : forall c, c ∈ seq 0 6 -> c < 6).
  { intros c Hc. apply list_elem_of_In, in_seq in Hc. lia. }
  assert (S63 : forall c, c ∈ seq 6 3 -> 6 <= c < 9).
  { intros c Hc. apply list_elem_of_In, in_seq in Hc. lia. }
  apply NoDup_app. split; [|split].
  - apply NoDup_app. split; [apply NoDup_ListNoDup, seq_NoDup|]. split; [|exact HndA].
    intros c H1 H2. apply S06 in H1. apply RA in H2. lia.
  - intros c H1 H2. apply elem_of_app in H1. apply elem_of_app in H2.
    destruct H1 as [H1|H1], H2 as [H2|H2].
    + apply S06 in H1. apply S63 in H2. lia.
    + apply S06 in H1. apply RB in H2. lia.
    + apply RA in H1. apply S63 in H2. lia.
    + exact (HAB c H1 H2).
  - apply NoDup_app. split; [apply NoDup_ListNoDup, seq_NoDup|]. split; [|exact HndB].
    intros c H1 H2. apply S63 in H1. apply RB in H2. lia.
Qed.

Section ProcessReports.
Context `{Ext : Externals}.

Lemma prevalence_writes_columns P row a pp :
  map (fun w => (write_cell w).1) (prevalence_writes P row a pp)
  = seq 0 6 ++ flat_map p_cols (processes P).
Proof.
  unfold prevalence_writes. rewrite map_app. f_equal.
  induction (processes P) as [|pr prs IH]; [reflexivity|].
  cbn [flat_map]. rewrite map_app, IH, map_map. cbn [write_cell fst].
  rewrite lookup_total_seq. reflexivity.
Qed.

Lemma incidence_writes_columns P row fl pp :
  map (fun w => (write_cell w).1) (incidence_writes P row fl pp)
  = seq 6 3 ++ flat_map (fun pr => i_cols pr ++ o_cols pr) (processes P).
Proof.
  unfold incidence_writes. rewrite map_app. f_equal.
  induction (processes P) as [|pr prs IH]; [reflexivity|].
  cbn [flat_map]. rewrite !map_app, IH, !map_map. cbn [write_cell fst].
  rewrite !lookup_total_seq. reflexivity.
Qed.

(** With distinct columns, the writes of one iteration go to distinct
    columns. *)
Lemma age_writes_columns P t rep pp Rand a :
  distinct_columns P ->
  NoDup (map (fun w => (write_cell w).1) (age_writes P t rep (pp, Rand) a)).
Proof.
  unfold distinct_columns, age_writes. intros Hnd. cbn [fst snd].
  rewrite map_app, incidence_writes_columns.
  destruct (is_integer t).
  - rewrite prevalence_writes_columns. exact Hnd.
  - cbn [map app]. apply NoDup_app in Hnd as (_ & _ & Hnd). exact Hnd.
Qed.

(** The cell of an incidence or outcidence column of a process in the row of
    an age iteration after the writes of that iteration. *)
Lemma age_writes_process_cell P t rep pp Rand a d pr k :
  distinct_columns P -> pr ∈ processes P ->
  let row := rep_row rep t (p pp) a in
  let after := (tick_age P t (pp, Rand, rep) a).1.1 in
  let d' := foldl apply_write d (age_writes P t rep (pp, Rand) a) in
  (k < length (i_cols pr) ->
   i_cols pr !!! k < length d -> row < length (d !!! (i_cols pr !!! k)) ->
   (d' !!! (i_cols pr !!! k)) !!! row
   = ((d !!! (i_cols pr !!! k)) !!! row + pci after !!! (i_ids pr !!! k))%Q) /\
  (k < length (o_cols pr) ->
   o_cols pr !!! k < length d -> row < length (d !!! (o_cols pr !!! k)) ->
   (d' !!! (o_cols pr !!! k)) !!! row
   = ((d !!! (o_cols pr !!! k)) !!! row + pco after !!! (o_ids pr !!! k))%Q).
Proof.
  intros Hnd Hpr row after d'.
  pose proof (age_writes_columns P t rep pp Rand a Hnd) as Hcols.
  assert (Hin : forall w,
            In w (map (fun i => Accumulate (i_cols pr !!! i) row
                                  (pci after !!! (i_ids pr !!! i)))
                      (seq 0 (length (i_cols pr)))
                  ++ map (fun i => Accumulate (o_cols pr !!! i) row
                                     (pco after !!! (o_ids pr !!! i)))
                         (seq 0 (length (o_cols pr)))) ->
            w ∈ age_writes P t rep (pp, Rand) a).
  { intros w Hw. unfold age_writes. cbn [fst snd]. fold row. fold after.
    apply elem_of_app. right. unfold incidence_writes.
    apply elem_of_app. right. apply list_elem_of_In, in_flat_map.
    exists pr. split; [apply list_elem_of_In; exact Hpr|exact Hw]. }
  split; intros Hk Hc Hrow; unfold d'.
  - apply apply_writes_once; [exact Hcols| |exact Hc|exact Hrow].
    apply Hin, in_or_app. left. apply in_map_iff. exists k.
    split; [reflexivity|]. apply in_seq. lia.
  - apply apply_writes_once; [exact Hcols| |exact Hc|exact Hrow].
    apply Hin, in_or_app. right. apply in_map_iff. exists k.
    split; [reflexivity|]. apply in_seq. lia.
Qed.

(** Of the iterations of a tick, only that of age [a] writes to the row of
    age [a]: before it the row is as before the tick, after it the row is as
    at the end of the tick. *)
Lemma Population_Tick_age_row P Rand t inf rep pp a c :
  rows_distinct rep t (p pp) (length inf) -> a < length inf ->
  let pp0 := set_lambda pp (force_of_infection P (p pp) inf) in
  let pre := foldl (tick_age P t) (pp0, Rand, rep) (seq 0 a) in
  let row := rep_row rep t (p pp) a in
  header pre.2 = header rep /\ p pre.1.1 = p pp /\
  (data pre.2 !!! c) !!! row = (data rep !!! c) !!! row /\
  (data (Population_Tick P Rand t inf rep pp).2 !!! c) !!! row
  = (data (tick_age P t pre a).2 !!! c) !!! row.
Proof.
  intros Hrows Ha pp0 pre row.
  set (old := (data rep !!! c) !!! row).
  set (new := (data (tick_age P t pre a).2 !!! c) !!! row).
  pose (Inv := fun (k : nat) (st : Population * Randomizer * Reporter) =>
                 st = foldl (tick_age P t) (pp0, Rand, rep) (seq 0 k) /\
                 header st.2 = header rep /\ p st.1.1 = p pp /\
                 (data st.2 !!! c) !!! row = if decide (a < k) then new else old).
  assert (Hstep : forall k st, k < length inf -> Inv k st -> Inv (S k) (tick_age P t st k)).
  { intros k [[pp_k r_k] rep_k] Hk (Hst & Hh & Hp & Hcell). cbn [fst snd] in *.
    pose proof (tick_age_writes P t pp_k r_k rep_k (data rep_k) k) as Hw.
    rewrite set_data_data in Hw.
    destruct (tick_age_lambda P t pp_k r_k rep_k k) as [_ Hp'].
    pose proof (age_writes_rows P t rep_k pp_k r_k k) as Hrw.
    assert (Hnew : k = a ->
              (data (tick_age P t (pp_k, r_k, rep_k) k).2 !!! c) !!! row = new).
    { intros ->. unfold new, pre. rewrite <- Hst. reflexivity. }
    destruct (tick_age P t (pp_k, r_k, rep_k) k) as [[pp' r'] rep'] eqn:Hta.
    cbn [fst snd] in *. injection Hw as ->.
    unfold Inv. cbn [fst snd data set_data] in *. split; [|split; [|split]].
    - rewrite foldl_seq_S, <- Hst. symmetry. exact Hta.
    - rewrite <- Hh. unfold header.
      cbn [active t0 n_times n_populations n_age_groups col_names data set_data].
      rewrite apply_writes_lengths. reflexivity.
    - congruence.
    - destruct (decide (k = a)) as [Hka|Hne].
      + rewrite (Hnew Hka). destruct (decide (a < S k)); [reflexivity|lia].
      + rewrite apply_writes_row.
        * rewrite Hcell. destruct (decide (a < k)), (decide (a < S k)); try reflexivity;
            lia.
        * rewrite (rep_row_header rep_k rep) in Hrw by exact Hh. rewrite Hp in Hrw.
          eapply Forall_impl; [exact Hrw|]. intros w Hw Heq. cbv beta in Hw.
          rewrite Hw in Heq. apply Hne. apply Hrows; [lia|exact Ha|exact Heq]. }
  assert (H0 : Inv 0 (pp0, Rand, rep)).
  { unfold Inv. cbn [fst snd]. split; [reflexivity|]. split; [reflexivity|].
    split; [reflexivity|]. destruct (decide (a < 0)); [lia|reflexivity]. }
  assert (Hall : forall k, k <= length inf ->
            Inv k (foldl (tick_age P t) (pp0, Rand, rep) (seq 0 k))).
  { induction k as [|k IH]; intros Hk; [exact H0|].
    rewrite foldl_seq_S. apply Hstep; [lia|]. apply IH. lia. }
  destruct (Hall a ltac:(lia)) as (_ & Hh & Hp & Hcell). fold pre in Hh, Hp, Hcell.
  destruct (decide (a < a)); [lia|].
  destruct (Hall (length inf) ltac:(lia)) as (_ & _ & _ & Hend).
  destruct (decide (a < length inf)); [|lia].
  split; [exact Hh|]. split; [exact Hp|]. split; [exact Hcell|].
  unfold Population_Tick. fold pp0.
  assert (Hlen : length (lambda pp0) = length inf).
  { unfold pp0. cbn [lambda set_lambda]. apply force_of_infection_length. }
  rewrite Hlen.
  destruct (foldl (tick_age P t) (pp0, Rand, rep) (seq 0 (length inf)))
    as [[pp1 r1] rep1]. exact Hend.
Qed.

(** C10.  In the iteration of age [a] of [Population::Tick], with distinct
    compartment ids that index [pci] and [pco]: after the iteration [pco[id]]
    is the count that [pc[id][a]] matured in this iteration, [pci[ids[c]]] is
    the [c]-th count of the split that its process drew in this iteration
    from the entering count of this age group ([n * prob[a][c]] in
    deterministic mode), and a process whose source is a process compartment
    enters the count that this compartment matured for this age group.  The
    reporter accumulates these values: with distinct report columns, the cell
    of an incidence column [i_cols[k]] in the row of age [a] holds after the
    iteration what it held before plus [pci[i_ids[k]]], and the cell of an
    outcidence column [o_cols[k]] what it held before plus [pco[o_ids[k]]],
    with the values that [pci] and [pco] have after this iteration.  When the
    iteration is the one of age [a] in a tick whose age groups have rows of
    their own, no other iteration of the tick writes to this row: it holds
    before the iteration what it held before the tick, and at the end of the
    tick what this iteration left in it.  The report columns are distinct when
    the constructor of the reporter has handed them out to processes that had
    none. *)
Theorem process_counts_per_age P t pp Rand rep a :
  NoDup (flat_map ids (processes P)) ->
  (forall id, id ∈ flat_map ids (processes P) ->
              id < length (pci pp) /\ id < length (pco pp)) ->
  let fl := (builtin_states P a (pp, Rand)).1.1 in
  let res := tick_age P t (pp, Rand, rep) a in
  let after := res.1.1 in
  (forall id, id ∈ flat_map ids (processes P) ->
     pco after !!! id = (Compartment_Mature ((pc pp !!! id) !!! a)).1) /\
  (forall pr c, pr ∈ processes P -> c < length (ids pr) ->
     exists r nd ni,
       pci after !!! (ids pr !!! c)
       = (multinomial P r (n_entering fl (pco after) (source_id pr))
                      (prob pr !!! a) nd ni).1.1 !!! c) /\
  (deterministic P = true ->
   forall pr c, pr ∈ processes P -> c < length (ids pr) ->
     c < length (prob pr !!! a) ->
     pci after !!! (ids pr !!! c)
     = (n_entering fl (pco after) (source_id pr) * ((prob pr !!! a) !!! c))%Q) /\
  (forall pr, pr ∈ processes P ->
     source_id pr ∉ [srcS; srcE; srcEp; srcEa; srcIp; srcIs; srcH; srcIa; srcI] ->
     source_id pr ∈ flat_map ids (processes P) ->
     n_entering fl (pco after) (source_id pr)
     = (Compartment_Mature ((pc pp !!! source_id pr) !!! a)).1) /\
  res.2 = report_incidence P t a fl after
            (if is_integer t then report_prevalence P t a pp rep else rep) /\
  (distinct_columns P ->
   forall pr k, pr ∈ processes P ->
     (k < length (i_cols pr) ->
      i_cols pr !!! k < length (data rep) ->
      rep_row rep t (p pp) a < length (data rep !!! (i_cols pr !!! k)) ->
      rep_get res.2 t (p pp) a (i_cols pr !!! k)
      = (rep_get rep t (p pp) a (i_cols pr !!! k) + pci after !!! (i_ids pr !!! k))%Q) /\
     (k < length (o_cols pr) ->
      o_cols pr !!! k < length (data rep) ->
      rep_row rep t (p pp) a < length (data rep !!! (o_cols pr !!! k)) ->
      rep_get res.2 t (p pp) a (o_cols pr !!! k)
      = (rep_get rep t (p pp) a (o_cols pr !!! k) + pco after !!! (o_ids pr !!! k))%Q)) /\
  (forall inf Rand0 rep0 pp0,
     a < length inf ->
     rows_distinct rep0 t (p pp0) (length inf) ->
     (pp, Rand, rep)
     = foldl (tick_age P t)
             (set_lambda pp0 (force_of_infection P (p pp0) inf), Rand0, rep0) (seq 0 a) ->
     p pp = p pp0 /\
     forall c,
       rep_get rep t (p pp) a c = rep_get rep0 t (p pp) a c /\
       rep_get (Population_Tick P Rand0 t inf rep0 pp0).2 t (p pp) a c
       = rep_get res.2 t (p pp) a c) /\
  (forall P0 full rep0,
     fresh_columns P0 -> Reporter_new P0 full = Ok (rep0, P) -> distinct_columns P).
Proof.
  intros Hnd Hlt fl res after.
  destruct (process_counts_iteration P t pp Rand rep a Hnd Hlt)
    as (H1 & H2 & H3 & H4 & H5).
  fold fl res after in H1, H2, H3, H4, H5.
  split; [exact H1|]. split; [exact H2|]. split; [exact H3|]. split; [exact H4|].
  split; [exact H5|]. split; [|split].
  - intros Hcols pr k Hpr.
    pose proof (tick_age_writes P t pp Rand rep (data rep) a) as Hw.
    rewrite set_data_data in Hw. fold res in Hw.
    assert (Hdata : res.2 = set_data rep (foldl apply_write (data rep)
                                            (age_writes P t rep (pp, Rand) a))).
    { rewrite Hw. reflexivity. }
    destruct (age_writes_process_cell P t rep pp Rand a (data rep) pr k Hcols Hpr)
      as [Hi Ho].
    cbv zeta in Hi, Ho. fold res after in Hi, Ho.
    unfold rep_get. rewrite Hdata, !rep_row_set_data. cbn [data set_data].
    split; intros; [apply Hi|apply Ho]; assumption.
  - intros inf Rand0 rep0 pp0 Ha Hrows Hpre.
    assert (Hp : p pp = p pp0).
    { destruct (Population_Tick_age_row P Rand0 t inf rep0 pp0 a 0 Hrows Ha)
        as (_ & Hp & _). cbv zeta in Hp. rewrite <- Hpre in Hp. exact Hp. }
    split; [exact Hp|]. intros c.
    destruct (Population_Tick_age_row P Rand0 t inf rep0 pp0 a c Hrows Ha)
      as (Hh & _ & Hbefore & Hend).
    cbv zeta in Hh, Hbefore, Hend. rewrite <- Hpre in Hh, Hbefore, Hend.
    cbn [fst snd] in Hh. fold res in Hend.
    assert (Hh' : header res.2 = header rep0).
    { pose proof (tick_age_writes P t pp Rand rep (data rep) a) as Hw.
      rewrite set_data_data in Hw. fold res in Hw. rewrite Hw, <- Hh. unfold header.
      cbn [snd active t0 n_times n_populations n_age_groups col_names data set_data].
      rewrite apply_writes_lengths. reflexivity. }
    destruct (Population_Tick_frame P Rand0 t inf rep0 pp0) as [Hhe _].
    unfold rep_get. rewrite Hp.
    rewrite (rep_row_header rep rep0) by exact Hh.
    rewrite (rep_row_header _ rep0 _ _ _ Hhe).
    rewrite (rep_row_header res.2 rep0) by exact Hh'.
    split; [exact Hbefore|exact Hend].
  - intros P0 full rep0 Hfresh Hnew. exact (Reporter_new_distinct _ _ _ _ Hfresh Hnew).
Qed.

End ProcessReports.

(** ** The occupancy of the process compartments *)

Section ProcessBalance.
Context `{Ext : Externals}.

Lemma mature_compartment_step a pp id0 :
  let c1 := (Compartment_Mature ((pc pp !!! id0) !!! a)).2 in
  let m := (Compartment_Mature ((pc pp !!! id0) !!! a)).1 in
  let pp0 := mature_compartment a pp id0 in
  pc pp0 = alter (fun row => <[a := c1]> row) id0 (pc pp) /\
  pco pp0 = <[id0 := m]> (pco pp) /\ pci pp0 = pci pp.
Proof.
  cbv zeta. unfold mature_compartment.
  destruct (Compartment_Mature _) as [m c1]. repeat split.
Qed.

Lemma seed_compartment_step P a process pp r c0 id0 :
  let n := nd_out pp !!! c0 in
  let c1 := (Compartment_Add P r n (delays process !!! c0) ((pc pp !!! id0) !!! a)).1 in
  exists pp0 r0,
    seed_compartment P a process (pp, r, c0) id0 = (pp0, r0, c0 + 1) /\
    pc pp0 = alter (fun row => <[a := c1]> row) id0 (pc pp) /\
    pci pp0 = <[id0 := n]> (pci pp) /\ pco pp0 = pco pp.
Proof.
  cbv zeta. unfold seed_compartment.
  destruct (Compartment_Add _ _ _ _ _) as [c1 r1]. do 2 eexists. repeat split.
Qed.

(** Maturing the compartments [l] leaves a compartment outside [l] as it is. *)
Lemma mature_compartments_others a l pp id :
  id ∉ l ->
  let pp1 := foldl (mature_compartment a) pp l in
  pc pp1 !!! id = pc pp !!! id /\ pco pp1 !!! id = pco pp !!! id /\
  pci pp1 = pci pp /\ length (pc pp1) = length (pc pp).
Proof.
  cbv zeta. revert pp. induction l as [|id0 l IH]; intros pp Hid; cbn [foldl].
  - repeat split.
  - apply not_elem_of_cons in Hid as [Hne Hid].
    destruct (IH (mature_compartment a pp id0) Hid) as (H1 & H2 & H3 & H4).
    destruct (mature_compartment_step a pp id0) as (G1 & G2 & G3).
    rewrite H1, H2, H3, H4, G1, G2, G3.
    rewrite list_lookup_total_alter_ne, list_lookup_total_insert_ne by congruence.
    rewrite length_alter. repeat split.
Qed.

(** Maturing the distinct compartments [l] matures the compartment [id] of
    [l] once. *)
Lemma mature_compartments_one a l pp id :
  NoDup l -> id ∈ l ->
  id < length (pc pp) -> a < length (pc pp !!! id) -> id < length (pco pp) ->
  let pp1 := foldl (mature_compartment a) pp l in
  (pc pp1 !!! id) !!! a = (Compartment_Mature ((pc pp !!! id) !!! a)).2 /\
  pco pp1 !!! id = (Compartment_Mature ((pc pp !!! id) !!! a)).1 /\
  pci pp1 = pci pp /\ length (pc pp1) = length (pc pp) /\
  length (pc pp1 !!! id) = length (pc pp !!! id).
Proof.
  cbv zeta. revert pp. induction l as [|id0 l IH]; intros pp Hnd Hin Hpc Ha Hpco;
    cbn [foldl].
  - apply elem_of_nil in Hin. contradiction.
  - apply NoDup_cons in Hnd as [Hid0 Hnd].
    destruct (mature_compartment_step a pp id0) as (G1 & G2 & G3).
    destruct (decide (id0 = id)) as [->|Hne].
    + destruct (mature_compartments_others a l (mature_compartment a pp id) id Hid0)
        as (H1 & H2 & H3 & H4).
      rewrite H1, H2, H3, H4, G1, G2, G3.
      rewrite list_lookup_total_alter_eq by exact Hpc.
      rewrite !list_lookup_total_insert_eq by assumption.
      rewrite length_alter, length_insert. repeat split.
    + apply elem_of_cons in Hin as [->|Hin]; [contradiction|].
      assert (G : pc (mature_compartment a pp id0) !!! id = pc pp !!! id).
      { rewrite G1. apply list_lookup_total_alter_ne. congruence. }
      destruct (IH (mature_compartment a pp id0) Hnd Hin) as (H1 & H2 & H3 & H4 & H5).
      * rewrite G1, length_alter. exact Hpc.
      * rewrite G. exact Ha.
      * rewrite G2, length_insert. exact Hpco.
      * rewrite H1, H2, H3, H4, H5, G, G3, G1, length_alter. repeat split.
Qed.

(** Seeding the compartments [l] leaves a compartment outside [l] as it is. *)
Lemma seed_compartments_others P a process l pp r c0 id :
  id ∉ l ->
  let res := foldl (seed_compartment P a process) (pp, r, c0) l in
  pc res.1.1 !!! id = pc pp !!! id /\ pci res.1.1 !!! id = pci pp !!! id /\
  pco res.1.1 = pco pp /\ length (pc res.1.1) = length (pc pp) /\
  length (pci res.1.1) = length (pci pp).
Proof.
  cbv zeta. revert pp r c0. induction l as [|id0 l IH]; intros pp r c0 Hid; cbn [foldl].
  - repeat split.
  - apply not_elem_of_cons in Hid as [Hne Hid].
    destruct (seed_compartment_step P a process pp r c0 id0)
      as (pp0 & r0 & -> & G1 & G2 & G3).
    destruct (IH pp0 r0 (c0 + 1) Hid) as (H1 & H2 & H3 & H4 & H5).
    rewrite H1, H2, H3, H4, H5, G1, G2, G3.
    rewrite list_lookup_total_alter_ne, list_lookup_total_insert_ne by congruence.
    rewrite length_alter, length_insert. repeat split.
Qed.

(** Seeding the distinct compartments [l] enrols once in the compartment [id]
    of [l], the count that [pci[id]] then holds. *)
Lemma seed_compartments_one P a process l pp r c0 id :
  NoDup l -> id ∈ l ->
  id < length (pc pp) -> a < length (pc pp !!! id) -> id < length (pci pp) ->
  let res := foldl (seed_compartment P a process) (pp, r, c0) l in
  exists r' d,
    (pc res.1.1 !!! id) !!! a
    = (Compartment_Add P r' (pci res.1.1 !!! id) d ((pc pp !!! id) !!! a)).1.
Proof.
  cbv zeta. revert pp r c0. induction l as [|id0 l IH];
    intros pp r c0 Hnd Hin Hpc Ha Hpci; cbn [foldl].
  - apply elem_of_nil in Hin. contradiction.
  - apply NoDup_cons in Hnd as [Hid0 Hnd].
    destruct (seed_compartment_step P a process pp r c0 id0)
      as (pp0 & r0 & -> & G1 & G2 & G3).
    destruct (decide (id0 = id)) as [->|Hne].
    + destruct (seed_compartments_others P a process l pp0 r0 (c0 + 1) id Hid0)
        as (H1 & H2 & _).
      rewrite H1, H2, G1, G2.
      exists r, (delays process !!! c0).
      rewrite list_lookup_total_alter_eq by exact Hpc.
      rewrite !list_lookup_total_insert_eq by assumption. reflexivity.
    + apply elem_of_cons in Hin as [->|Hin]; [contradiction|].
      assert (G : pc pp0 !!! id = pc pp !!! id).
      { rewrite G1. apply list_lookup_total_alter_ne. congruence. }
      destruct (IH pp0 r0 (c0 + 1) Hnd Hin) as (r' & d & H1).
      * rewrite G1, length_alter. exact Hpc.
      * rewrite G. exact Ha.
      * rewrite G2, length_insert. exact Hpci.
      * exists r', d. rewrite H1, G. reflexivity.
Qed.

(** One process: a compartment of another process is left as it is, and a
    compartment of this process is enrolled in once. *)
Lemma seed_process_balance P a fl pr pp r id :
  NoDup (ids pr) ->
  id < length (pc pp) -> a < length (pc pp !!! id) -> id < length (pci pp) ->
  let res := seed_process P a fl (pp, r) pr in
  pco res.1 = pco pp /\
  length (pc res.1) = length (pc pp) /\ length (pci res.1) = length (pci pp) /\
  (id ∉ ids pr ->
   pc res.1 !!! id = pc pp !!! id /\ pci res.1 !!! id = pci pp !!! id) /\
  (id ∈ ids pr ->
   exists r' d,
     (pc res.1 !!! id) !!! a
     = (Compartment_Add P r' (pci res.1 !!! id) d ((pc pp !!! id) !!! a)).1).
Proof.
  cbv zeta. intros Hnd Hpc Ha Hpci. unfold seed_process.
  destruct (multinomial _ _ _ _ _ _) as [[nd ni] r1].
  set (pp1 := set_ni_out (set_nd_out pp nd) ni).
  change (pco pp) with (pco pp1). change (pc pp) with (pc pp1).
  change (pci pp) with (pci pp1).
  assert (Hlen : pco (foldl (seed_compartment P a pr) (pp1, r1, 0) (ids pr)).1.1 = pco pp1 /\
                 length (pc (foldl (seed_compartment P a pr) (pp1, r1, 0) (ids pr)).1.1)
                 = length (pc pp1) /\
                 length (pci (foldl (seed_compartment P a pr) (pp1, r1, 0) (ids pr)).1.1)
                 = length (pci pp1)).
  { apply (foldl_inv (fun st => pco st.1.1 = pco pp1 /\
                                length (pc st.1.1) = length (pc pp1) /\
                                length (pci st.1.1) = length (pci pp1)));
      [repeat split|].
    intros [[s r0] c] id0 _ (E1 & E2 & E3).
    destruct (seed_compartment_step P a pr s r0 c id0) as (pp0 & r2 & -> & G1 & G2 & G3).
    cbn [fst]. rewrite G1, G2, G3, length_alter, length_insert. repeat split; assumption. }
  destruct Hlen as (E1 & E2 & E3).
  split; [exact E1|]. split; [exact E2|]. split; [exact E3|]. split.
  - intros Hout.
    destruct (seed_compartments_others P a pr (ids pr) pp1 r1 0 id Hout) as (H1 & H2 & _).
    split; assumption.
  - intros Hin. apply (seed_compartments_one P a pr (ids pr) pp1 r1 0 id); assumption.
Qed.

(** All processes, with distinct compartment ids: the compartment [id] of a
    process is enrolled in once, with the count that [pci[id]] holds at the
    end. *)
Lemma seed_processes_balance P a fl prs pp r id :
  NoDup (flat_map ids prs) -> id ∈ flat_map ids prs ->
  id < length (pc pp) -> a < length (pc pp !!! id) -> id < length (pci pp) ->
  let res := foldl (seed_process P a fl) (pp, r) prs in
  exists r' d,
    (pc res.1 !!! id) !!! a
    = (Compartment_Add P r' (pci res.1 !!! id) d ((pc pp !!! id) !!! a)).1.
Proof.
  cbv zeta. revert pp r. induction prs as [|pr prs IH];
    intros pp r Hnd Hin Hpc Ha Hpci; cbn [foldl flat_map] in *.
  - apply elem_of_nil in Hin. contradiction.
  - apply NoDup_app in Hnd as (Hnd1 & Hdisj & Hnd2).
    destruct (seed_process_balance P a fl pr pp r id Hnd1 Hpc Ha Hpci)
      as (_ & E2 & E3 & Hout & Hone).
    destruct (seed_process P a fl (pp, r) pr) as [pp0 r0]. cbn [fst] in *.
    apply elem_of_app in Hin as [Hin|Hin].
    + destruct (Hone Hin) as (r' & d & H1).
      assert (Hrest : pc (foldl (seed_process P a fl) (pp0, r0) prs).1 !!! id
                      = pc pp0 !!! id /\
                      pci (foldl (seed_process P a fl) (pp0, r0) prs).1 !!! id
                      = pci pp0 !!! id).
      { pose proof (Hdisj id Hin) as Hnot. clear - Hnot Hnd2.
        revert pp0 r0. induction prs as [|pr' prs IH]; intros pp0 r0; cbn [foldl];
          [split; reflexivity|].
        cbn [flat_map] in Hnot, Hnd2. apply not_elem_of_app in Hnot as [Hn1 Hn2].
        apply NoDup_app in Hnd2 as (Hd1 & _ & Hd2).
        destruct (seed_process P a fl (pp0, r0) pr') as [pp1 r1] eqn:Hstep.
        destruct (IH Hd2 Hn2 pp1 r1) as [-> ->].
        pose proof (seed_compartments_others P a pr' (ids pr')) as Hoth.
        unfold seed_process in Hstep.
        destruct (multinomial _ _ _ _ _ _) as [[nd ni] r2].
        specialize (Hoth (set_ni_out (set_nd_out pp0 nd) ni) r2 0 id Hn1).
        cbv zeta in Hoth. rewrite Hstep in Hoth. cbn [fst] in Hoth.
        destruct Hoth as (H1 & H2 & _). split; assumption. }
      destruct Hrest as [-> ->]. exists r', d. exact H1.
    + assert (Hnot : id ∉ ids pr).
      { intros Hid. exact (Hdisj id Hid Hin). }
      destruct (Hout Hnot) as [F1 F2].
      destruct (IH pp0 r0 Hnd2 Hin) as (r' & d & H1).
      * rewrite E2. exact Hpc.
      * rewrite F1. exact Ha.
      * rewrite E3. exact Hpci.
      * exists r', d. rewrite H1, F1. reflexivity.
Qed.

Lemma seed_processes_pco P a fl prs pp r :
  pco (foldl (seed_process P a fl) (pp, r) prs).1 = pco pp.
Proof.
  apply (foldl_inv (fun st => pco st.1 = pco pp)); [reflexivity|].
  intros [s r0] pr _ Hs. unfold seed_process.
  destruct (multinomial _ _ _ _ _ _) as [[nd ni] r1].
  apply (foldl_inv (fun st => pco st.1.1 = pco pp)); [exact Hs|].
  intros [[s1 r2] c] id0 _ Hs1.
  destruct (seed_compartment_step P a pr s1 r2 c id0) as (pp0 & r3 & -> & _ & _ & G3).
  cbn [fst] in *. congruence.
Qed.

(** X25.  In the iteration of age [a] of [Population::Tick], with distinct
    compartment ids, the compartment [pc[id][a]] of a process is matured once
    and then enrolled in once: it ends as [Add] of the count [pci[id]] into
    the second component of [Mature] of what it was, and [pco[id]] is the
    first component of that [Mature].  Under the compartment contract its
    occupancy after the iteration is therefore the occupancy before, minus
    [pco[id]], plus [pci[id]]. *)
Theorem process_compartment_balance `{!CompartmentContract} P t pp Rand rep a id :
  NoDup (flat_map ids (processes P)) ->
  id ∈ flat_map ids (processes P) ->
  id < length (pc pp) -> a < length (pc pp !!! id) ->
  id < length (pci pp) -> id < length (pco pp) ->
  let after := (tick_age P t (pp, Rand, rep) a).1.1 in
  (exists r d,
     (pc after !!! id) !!! a
     = (Compartment_Add P r (pci after !!! id) d
          (Compartment_Mature ((pc pp !!! id) !!! a)).2).1) /\
  pco after !!! id = (Compartment_Mature ((pc pp !!! id) !!! a)).1 /\
  (Compartment_Size ((pc after !!! id) !!! a)
   == Compartment_Size ((pc pp !!! id) !!! a) - pco after !!! id + pci after !!! id)%Q.
Proof.
  intros Hnd Hin Hpc Ha Hpci Hpco after.
  assert (Hmain :
    (exists r d,
       (pc after !!! id) !!! a
       = (Compartment_Add P r (pci after !!! id) d
            (Compartment_Mature ((pc pp !!! id) !!! a)).2).1) /\
    pco after !!! id = (Compartment_Mature ((pc pp !!! id) !!! a)).1).
  { subst after. pose proof (builtin_states_aux P a pp Rand) as Haux.
    unfold tick_age.
    destruct (builtin_states P a (pp, Rand)) as [[fl pp1] Rand1]. cbn [fst snd] in Haux.
    unfold aux in Haux. injection Haux as _ _ _ _ Hpc1 Hpci1 Hpco1 _ _.
    rewrite <- Hpc1 in Hpc, Ha. rewrite <- Hpci1 in Hpci. rewrite <- Hpco1 in Hpco.
    rewrite <- Hpc1.
    destruct (mature_compartments_one a (flat_map ids (processes P)) pp1 id
                Hnd Hin Hpc Ha Hpco) as (M1 & M2 & M3 & M4 & M5).
    rewrite <- mature_processes_flat in M1, M2, M3, M4, M5.
    set (pp2 := mature_processes P a pp1) in *.
    assert (Hpc2 : id < length (pc pp2)) by (rewrite M4; exact Hpc).
    assert (Ha2 : a < length (pc pp2 !!! id)) by (rewrite M5; exact Ha).
    assert (Hpci2 : id < length (pci pp2)) by (rewrite M3; exact Hpci).
    destruct (seed_processes_balance P a fl (processes P) pp2 Rand1 id
                Hnd Hin Hpc2 Ha2 Hpci2) as (r & d & S1).
    pose proof (seed_processes_pco P a fl (processes P) pp2 Rand1) as S2.
    destruct (foldl (seed_process P a fl) (pp2, Rand1) (processes P)) as [pp3 Rand3].
    cbn [fst snd] in *. split.
    - exists r, d. rewrite S1, M1. reflexivity.
    - rewrite S2. exact M2. }
  destruct Hmain as [(r & d & Hadd) Hmat].
  split; [exists r, d; exact Hadd|]. split; [exact Hmat|].
  rewrite Hadd, Hmat, Size_Add, Size_Mature. reflexivity.
Qed.

End ProcessBalance.

(** ** A run whose duration is not a whole number *)

(** Every step of the driver ends by [time1 + 1]. *)
Lemma step_offset_below P ts :
  (0 < time_step P)%Q -> (N.of_nat ts < time_steps P)%N ->
  (step_time P ts - time0 P + time_step P <= 1 + time1 P - time0 P)%Q.
Proof.
  intros Hdt Hts. unfold step_time.
  set (n := inject_Z (Z.of_nat ts)).
  set (y := ((1 + time1 P - time0 P) / time_step P)%Q).
  unfold time_steps in Hts. fold y in Hts. unfold uint_of_Q in Hts.
  pose proof (wrap32_le (Z.to_N (Qtrunc y))) as Hw.
  assert (Hpos : (0 < Qtrunc y)%Z) by lia.
  assert (Hy0 : (0 <= y)%Q).
  { destruct (Qlt_le_dec y 0) as [Hneg|Hge]; [|exact Hge].
    exfalso. unfold Qtrunc in Hpos. destruct y as [yn yd].
    unfold Qlt in Hneg. cbn [Qnum Qden] in *.
    assert (Hq : (Z.quot yn (Z.pos yd) <= 0)%Z) by (apply Z.quot_le_upper_bound; lia).
    lia. }
  assert (Hfl : (Z.of_nat ts + 1 <= Qfloor y)%Z).
  { rewrite Qtrunc_nonneg in Hts, Hw by exact Hy0. lia. }
  assert (Hq : (inject_Z (Z.of_nat ts + 1) <= y)%Q).
  { eapply Qle_trans; [|apply Qfloor_le]. rewrite <- Zle_Qle. exact Hfl. }
  rewrite inject_Z_plus in Hq. fold n in Hq.
  assert (Hm : ((n + inject_Z 1) * time_step P <= 1 + time1 P - time0 P)%Q).
  { assert (E0 : (y * time_step P == 1 + time1 P - time0 P)%Q)
      by (unfold y; field; lra).
    rewrite <- E0. apply Qmult_le_compat_r; [exact Hq|lra]. }
  change (inject_Z 1) with 1%Q in Hm. lra.
Qed.

(** X26. When [time1 - time0] is not a whole number, [D] being its whole
    part, the reporter has [D + 1] time indices, and the driver may run a step
    whose time is [time0 + D + 1] or later (the number of steps is taken from
    [1 + time1 - time0]).  Such a step has the time index [D + 1]: for every
    population and age group it addresses a row that no column of the
    reporter has. *)
Theorem RunSimulation_row_beyond P full rep P1 (D : Z) ts i a c :
  Reporter_new P full = Ok (rep, P1) ->
  (0 <= D)%Z ->
  (inject_Z D <= time1 P - time0 P)%Q -> (time1 P - time0 P < inject_Z (D + 1))%Q ->
  (0 < time_step P)%Q ->
  (N.of_nat ts < time_steps P)%N ->
  (inject_Z (D + 1) <= step_time P ts - time0 P)%Q ->
  ((Z.to_N D + 2) * N.of_nat (length (pop P))
   * N.of_nat (length (size (pop P !!! 0%nat))) <= 4294967296)%N ->
  i < length (pop P) -> a < length (size (pop P !!! 0)) ->
  c < length (data rep) ->
  uint_of_Q (step_time P ts - time0 P) = n_times rep /\
  length (data rep !!! c) <= rep_row rep (step_time P ts) i a.
Proof.
  intros Hnew H0 HD1 HD2 Hdt Hts Hreach Hfit Hi Ha Hc.
  apply Reporter_new_Ok in Hnew as [-> _].
  cbn [data] in *. rewrite length_replicate in Hc.
  rewrite lookup_total_replicate_2 by exact Hc. rewrite length_replicate.
  unfold rep_row, column_cells. cbn [n_times n_populations n_age_groups t0].
  set (np := N.of_nat (length (pop P))) in *.
  set (na := N.of_nat (length (size (pop P !!! 0)))) in *.
  assert (Hnp : (1 <= np)%N) by (unfold np; lia).
  assert (Hna : (1 <= na)%N) by (unfold na; lia).
  assert (Hin : (N.of_nat i < np)%N) by (unfold np; lia).
  assert (Han : (N.of_nat a < na)%N) by (unfold na; lia).
  assert (HDs : (Z.to_N D + 2 <= 4294967296)%N) by nia.
  assert (HQ0 : (0 <= inject_Z D)%Q).
  { change 0%Q with (inject_Z 0). rewrite <- Zle_Qle. exact H0. }
  assert (Hnt : wrap32 (uint_of_Q (time1 P - time0 P) + 1) = (Z.to_N D + 1)%N).
  { unfold uint_of_Q. rewrite Qtrunc_nonneg by lra.
    assert (Hfl : Qfloor (time1 P - time0 P) = D).
    { apply Z.le_antisymm.
      - assert (H : (Qfloor (time1 P - time0 P) < D + 1)%Z); [|lia].
        rewrite Zlt_Qlt. eapply Qle_lt_trans; [apply Qfloor_le|exact HD2].
      - rewrite <- (Qfloor_Z D). apply Qfloor_resp_le. exact HD1. }
    rewrite Hfl, (wrap32_small (Z.to_N D)) by lia. apply wrap32_small. lia. }
  pose proof (step_offset_below P ts Hdt Hts) as Hend.
  set (x := (step_time P ts - time0 P)%Q) in *.
  assert (Hk : uint_of_Q x = (Z.to_N D + 1)%N).
  { unfold uint_of_Q.
    assert (Hx0 : (0 <= x)%Q).
    { eapply Qle_trans; [|exact Hreach].
      change 0%Q with (inject_Z 0). rewrite <- Zle_Qle. lia. }
    rewrite Qtrunc_nonneg by exact Hx0.
    assert (Hfl : Qfloor x = (D + 1)%Z).
    { apply Z.le_antisymm.
      - assert (H : (Qfloor x < D + 2)%Z); [|lia].
        rewrite Zlt_Qlt. eapply Qle_lt_trans; [apply Qfloor_le|].
        assert (E1 : (inject_Z (D + 1) == inject_Z D + 1)%Q)
          by (rewrite inject_Z_plus; reflexivity).
        assert (E2 : (inject_Z (D + 2) == inject_Z D + 2)%Q)
          by (rewrite inject_Z_plus; reflexivity).
        rewrite E2. rewrite E1 in HD2. lra.
      - rewrite <- (Qfloor_Z (D + 1)). apply Qfloor_resp_le. exact Hreach. }
    rewrite Hfl, Z2N.inj_add by lia. change (Z.to_N 1) with 1%N.
    apply wrap32_small. lia. }
  rewrite Hk, Hnt. split; [reflexivity|].
  pose proof (wrap32_le ((Z.to_N D + 1) * np * na)) as Hcells.
  rewrite (wrap32_small ((Z.to_N D + 1) * np * na + N.of_nat i * na + N.of_nat a)).
  - lia.
  - assert (Hrow : (N.of_nat i * na + N.of_nat a < np * na)%N) by nia.
    nia.
Qed.

(** * The theorems on the reference instance *)

(** A call that computes to a value did not throw. *)
Ltac no_throw H :=
  match type of H with
  | ?r = Throw _ =>
      let Hok := fresh "Hok" in
      assert (Hok : (match r with Ok _ => true | Throw _ => false end) = true)
        by (vm_compute; reflexivity);
      rewrite H in Hok; discriminate Hok
  end.

Section ReferenceRuns.
#[local] Existing Instance Reference.always_ext.

Local Abbreviation ten := (Reference.ten_seeds false).
Local Abbreviation ten_pop := (Population_new (Reference.ten_seeds false) 0).
Local Abbreviation blank := (Reference.blank_reporter 1 1 4).
Local Abbreviation r0 := (0%N : @Randomizer Reference.always_ext).

Lemma Contagiousness_per_age_witness :
  0 < length [0%Q] /\
  returns (Contagiousness ten r0 0 [0%Q] ten_pop)
    (fun '(_, _, P2, cg1) =>
       let q := pop P2 !!! 0 in
       cg1 !!! 0
       = ((fIp q !!! 0%nat * Compartment_Size (Ip ten_pop !!! 0%nat)
           + fIa q !!! 0%nat * Compartment_Size (Ia ten_pop !!! 0%nat)
           + fIs q !!! 0%nat * Compartment_Size (Is ten_pop !!! 0%nat))
          / (size q !!! 0%nat))%Q).
Proof.
  assert (Hlen : 0 < length [0%Q]) by (simpl; lia).
  split; [exact Hlen|].
  assert (Hsize : match Contagiousness ten r0 0 [0%Q] ten_pop with
                  | Ok (_, _, P2, _) => Qeq_bool (size (pop P2 !!! 0) !!! 0) 0
                  | Throw _ => true
                  end = false) by (vm_compute; reflexivity).
  destruct (Contagiousness ten r0 0 [0%Q] ten_pop) as [[[[pp2 Rand1] P2] cg1]|e] eqn:Hrun;
    [|no_throw Hrun].
  apply (proj2 (Contagiousness_per_age ten r0 0 [0%Q] ten_pop _ _ _ _ 0 Hrun Hlen)).
  intros Hz. apply Qeq_bool_iff in Hz. simpl in Hz. congruence.
Defined.




Lemma seeding_per_event_witness :
  (length (S_ ten_pop) = 1 /\ length (E ten_pop) = 1 /\
   seeds_one_into_first ten (p ten_pop) /\
   drop (seed_row ten_pop) (seed_times (pop ten !!! p ten_pop))
   = replicate 10 0%Q ++ [] /\
   Qle_bool 0 0 = true /\ none_due 0 [] /\
   (inject_Z (Z.of_nat 10) <= S_ ten_pop !!! 0%nat)%Q) /\
  exists pp2 Rand1 P2 cg1,
    Contagiousness ten r0 0 [0%Q] ten_pop = Ok (pp2, Rand1, P2, cg1) /\
    (S_ pp2 !!! 0%nat == 100 - 10)%Q /\
    (Compartment_Size (E pp2 !!! 0%nat) == 10)%Q /\
    seed_row pp2 = 10.
Proof.
  assert (Hone : seeds_one_into_first ten (p ten_pop)) by (intros r; reflexivity).
  assert (Hle : (inject_Z (Z.of_nat 10) <= S_ ten_pop !!! 0%nat)%Q)
    by (vm_compute; discriminate).
  split.
  - repeat split; try reflexivity; assumption.
  - destruct (proj1 (proj2 (proj2 (@seeding_per_event _
                 (Reference_contract Reference.always) ten)))
                ten_pop r0 0%Q 0%Q 10 [] [0%Q] eq_refl eq_refl Hone eq_refl eq_refl I Hle)
      as (pp2 & Rand1 & P2 & cg1 & Hrun & HS & HE & Hrow).
    exists pp2, Rand1, P2, cg1. split; [exact Hrun|].
    split; [rewrite HS; reflexivity|]. split; [rewrite HE; reflexivity|exact Hrow].
Defined.

Lemma reporting_alignment_witness :
  fresh_columns (Reference.with_process false) /\
  returns (Reporter_new (Reference.with_process false) true)
    (fun '(rep0, P1) =>
       (forall c, prevalence_channel P1 c -> incidence_channel P1 c -> False) /\
       zeros (data rep0)) /\
  (n_times blank * n_populations blank * n_age_groups blank < 4294967296)%N /\
  (uint_of_Q (0 - t0 blank) < n_times blank)%N /\
  (uint_of_Q (1 - t0 blank) < n_times blank)%N /\
  uint_of_Q (1 - t0 blank) <> uint_of_Q (0 - t0 blank) /\
  rep_get (Population_Tick (Reference.with_process false) r0 0 [0%Q] blank
             (Population_new (Reference.with_process false) 0)).2 1 0 0 6
  = rep_get blank 1 0 0 6.
Proof.
  assert (Hfresh : fresh_columns (Reference.with_process false))
    by (repeat constructor).
  assert (Hfit : (n_times blank * n_populations blank * n_age_groups blank
                  < 4294967296)%N) by reflexivity.
  assert (Hk : (uint_of_Q (0 - t0 blank) < n_times blank)%N) by reflexivity.
  assert (Hk' : (uint_of_Q (1 - t0 blank) < n_times blank)%N) by reflexivity.
  assert (Hne : uint_of_Q (1 - t0 blank) <> uint_of_Q (0 - t0 blank))
    by (intros H; discriminate H).
  pose proof (reporting_alignment (Reference.with_process false) r0 0 [0%Q] blank
                (Population_new (Reference.with_process false) 0))
    as (_ & _ & _ & Hrows & Hnew0).
  split; [exact Hfresh|]. split; [|split; [exact Hfit|split; [exact Hk|split;
    [exact Hk'|split; [exact Hne|]]]]].
  - destruct (Reporter_new (Reference.with_process false) true) as [[rep0 P1]|e] eqn:Hnew;
      [|no_throw Hnew].
    exact (Hnew0 _ _ _ _ Hfresh Hnew).
  - apply (Hrows Hfit Hk); [reflexivity|simpl; lia|exact Hk'|reflexivity|reflexivity
                           |exact Hne].
Defined.

Lemma process_counts_per_age_witness :
  let P := Examples.onset_reported in
  let pp0 := Population_new P 0 in
  let pp := set_lambda pp0 (force_of_infection P (p pp0) [0%Q]) in
  NoDup (flat_map ids (processes P)) /\
  (forall id, id ∈ flat_map ids (processes P) ->
              id < length (pci pp) /\ id < length (pco pp)) /\
  distinct_columns P /\
  rows_distinct Examples.blank11 0 (p pp0) (length [0%Q]) /\
  pco (tick_age P 0 (pp, r0, Examples.blank11) 0).1.1 !!! 0
  = (Compartment_Mature ((pc pp !!! 0) !!! 0)).1 /\
  rep_get (tick_age P 0 (pp, r0, Examples.blank11) 0).2 0 (p pp) 0 9
  = (rep_get Examples.blank11 0 (p pp) 0 9
     + pci (tick_age P 0 (pp, r0, Examples.blank11) 0%nat).1.1 !!! 0%nat)%Q /\
  rep_get (Population_Tick P r0 0 [0%Q] Examples.blank11 pp0).2 0 (p pp) 0 9
  = rep_get (tick_age P 0 (pp, r0, Examples.blank11) 0).2 0 (p pp) 0 9.
Proof.
  intros P pp0 pp.
  assert (Hnd : NoDup (flat_map ids (processes P))) by apply NoDup_singleton.
  assert (Hlt : forall id,
            id ∈ flat_map ids (processes P) ->
            id < length (pci pp) /\ id < length (pco pp)).
  { intros id Hid. apply list_elem_of_singleton in Hid as ->. simpl. lia. }
  assert (Hcols : distinct_columns P).
  { unfold distinct_columns. apply (bool_decide_unpack _). vm_compute. reflexivity. }
  assert (Hrows : rows_distinct Examples.blank11 0 (p pp0) (length [0%Q])).
  { intros a1 a2 H1 H2 _. simpl in H1, H2. lia. }
  pose proof (process_counts_per_age P 0 pp r0 Examples.blank11 0 Hnd Hlt)
    as (Hpco & _ & _ & _ & _ & Hrep & Htick & _).
  split; [exact Hnd|]. split; [exact Hlt|]. split; [exact Hcols|].
  split; [exact Hrows|]. split; [|split].
  - apply Hpco. apply list_elem_of_singleton. reflexivity.
  - assert (Hpr : Examples.onset_columns ∈ processes P)
      by (apply list_elem_of_singleton; reflexivity).
    apply (proj1 (Hrep Hcols Examples.onset_columns 0 Hpr)).
    + simpl. lia.
    + simpl. lia.
    + vm_compute. lia.
  - destruct (Htick [0%Q] r0 Examples.blank11 pp0) as [_ Hcell];
      [simpl; lia|exact Hrows|reflexivity|].
    exact (proj2 (Hcell 9)).
Defined.

Lemma Metapopulation_Tick_incoming_force_witness :
  0 < length (pops (Metapopulation_new Reference.two_pops)) /\
  0 < length (size (pop Reference.two_pops !!! 0)) /\
  returns (Metapopulation_Tick Reference.two_pops r0 0 0 (Reference.blank_reporter 2 1 8)
                               (Metapopulation_new Reference.two_pops))
    (fun '(_, mp1, _, _, P1) =>
       get2 (infec mp1) 0 0
       = sum_upto 2
           (fun j => (travel P1 j 0%nat * get2 (contag mp1) j 0
                      * (if decide (j = 0%nat) then 1 else tau (pop P1 !!! j) !!! 0%nat))%Q)).
Proof.
  assert (Hpops : 0 < length (pops (Metapopulation_new Reference.two_pops)))
    by (simpl; lia).
  assert (Hages : 0 < length (size (pop Reference.two_pops !!! 0))) by (simpl; lia).
  split; [exact Hpops|]. split; [exact Hages|].
  destruct (Metapopulation_Tick Reference.two_pops r0 0 0 (Reference.blank_reporter 2 1 8)
                                (Metapopulation_new Reference.two_pops))
    as [[[[[b mp1] Rand2] rep2] P1]|e] eqn:Hrun; [|no_throw Hrun].
  exact (Metapopulation_Tick_incoming_force _ _ _ _ _ _ _ _ _ _ _ 0 0 Hrun Hpops Hages).
Defined.

(** C4 as stated fails: a single seed event at [t = 0], even with the age
    weight 10, seeds one individual and not ten; the run reports 1 exposed
    and 99 susceptible individuals at [t = 0]. *)
Lemma single_seed_event_seeds_one :
  returns (Contagiousness Reference.single_seed r0 0 [0%Q]
                          (Population_new Reference.single_seed 0))
    (fun '(pp2, _, _, _) =>
       S_ pp2 = [99%Q] /\
       Compartment_Size (E pp2 !!! 0) = 1%Q /\
       ~ (Compartment_Size (E pp2 !!! 0%nat) == 10)%Q /\
       ~ (S_ pp2 !!! 0%nat == 100 - 10)%Q) /\
  returns (RunSimulation Reference.single_seed r0)
    (fun rep => rep_get rep 0 0 0 1 = 1%Q /\ rep_get rep 0 0 0 0 = 99%Q).
Proof.
  split.
  - vm_compute. repeat split; discriminate.
  - vm_compute. split; reflexivity.
Qed.

End ReferenceRuns.

Section ReferenceStops.
#[local] Existing Instance Reference.stopping_ext.

Local Abbreviation two := Reference.two_pops.
Local Abbreviation two_mp := (Metapopulation_new Reference.two_pops).
Local Abbreviation blank2 := (Reference.blank_reporter 2 1 8).
Local Abbreviation s0 := (0%N : @Randomizer Reference.stopping_ext).


Lemma Metapopulation_Tick_signal_witness :
  returns (Metapopulation_Tick two s0 0 0 blank2 two_mp)
    (fun '(b, mp1, _, _, _) =>
       exists (ps1 : list Population) k,
         k <= 2 /\ (k < 2 -> b = false) /\
         forall j, k <= j -> pops mp1 !!! j = ps1 !!! j).
Proof.
  destruct (Metapopulation_Tick two s0 0 0 blank2 two_mp)
    as [[[[[b mp1] Rand2] rep2] P1]|e] eqn:Hrun; [|no_throw Hrun].
  destruct (Metapopulation_Tick_signal two s0 0 0 blank2 two_mp _ _ _ _ _ Hrun)
    as (ps1 & Rand1 & k & _ & Hk & _ & Hstop & _ & Hskip).
  exists ps1, k. split; [exact Hk|]. split; [exact Hstop|exact Hskip].
Defined.

(** C1 as stated fails: in the two-population configuration the observer of
    population 0 asks to stop; population 1 is then not ticked at all (its
    [lambda] is never assigned, and the cell of its susceptibles stays at 0),
    whereas ticking every population would have reported its 50
    susceptibles. *)
Lemma Metapopulation_Tick_skips_after_stop :
  returns (Metapopulation_Tick two s0 0 0 blank2 two_mp)
    (fun '(b, mp1, Rand2, rep2, P1) =>
       let every :=
         foldl (update_population_every P1 0 (infec mp1))
               (true, pops two_mp, s0, blank2) (seq 0 2) in
       b = false /\
       length (lambda (pops mp1 !!! 1)) = 0 /\
       rep_get rep2 0 1 0 0 = 0%Q /\
       length (lambda (every.1.1.2 !!! 1)) = 1 /\
       rep_get every.2 0 1 0 0 = 50%Q /\
       every <> (b, pops mp1, Rand2, rep2)).
Proof.
  assert (Hcells :
            match Metapopulation_Tick two s0 0 0 blank2 two_mp with
            | Ok (b, mp1, Rand2, rep2, P1) =>
                (b, length (lambda (pops mp1 !!! 1)), rep_get rep2 0 1 0 0,
                 length (lambda ((foldl (update_population_every P1 0 (infec mp1))
                                (true, pops two_mp, s0, blank2) (seq 0 2)).1.1.2 !!! 1)),
                 rep_get (foldl (update_population_every P1 0 (infec mp1))
                                (true, pops two_mp, s0, blank2) (seq 0 2)).2 0 1 0 0)
            | Throw _ => (true, 0, 0%Q, 0, 0%Q)
            end = (false, 0, 0%Q, 1, 50%Q)) by (vm_compute; reflexivity).
  destruct (Metapopulation_Tick two s0 0 0 blank2 two_mp)
    as [[[[[b mp1] Rand2] rep2] P1]|e]; [|discriminate Hcells].
  injection Hcells as Hb Hlam Hcell Hlam' Hcell'. cbn [returns].
  split; [exact Hb|]. split; [exact Hlam|]. split; [exact Hcell|].
  split; [exact Hlam'|]. split; [exact Hcell'|].
  intros Heq.
  discriminate (eq_trans (eq_sym Hcell')
                         (eq_trans (f_equal (fun x => rep_get x.2 0 1 0 0) Heq) Hcell)).
Qed.

End ReferenceStops.

(** * The further properties on the reference instance *)

Section FurtherRuns.
#[local] Existing Instance Reference.always_ext.

Local Abbreviation ten := (Reference.ten_seeds false).
Local Abbreviation ten_pop := (Population_new (Reference.ten_seeds false) 0).
Local Abbreviation onset := (Reference.with_process false).
Local Abbreviation two := Reference.two_pops.
Local Abbreviation two_mp := (Metapopulation_new Reference.two_pops).
Local Abbreviation blank := (Reference.blank_reporter 1 1 4).
Local Abbreviation blank2 := (Reference.blank_reporter 2 1 8).
Local Abbreviation r0 := (0%N : @Randomizer Reference.always_ext).

Lemma Reporter_new_time_step_witness :
  Reporter_new Examples.bad_step true
  = Throw (logic_error
             "TODO: PopulationReporter requires P.time_step = 1 / P.report_every.") /\
  Reporter_new Examples.zero_step true
  = Throw (logic_error
             "TODO: PopulationReporter requires P.time_step = 1 / P.report_every.") /\
  Reporter_new Examples.tenth_steps true
  <> Throw (logic_error
              "TODO: PopulationReporter requires P.time_step = 1 / P.report_every.").
Proof.
  split; [|split].
  - apply (proj2 (proj2 (proj2 (Reporter_new_time_step Examples.bad_step true)))
             0%Z ltac:(lia) ltac:(reflexivity)).
    intros H. discriminate H.
  - apply (proj1 (proj2 (proj2 (Reporter_new_time_step Examples.zero_step true)))).
    reflexivity.
  - intros H. apply (proj1 (Reporter_new_time_step Examples.tenth_steps true)) in H.
    vm_compute in H. discriminate H.
Defined.

Lemma Reporter_new_report_kinds_witness :
  time_step_differs Examples.bad_report = false /\
  Reporter_new Examples.bad_report true
  = Throw (runtime_error "Unrecognized process report type x.").
Proof.
  assert (Hts : time_step_differs Examples.bad_report = false)
    by (vm_compute; reflexivity).
  split; [exact Hts|].
  exact (Reporter_new_report_kinds Examples.bad_report true Hts).
Defined.

Lemma Reporter_new_shape_witness :
  returns (Reporter_new onset true)
    (fun '(rep, _) =>
       n_times rep = 4%N /\ length (col_names rep) = length (data rep) /\
       data rep = replicate 11 (replicate 4 0%Q)).
Proof.
  destruct (Reporter_new onset true) as [[rep P1]|e] eqn:Hnew; [|no_throw Hnew].
  destruct (Reporter_new_shape onset true rep P1 Hnew)
    as (_ & _ & Hnt & Hnp & Hna & Hlen & _ & Hdata).
  cbn [returns]. split; [exact Hnt|]. split; [exact Hlen|].
  rewrite Hdata, Hnt, Hnp, Hna. reflexivity.
Defined.

Lemma Reporter_new_named_columns_witness :
  fresh_reports onset /\
  returns (Reporter_new onset true)
    (fun '(rep, P1) =>
       forall pr, pr ∈ processes P1 ->
                  named_columns (col_names rep) pr "i" (i_cols pr) (i_ids pr)).
Proof.
  assert (Hfresh : fresh_reports onset) by (repeat constructor).
  split; [exact Hfresh|].
  destruct (Reporter_new onset true) as [[rep P1]|e] eqn:Hnew; [|no_throw Hnew].
  intros pr Hpr.
  exact (proj1 (proj2 (Reporter_new_named_columns onset true rep P1 pr Hfresh Hnew Hpr))).
Defined.

Lemma Reporter_new_twice_witness :
  fresh_reports onset /\
  returns (Reporter_new onset true)
    (fun '(rep, P1) =>
       exists P2, Reporter_new P1 true = Ok (rep, P2) /\
                  Forall2 columns_doubled (processes P1) (processes P2)).
Proof.
  assert (Hfresh : fresh_reports onset) by (repeat constructor).
  split; [exact Hfresh|].
  destruct (Reporter_new onset true) as [[rep P1]|e] eqn:Hnew; [|no_throw Hnew].
  exact (Reporter_new_twice onset true rep P1 Hfresh Hnew).
Defined.

Lemma rep_read_after_write_witness :
  0 < length (data blank) /\
  rep_row blank 2 0 0 < length (data blank !!! 0) /\
  rep_get (rep_set blank 2 0 0 0 5) 2 0 0 0 = 5%Q /\
  rep_get (rep_set blank 2 0 0 0 5) 1 0 0 0 = rep_get blank 1 0 0 0.
Proof.
  assert (Hc : 0 < length (data blank)) by (simpl; lia).
  assert (Hrow : rep_row blank 2 0 0 < length (data blank !!! 0))
    by (vm_compute; lia).
  split; [exact Hc|]. split; [exact Hrow|]. split.
  - rewrite (proj1 (rep_read_after_write blank 2 0 0 0 5 2 0 0 0 Hc Hrow)).
    destruct (decide _) as [_|Hn]; [reflexivity|].
    exfalso. apply Hn. split; reflexivity.
  - rewrite (proj1 (rep_read_after_write blank 2 0 0 0 5 1 0 0 0 Hc Hrow)).
    destruct (decide _) as [[_ Heq]|_]; [|reflexivity].
    vm_compute in Heq. discriminate Heq.
Defined.

Lemma rep_row_injective_witness :
  (n_times blank2 * n_populations blank2 * n_age_groups blank2 < 4294967296)%N /\
  (uint_of_Q (1 - t0 blank2) < n_times blank2)%N /\
  (uint_of_Q (0 - t0 blank2) < n_times blank2)%N /\
  (N.of_nat 0 < n_populations blank2)%N /\ (N.of_nat 1 < n_populations blank2)%N /\
  (N.of_nat 0 < n_age_groups blank2)%N /\
  rep_row blank2 1 0 0 < 8 /\
  rep_row blank2 1 0 0 <> rep_row blank2 0 1 0.
Proof.
  assert (H1 : (n_times blank2 * n_populations blank2 * n_age_groups blank2
                < 4294967296)%N) by reflexivity.
  assert (H2 : (uint_of_Q (1 - t0 blank2) < n_times blank2)%N) by reflexivity.
  assert (H3 : (uint_of_Q (0 - t0 blank2) < n_times blank2)%N) by reflexivity.
  assert (H4 : (N.of_nat 0 < n_populations blank2)%N) by reflexivity.
  assert (H5 : (N.of_nat 1 < n_populations blank2)%N) by reflexivity.
  assert (H6 : (N.of_nat 0 < n_age_groups blank2)%N) by reflexivity.
  destruct (rep_row_injective blank2 1 0 0 0 1 0 H1 H2 H3 H4 H5 H6 H6) as [Hlt Hinj].
  split; [exact H1|]. split; [exact H2|]. split; [exact H3|]. split; [exact H4|].
  split; [exact H5|]. split; [exact H6|]. split; [exact Hlt|].
  intros Heq. apply Hinj in Heq as (_ & Hi & _). discriminate Hi.
Defined.


Lemma report_grid_witness :
  time_step_differs Examples.half_steps = false /\
  (report_every Examples.half_steps == 2 ^ Z.of_nat 1)%Q /\
  (time0 Examples.half_steps == inject_Z 0)%Q /\
  (Z.abs 0 * 2 ^ Z.of_nat 1 + Z.of_nat 5 < 2 ^ 53)%Z /\
  (double_step_time Examples.half_steps 5 == step_time Examples.half_steps 5)%Q /\
  is_integer (double_step_time Examples.half_steps 4) = true /\
  uint_of_Q (round_double (double_step_time Examples.half_steps 5
                           - time0 Examples.half_steps)) = 2%N.
Proof.
  assert (H1 : time_step_differs Examples.half_steps = false) by (vm_compute; reflexivity).
  assert (H2 : (report_every Examples.half_steps == 2 ^ Z.of_nat 1)%Q) by reflexivity.
  assert (Hk : 1 <= 1074) by lia.
  assert (H3 : (time0 Examples.half_steps == inject_Z 0)%Q) by reflexivity.
  assert (H4 : (Z.abs 0 * 2 ^ Z.of_nat 1 + Z.of_nat 4 < 2 ^ 53)%Z) by reflexivity.
  assert (H5 : (Z.abs 0 * 2 ^ Z.of_nat 1 + Z.of_nat 5 < 2 ^ 53)%Z) by reflexivity.
  split; [exact H1|]. split; [exact H2|]. split; [exact H3|]. split; [exact H5|].
  split; [|split].
  - exact (proj1 (report_grid Examples.half_steps 5 0 1 H1 H2 Hk H3 H5)).
  - apply (proj1 (proj2 (report_grid Examples.half_steps 4 0 1 H1 H2 Hk H3 H4))).
    exists 2%Z. reflexivity.
  - rewrite (proj2 (proj2 (report_grid Examples.half_steps 5 0 1 H1 H2 Hk H3 H5))).
    reflexivity.
Defined.

Lemma time_grid_exact_witness :
  (time_step Examples.half_steps == 2 ^ (- Z.of_nat 1))%Q /\
  (time0 Examples.half_steps == inject_Z 0)%Q /\
  (time1 Examples.half_steps - time0 Examples.half_steps == inject_Z 3)%Q /\
  ((Z.abs 0 + 3 + 1) * 2 ^ Z.of_nat 1 < 2 ^ 53)%Z /\
  double_time_steps Examples.half_steps = 8%N /\
  (double_step_time Examples.half_steps 7 == step_time Examples.half_steps 7)%Q.
Proof.
  assert (H1 : (time_step Examples.half_steps == 2 ^ (- Z.of_nat 1))%Q) by reflexivity.
  assert (Hk : 1 <= 1074) by lia.
  assert (H2 : (time0 Examples.half_steps == inject_Z 0)%Q) by reflexivity.
  assert (H3 : (time1 Examples.half_steps - time0 Examples.half_steps == inject_Z 3)%Q)
    by reflexivity.
  assert (H4 : (0 <= 3)%Z) by lia.
  assert (H5 : ((Z.abs 0 + 3 + 1) * 2 ^ Z.of_nat 1 < 2 ^ 53)%Z) by reflexivity.
  split; [exact H1|]. split; [exact H2|]. split; [exact H3|]. split; [exact H5|].
  destruct (time_grid_exact Examples.half_steps 0 3 1 H1 Hk H2 H3 H4 H5) as [Hn Hts].
  split.
  - rewrite Hn. reflexivity.
  - apply (Hts 7). reflexivity.
Defined.

Lemma Population_Tick_columns_untouched_witness :
  (is_integer (1 # 2) = false \/ ~ prevalence_channel ten 0) /\
  ~ incidence_channel ten 0 /\
  data (Population_Tick ten r0 (1 # 2) [0%Q] blank ten_pop).2 !!! 0 = data blank !!! 0.
Proof.
  assert (H1 : is_integer (1 # 2) = false \/ ~ prevalence_channel ten 0)
    by (left; reflexivity).
  assert (H2 : ~ incidence_channel ten 0).
  { intros [H|[H|[H|(pr & Hpr & _)]]]; try discriminate H.
    apply elem_of_nil in Hpr. exact Hpr. }
  split; [exact H1|]. split; [exact H2|].
  exact (Population_Tick_columns_untouched ten r0 (1 # 2) [0%Q] blank ten_pop 0 H1 H2).
Defined.

Lemma Contagiousness_cursors_witness :
  returns (Contagiousness ten r0 0 [0%Q] ten_pop)
    (fun '(pp2, _, _, cg1) =>
       seed_row pp2 = 10 /\ schedule_row pp2 = 0 /\ length cg1 = 1).
Proof.
  destruct (Contagiousness ten r0 0 [0%Q] ten_pop) as [[[[pp2 Rand1] P2] cg1]|e] eqn:Hrun;
    [|no_throw Hrun].
  destruct (Contagiousness_cursors ten r0 0 [0%Q] ten_pop pp2 Rand1 P2 cg1 Hrun)
    as (Hseed & _ & Hsch & _ & _ & _ & Hlen).
  cbn [returns]. split; [|split].
  - rewrite Hseed. reflexivity.
  - rewrite Hsch. reflexivity.
  - rewrite Hlen. reflexivity.
Defined.

Lemma Contagiousness_quiet_witness :
  none_due 0 (drop (seed_row (Population_new two 0))
                   (seed_times (pop two !!! p (Population_new two 0)))) /\
  exists row P2 cg1,
    Contagiousness two r0 0 [0%Q] (Population_new two 0)
    = Ok (set_schedule_row (Population_new two 0) row, r0, P2, cg1).
Proof.
  assert (Hnone : none_due 0 (drop (seed_row (Population_new two 0))
                                   (seed_times (pop two !!! p (Population_new two 0)))))
    by exact I.
  split; [exact Hnone|].
  exact (Contagiousness_quiet two r0 0 [0%Q] (Population_new two 0) Hnone).
Defined.

Lemma seed_event_stochastic_witness :
  deterministic ten = false /\
  returns (seed_event ten (ten_pop, r0))
    (fun '(pp1, _) =>
       let d := dist_seed_ages (pop ten !!! p ten_pop) in
       let drawn := (Rand_Multinomial r0 1 (weights d) (storage d)).1 in
       (pp1 = ten_pop /\ forall a, a < length (S_ ten_pop) -> drawn !!! a <> 1%N) \/
       (exists a, a < length (S_ ten_pop) /\ drawn !!! a = 1%N /\
          (forall b, b < a -> drawn !!! b <> 1%N) /\
          (1 <= S_ ten_pop !!! a)%Q /\
          S_ pp1 = <[a := (S_ ten_pop !!! a - 1)%Q]> (S_ ten_pop))).
Proof.
  split; [reflexivity|].
  destruct (seed_event ten (ten_pop, r0)) as [[pp1 Rand1]|e] eqn:Hev; [|no_throw Hev].
  exact (seed_event_stochastic ten ten_pop r0 pp1 Rand1 eq_refl Hev).
Defined.

Lemma RunSimulation_failures_witness :
  RunSimulation Examples.bad_step r0
  = Throw (logic_error
             "TODO: PopulationReporter requires P.time_step = 1 / P.report_every.") /\
  Reporter_new Examples.bad_step true
  = Throw (logic_error
             "TODO: PopulationReporter requires P.time_step = 1 / P.report_every.").
Proof.
  assert (Hrun : RunSimulation Examples.bad_step r0
                 = Throw (logic_error
                            "TODO: PopulationReporter requires P.time_step = 1 / P.report_every."))
    by reflexivity.
  split; [exact Hrun|].
  destruct (RunSimulation_failures Examples.bad_step r0 _ Hrun)
    as [[_ H]|[[_ H]|[H _]]]; [exact H|exact H|discriminate H].
Defined.

Lemma Metapopulation_Tick_shape_witness :
  returns (Metapopulation_Tick two r0 0 0 blank2 two_mp)
    (fun '(_, mp1, _, _, _) =>
       length (pops mp1) = 2 /\ rect 2 1 (contag mp1) /\ rect 2 1 (infec mp1)).
Proof.
  destruct (Metapopulation_Tick two r0 0 0 blank2 two_mp)
    as [[[[[b mp1] Rand2] rep2] P1]|e] eqn:Hrun; [|no_throw Hrun].
  destruct (Metapopulation_Tick_shape two r0 0 0 blank2 two_mp _ _ _ _ _ Hrun)
    as (Hlen & Hcg & Hinf & _).
  cbn [returns]. split; [exact Hlen|]. split; [exact Hcg|exact Hinf].
Defined.

Lemma Metapopulation_Tick_other_times_witness :
  (forall j, j < length (pops two_mp) -> p (pops two_mp !!! j) = j) /\
  (n_times blank2 * n_populations blank2 * n_age_groups blank2 < 4294967296)%N /\
  (uint_of_Q (0 - t0 blank2) < n_times blank2)%N /\
  (uint_of_Q (1 - t0 blank2) < n_times blank2)%N /\
  uint_of_Q (1 - t0 blank2) <> uint_of_Q (0 - t0 blank2) /\
  returns (Metapopulation_Tick two r0 0 0 blank2 two_mp)
    (fun '(_, _, _, rep2, _) => rep_get rep2 1 1 0 0 = rep_get blank2 1 1 0 0).
Proof.
  assert (Hp : forall j, j < length (pops two_mp) -> p (pops two_mp !!! j) = j).
  { intros j Hj. destruct (Metapopulation_new_pops two) as [_ Hget].
    rewrite Hget by exact Hj. reflexivity. }
  assert (H1 : (n_times blank2 * n_populations blank2 * n_age_groups blank2
                < 4294967296)%N) by reflexivity.
  assert (H2 : (uint_of_Q (0 - t0 blank2) < n_times blank2)%N) by reflexivity.
  assert (H3 : (uint_of_Q (1 - t0 blank2) < n_times blank2)%N) by reflexivity.
  assert (H4 : uint_of_Q (1 - t0 blank2) <> uint_of_Q (0 - t0 blank2))
    by (intros H; discriminate H).
  split; [exact Hp|]. split; [exact H1|]. split; [exact H2|]. split; [exact H3|].
  split; [exact H4|].
  destruct (Metapopulation_Tick two r0 0 0 blank2 two_mp)
    as [[[[[b mp1] Rand2] rep2] P1]|e] eqn:Hrun; [|no_throw Hrun].
  cbn [returns].
  apply (Metapopulation_Tick_other_times two r0 0 0 blank2 two_mp _ _ _ _ _ Hrun Hp H1
           eq_refl eq_refl H2 1 1 0 0 H3); [simpl; lia|simpl; lia|exact H4].
Defined.

Lemma Metapopulation_Tick_no_travel_witness :
  0 < length (pops two_mp) /\ 0 < length (size (pop two !!! 0)) /\
  returns (Metapopulation_Tick two r0 0 0 blank2 two_mp)
    (fun '(_, mp1, _, _, P1) =>
       P1 = two /\ (get2 (infec mp1) 0 0 == get2 (contag mp1) 0 0)%Q).
Proof.
  assert (Hpops : 0 < length (pops two_mp)) by (simpl; lia).
  assert (Hages : 0 < length (size (pop two !!! 0))) by (simpl; lia).
  split; [exact Hpops|]. split; [exact Hages|].
  assert (HP : match Metapopulation_Tick two r0 0 0 blank2 two_mp with
               | Ok (_, _, _, _, P1) => P1
               | Throw _ => two
               end = two) by (vm_compute; reflexivity).
  destruct (Metapopulation_Tick two r0 0 0 blank2 two_mp)
    as [[[[[b mp1] Rand2] rep2] P1]|e] eqn:Hrun; [|no_throw Hrun].
  cbn [returns]. split; [exact HP|].
  apply (Metapopulation_Tick_no_travel two r0 0 0 blank2 two_mp _ _ _ _ _ 0 0 Hrun);
    [|exact Hpops|exact Hages].
  intros j k. rewrite HP. cbn [travel Reference.two_pops Reference.config].
  destruct (Nat.eqb_spec j k), (decide (j = k)); try contradiction; reflexivity.
Defined.

Lemma RunSimulation_table_witness :
  returns (RunSimulation ten r0)
    (fun rep => n_times rep = 4%N /\ length (col_names rep) = 9 /\
                map length (data rep) = replicate 9 4).
Proof.
  destruct (RunSimulation ten r0) as [rep|e] eqn:Hrun; [|no_throw Hrun].
  destruct (RunSimulation_table ten r0 rep Hrun)
    as (_ & _ & Hnt & Hnp & Hna & Hnames & Hdata).
  cbn [returns]. split; [exact Hnt|]. split.
  - rewrite Hnames. reflexivity.
  - rewrite Hdata, Hnt, Hnp, Hna. reflexivity.
Defined.

Lemma RunSimulation_populations_witness :
  0 < length (pop ten) /\
  returns (RunSimulation_state ten r0)
    (fun st =>
       length (pops (run_mp st)) = 1 /\
       p (pops (run_mp st) !!! 0) = 0 /\
       length (S_ (pops (run_mp st) !!! 0)) = 1).
Proof.
  assert (Hlen : 0 < length (pop ten)) by (simpl; lia).
  split; [exact Hlen|].
  destruct (RunSimulation_state ten r0) as [st|e] eqn:Hrun; [|no_throw Hrun].
  destruct (RunSimulation_populations ten r0 st Hrun) as [Hn Hpops].
  destruct (Hpops 0 Hlen) as (Hp & HS & _).
  cbn [returns]. split; [exact Hn|]. split; [exact Hp|exact HS].
Defined.

Lemma Population_Tick_prevalence_witness :
  is_integer 0 = true /\ user_columns ten /\
  rows_distinct blank 0 (p ten_pop) (length [0%Q]) /\
  0 < length (data blank) /\
  rep_row blank 0 (p ten_pop) 0 < length (data blank !!! 0) /\
  rep_get (Population_Tick ten r0 0 [0%Q] blank ten_pop).2 0 (p ten_pop) 0 0 = 100%Q.
Proof.
  assert (Hint : is_integer 0 = true) by reflexivity.
  assert (Hu : user_columns ten).
  { intros pr c Hpr _. apply elem_of_nil in Hpr. contradiction. }
  assert (Hrows : rows_distinct blank 0 (p ten_pop) (length [0%Q])).
  { intros a1 a2 H1 H2 _. simpl in H1, H2. lia. }
  assert (Hc : 0 < length (data blank)) by (simpl; lia).
  assert (Hrow : rep_row blank 0 (p ten_pop) 0 < length (data blank !!! 0))
    by (vm_compute; lia).
  split; [exact Hint|]. split; [exact Hu|]. split; [exact Hrows|].
  split; [exact Hc|]. split; [exact Hrow|].
  rewrite (Population_Tick_prevalence ten r0 0 [0%Q] blank ten_pop 0 0 Hint Hu Hrows);
    [reflexivity|simpl; lia|lia|exact Hc|exact Hrow].
Defined.

Lemma Population_Tick_incidence_witness :
  user_columns ten /\
  rows_distinct blank 0 (p ten_pop) (length [0%Q]) /\
  6 < length (data blank) /\
  rep_row blank 0 (p ten_pop) 0 < length (data blank !!! 6) /\
  rep_get (Population_Tick ten r0 0 [0%Q] blank ten_pop).2 0 (p ten_pop) 0 6
  = (rep_get blank 0 (p ten_pop) 0 6
     + nIp_Is (builtin_states ten 0
                 (set_lambda ten_pop (force_of_infection ten (p ten_pop) [0%Q]), r0)).1.1)%Q.
Proof.
  assert (Hu : user_columns ten).
  { intros pr c Hpr _. apply elem_of_nil in Hpr. contradiction. }
  assert (Hrows : rows_distinct blank 0 (p ten_pop) (length [0%Q])).
  { intros a1 a2 H1 H2 _. simpl in H1, H2. lia. }
  assert (Hc : 6 < length (data blank)) by (simpl; lia).
  assert (Hrow : rep_row blank 0 (p ten_pop) 0 < length (data blank !!! 6))
    by (vm_compute; lia).
  split; [exact Hu|]. split; [exact Hrows|]. split; [exact Hc|]. split; [exact Hrow|].
  apply (Population_Tick_incidence ten r0 0 [0%Q] blank ten_pop 0 6 Hu Hrows);
    [simpl; lia|lia|exact Hc|exact Hrow].
Defined.

Lemma Population_Tick_untouched_ages_witness :
  length [0%Q] <= 1 /\
  S_ (Population_Tick Examples.two_ages r0 0 [0%Q] (Reference.blank_reporter 1 2 8)
                      (Population_new Examples.two_ages 0)).1.1.2 !!! 1 = 40%Q.
Proof.
  assert (Hlen : length [0%Q] <= 1) by (simpl; lia).
  split; [exact Hlen|].
  pose proof (Population_Tick_untouched_ages Examples.two_ages r0 0 [0%Q]
                (Reference.blank_reporter 1 2 8)
                (Population_new Examples.two_ages 0) 1 Hlen) as Hst.
  apply (f_equal (fun x => x.1.1.1.1.1.1.1.1)) in Hst.
  unfold age_state in Hst. cbn [fst] in Hst. rewrite Hst. reflexivity.
Defined.

Lemma process_compartment_balance_witness :
  NoDup (flat_map ids (processes onset)) /\
  0 ∈ flat_map ids (processes onset) /\
  0 < length (pc (Population_new onset 0)) /\
  0 < length (pc (Population_new onset 0) !!! 0) /\
  0 < length (pci (Population_new onset 0)) /\
  0 < length (pco (Population_new onset 0)) /\
  (Compartment_Size
     ((pc (tick_age onset 0 (Population_new onset 0, r0, blank) 0%nat).1.1 !!! 0%nat)
        !!! 0%nat)
   == Compartment_Size ((pc (Population_new onset 0) !!! 0%nat) !!! 0%nat)
      - pco (tick_age onset 0 (Population_new onset 0, r0, blank) 0%nat).1.1 !!! 0%nat
      + pci (tick_age onset 0 (Population_new onset 0, r0, blank) 0%nat).1.1 !!! 0%nat)%Q.
Proof.
  assert (Hnd : NoDup (flat_map ids (processes onset))) by apply NoDup_singleton.
  assert (Hin : 0 ∈ flat_map ids (processes onset))
    by (apply list_elem_of_singleton; reflexivity).
  assert (Hpc : 0 < length (pc (Population_new onset 0))) by (vm_compute; lia).
  assert (Ha : 0 < length (pc (Population_new onset 0) !!! 0)) by (vm_compute; lia).
  assert (Hpci : 0 < length (pci (Population_new onset 0))) by (vm_compute; lia).
  assert (Hpco : 0 < length (pco (Population_new onset 0))) by (vm_compute; lia).
  split; [exact Hnd|]. split; [exact Hin|]. split; [exact Hpc|]. split; [exact Ha|].
  split; [exact Hpci|]. split; [exact Hpco|].
  exact (proj2 (proj2 (@process_compartment_balance _ (Reference_contract Reference.always)
                         onset 0 (Population_new onset 0) r0 blank 0 0
                         Hnd Hin Hpc Ha Hpci Hpco))).
Defined.

Lemma RunSimulation_row_beyond_witness :
  (inject_Z 2 <= time1 Examples.odd_end - time0 Examples.odd_end)%Q /\
  (time1 Examples.odd_end - time0 Examples.odd_end < inject_Z 3)%Q /\
  (0 < time_step Examples.odd_end)%Q /\
  (N.of_nat 6 < time_steps Examples.odd_end)%N /\
  (inject_Z 3 <= step_time Examples.odd_end 6 - time0 Examples.odd_end)%Q /\
  returns (Reporter_new Examples.odd_end true)
    (fun '(rep, _) =>
       length (data rep !!! 0) <= rep_row rep (step_time Examples.odd_end 6) 0 0).
Proof.
  assert (H1 : (inject_Z 2 <= time1 Examples.odd_end - time0 Examples.odd_end)%Q)
    by (vm_compute; discriminate).
  assert (H2 : (time1 Examples.odd_end - time0 Examples.odd_end < inject_Z 3)%Q)
    by reflexivity.
  assert (Hdt : (0 < time_step Examples.odd_end)%Q) by reflexivity.
  assert (Hts : (N.of_nat 6 < time_steps Examples.odd_end)%N) by reflexivity.
  assert (H3 : (inject_Z 3 <= step_time Examples.odd_end 6 - time0 Examples.odd_end)%Q)
    by (vm_compute; discriminate).
  split; [exact H1|]. split; [exact H2|]. split; [exact Hdt|]. split; [exact Hts|].
  split; [exact H3|].
  assert (Hcols : match Reporter_new Examples.odd_end true with
                  | Ok (rep, _) => length (data rep)
                  | Throw _ => 0
                  end = 9) by (vm_compute; reflexivity).
  destruct (Reporter_new Examples.odd_end true) as [[rep P1]|e] eqn:Hnew;
    [|discriminate Hcols].
  cbn [returns].
  apply (RunSimulation_row_beyond Examples.odd_end true rep P1 2 6 0 0 0 Hnew);
    [lia|exact H1|exact H2|exact Hdt|exact Hts|exact H3|vm_compute; discriminate
    |simpl; lia|simpl; lia|lia].
Defined.

End FurtherRuns.
